(** * Argos coordination core: lock manager, enrollment, scheduling,
      two-phase commit and leader election

    A shallow embedding of the services under [src/argos/services/] and of
    the properties their specification states about them.  Python
    dictionaries are finite maps ([gmap]), Python sets are finite sets
    ([gset]), lists stay lists.  Identifiers drawn from [uuid.uuid4()], the
    thread identity and the clock are inputs of the operations that read
    them, as is the range of waits that [time.sleep] accepts.  Exceptions are values of [exn]; an operation that may raise
    returns a [result]. *)

From Stdlib Require Import ZArith QArith String List Bool Lia Sorted.
From stdpp Require Import base gmap sets list strings pretty.

#[local] Set Warnings "-clear-no-such-hyp".

Local Open Scope string_scope.
Local Open Scope list_scope.
Local Open Scope Z_scope.

(** ** Exceptions ([src/argos/core/exceptions.py]) *)

Inductive exn_class :=
  | ArgosException | ValidationError | ConcurrencyError | EnrollmentError
  | SchedulingError | KeyError | TypeError | RuntimeError
  | OtherException (name : string).

Record exn := mk_exn { exn_cls : exn_class; exn_message : string }.

Inductive result (A : Type) :=
  | Ok (a : A)
  | Raise (e : exn).
Arguments Ok {A} a.
Arguments Raise {A} e.

Definition is_ConcurrencyError (e : exn) : bool :=
  match exn_cls e with ConcurrencyError => true | _ => false end.

(** ** Lock manager ([src/argos/services/concurrency_manager.py]) *)

Module ConcurrencyManager.

Inductive LockType := READ | WRITE | EXCLUSIVE.

#[export] Instance LockType_eq_dec : EqDecision LockType.
Proof. solve_decision. Defined.

#[export] Instance LockType_countable : Countable LockType.
Proof.
  refine (inj_countable'
            (fun t => match t with READ => 0%nat | WRITE => 1%nat | EXCLUSIVE => 2%nat end)
            (fun n => match n with 0%nat => READ | 1%nat => WRITE | _ => EXCLUSIVE end) _).
  by intros [].
Defined.

Definition LockType_value (t : LockType) : string :=
  match t with READ => "read" | WRITE => "write" | EXCLUSIVE => "exclusive" end.

Record LockInfo := mk_LockInfo {
  lock_id : string;
  resource_id : string;
  lock_type : LockType;
  holder_id : string;
  acquired_at : Q;
  timeout : option Q
}.

(** The tables of a manager.  [_locks] is a [defaultdict] of
    [defaultdict(set)]: reading a missing key inserts an empty entry, which
    [locks_getitem] and [types_getitem] write out. *)
Record t := mk {
  _locks : gmap string (gmap LockType (gset string));
  _lock_holders : gmap string LockInfo;
  _lock_timeouts : gmap string Q;
  _version_tracker : gmap string Z
}.

Definition init : t :=
  {| _locks := ∅; _lock_holders := ∅; _lock_timeouts := ∅; _version_tracker := ∅ |}.

Definition locks_getitem (r : string) (locks : gmap string (gmap LockType (gset string)))
  : gmap LockType (gset string) * gmap string (gmap LockType (gset string)) :=
  match locks !! r with
  | Some e => (e, locks)
  | None => (∅, <[r := ∅]> locks)
  end.

Definition types_getitem (ty : LockType) (e : gmap LockType (gset string))
  : gset string * gmap LockType (gset string) :=
  match e !! ty with
  | Some s => (s, e)
  | None => (∅, <[ty := ∅]> e)
  end.

(** The lock ids listed on a resource.  Python walks the dictionary and the
    sets in their own order; the scan below gives the same answer for every
    order as long as each listed id has a record. *)
Definition listed_ids (e : gmap LockType (gset string)) : list string :=
  concat (map (fun p : LockType * gset string => elements (snd p)) (map_to_list e)).

(** The first loop of [_can_acquire_lock]: is one of the listed locks held
    by [h]?  [self._lock_holders[lock_id]] raises [KeyError] on a lock id
    without a record. *)
Fixpoint same_holder_scan (holders : gmap string LockInfo) (h : string)
         (ids : list string) : result bool :=
  match ids with
  | [] => Ok false
  | l :: rest =>
      match holders !! l with
      | None => Raise (mk_exn KeyError l)
      | Some info =>
          if decide (holder_id info = h) then Ok true
          else same_holder_scan holders h rest
      end
  end.

(** [any(existing_locks.values())]: some listed set is non-empty. *)
Definition any_values (e : gmap LockType (gset string)) : bool :=
  existsb (fun p : LockType * gset string => negb (bool_decide (snd p = ∅)))
          (map_to_list e).

Definition key_in (ty : LockType) (e : gmap LockType (gset string)) : bool :=
  bool_decide (is_Some (e !! ty)).

Definition _can_acquire_lock (r : string) (ty : LockType) (h : string) (cm : t)
  : result bool * t :=
  let '(existing, locks') := locks_getitem r (_locks cm) in
  let cm' := {| _locks := locks'; _lock_holders := _lock_holders cm;
                _lock_timeouts := _lock_timeouts cm;
                _version_tracker := _version_tracker cm |} in
  match same_holder_scan (_lock_holders cm) h (listed_ids existing) with
  | Raise e => (Raise e, cm')
  | Ok true => (Ok true, cm')
  | Ok false =>
      match ty with
      | READ => (Ok (negb (key_in WRITE existing) && negb (key_in EXCLUSIVE existing)), cm')
      | WRITE => (Ok (negb (any_values existing)), cm')
      | EXCLUSIVE => (Ok (negb (any_values existing)), cm')
      end
  end.

Definition truthy_timeout (o : option Q) : option Q :=
  match o with
  | Some q => if Qeq_bool q 0 then None else Some q
  | None => None
  end.

(** [acquire_lock]; [uuid] is the value of [str(uuid.uuid4())] and [now]
    the value of [time.time()] for this call (the source reads the clock
    once for [acquired_at] and once more for the expiry time). *)
Definition acquire_lock (uuid : string) (now : Q) (r : string) (ty : LockType)
           (h : string) (tm : option Q) (cm : t) : result string * t :=
  match _can_acquire_lock r ty h cm with
  | (Raise e, cm') => (Raise e, cm')
  | (Ok false, cm') =>
      (Raise (mk_exn ConcurrencyError
                ("Cannot acquire " +:+ LockType_value ty +:+ " lock on " +:+ r)), cm')
  | (Ok true, cm') =>
      let '(e, locks1) := locks_getitem r (_locks cm') in
      let '(s, e1) := types_getitem ty e in
      let locks2 := <[r := <[ty := {[uuid]} ∪ s]> e1]> locks1 in
      let info := {| lock_id := uuid; resource_id := r; lock_type := ty;
                     holder_id := h; acquired_at := now; timeout := tm |} in
      (Ok uuid,
       {| _locks := locks2;
          _lock_holders := <[uuid := info]> (_lock_holders cm');
          _lock_timeouts :=
            match truthy_timeout tm with
            | Some q => <[uuid := (now + q)%Q]> (_lock_timeouts cm')
            | None => _lock_timeouts cm'
            end;
          _version_tracker := _version_tracker cm' |})
  end.

Definition release_lock (l : string) (cm : t) : bool * t :=
  match _lock_holders cm !! l with
  | None => (false, cm)
  | Some info =>
      let r := resource_id info in
      let ty := lock_type info in
      let '(e, locks1) := locks_getitem r (_locks cm) in
      let '(s, e1) := types_getitem ty e in
      let s' := s ∖ {[l]} in
      let e2 := if decide (s' = ∅) then delete ty e1 else <[ty := s']> e1 in
      let locks2 := if decide (e2 = ∅) then delete r locks1 else <[r := e2]> locks1 in
      (true,
       {| _locks := locks2;
          _lock_holders := delete l (_lock_holders cm);
          _lock_timeouts := delete l (_lock_timeouts cm);
          _version_tracker := _version_tracker cm |})
  end.

(** The [lock] context manager around a body that runs on a state [S]
    holding the manager: acquire, run the body, release on every exit. *)
Section scoped.
Context {S A : Type} (get : S -> t) (set : t -> S -> S).

Definition lock (uuid : string) (now : Q) (r : string) (ty : LockType)
           (h : string) (tm : option Q)
           (body : S -> result A * S) (st : S) : result A * S :=
  match acquire_lock uuid now r ty h tm (get st) with
  | (Raise e, cm') => (Raise e, set cm' st)
  | (Ok l, cm') =>
      let '(res, st1) := body (set cm' st) in
      (* finally: if lock_id: self.release_lock(lock_id) *)
      (res, if decide (l = "") then st1 else set (snd (release_lock l (get st1))) st1)
  end.
End scoped.

Definition get_version (r : string) (cm : t) : Z :=
  default 0 (_version_tracker cm !! r).

Definition increment_version (r : string) (cm : t) : Z * t :=
  let new_version := get_version r cm + 1 in
  (new_version,
   {| _locks := _locks cm; _lock_holders := _lock_holders cm;
      _lock_timeouts := _lock_timeouts cm;
      _version_tracker := <[r := new_version]> (_version_tracker cm) |}).

Definition check_version (r : string) (expected : Z) (cm : t) : bool :=
  bool_decide (get_version r cm = expected).

(** [execute_with_retry].  The callable is given by the outcome of each of
    its successive invocations; the run is described by what it returns or
    raises and by the calls and sleeps it performed, in order. *)
Inductive action :=
  | Called (k : nat)
  | Slept (seconds : Q).

Definition backoff (backoff_factor : Q) (attempt : nat) : Q :=
  (backoff_factor * inject_Z (2 ^ Z.of_nat attempt))%Q.

Definition raise_last {A} (last_exception : option exn) : result A :=
  match last_exception with
  | Some e => Raise e
  | None => Raise (mk_exn TypeError "exceptions must derive from BaseException")
  end.

(** [time.sleep(backoff_factor * (2 ** attempt))] can raise instead of
    waiting.  Whether the product and the wait fit the floats and the
    clock of the platform is an input of the run:
    [overflow backoff_factor attempt] is the message of the
    [OverflowError] raised when they do not.  A wait that fits and is
    negative raises [ValueError]; [None] is a sleep that returns. *)
Definition sleep_error (overflow : Q -> nat -> option string)
           (backoff_factor : Q) (attempt : nat) : option exn :=
  match overflow backoff_factor attempt with
  | Some message => Some (mk_exn (OtherException "OverflowError") message)
  | None =>
      if Qle_bool 0 (backoff backoff_factor attempt) then None
      else Some (mk_exn (OtherException "ValueError") "sleep length must be non-negative")
  end.

(** The sleep stands in the handler of the ConcurrencyError: what it
    raises leaves [execute_with_retry] at once. *)
Fixpoint retry_loop {A} (overflow : Q -> nat -> option string)
         (func : nat -> result A) (max_retries : Z)
         (backoff_factor : Q) (remaining : nat) (attempt : nat)
         (last_exception : option exn) : result A * list action :=
  match remaining with
  | O => (raise_last last_exception, [])
  | Datatypes.S n =>
      match func attempt with
      | Ok v => (Ok v, [Called attempt])
      | Raise e =>
          if is_ConcurrencyError e then
            if Z.of_nat attempt <? max_retries then
              match sleep_error overflow backoff_factor attempt with
              | Some sleep_exception => (Raise sleep_exception, [Called attempt])
              | None =>
                  let '(r, tr) := retry_loop overflow func max_retries backoff_factor n
                                             (Datatypes.S attempt) (Some e) in
                  (r, Called attempt :: Slept (backoff backoff_factor attempt) :: tr)
              end
            else (raise_last (Some e), [Called attempt])
          else (Raise e, [Called attempt])
      end
  end.

Definition execute_with_retry {A} (overflow : Q -> nat -> option string)
           (func : nat -> result A) (max_retries : Z)
           (backoff_factor : Q) : result A * list action :=
  retry_loop overflow func max_retries backoff_factor (Z.to_nat (max_retries + 1)) 0 None.

(** Histories of the lock table: a sequence of [acquire_lock] and
    [release_lock] calls (the expiry sweep of [_cleanup_expired_locks] only
    ever calls [release_lock]). *)
Inductive op :=
  | Acquire (uuid : string) (now : Q) (r : string) (ty : LockType) (h : string)
            (tm : option Q)
  | Release (l : string).

Definition step (o : op) (cm : t) : t :=
  match o with
  | Acquire uuid now r ty h tm => snd (acquire_lock uuid now r ty h tm cm)
  | Release l => snd (release_lock l cm)
  end.

Definition run (ops : list op) (cm : t) : t := fold_left (fun s o => step o s) ops cm.

(** No lock on [r] is recorded for holder [h]. *)
Definition holds_none (r h : string) (cm : t) : bool :=
  forallb (fun p : string * LockInfo =>
             negb (bool_decide (resource_id (snd p) = r)
                   && bool_decide (holder_id (snd p) = h)))
          (map_to_list (_lock_holders cm)).

Definition unused_id (uuid : string) (cm : t) : bool :=
  match _lock_holders cm !! uuid with None => true | Some _ => false end.

(** Some lock on [r] is recorded for a holder other than [h]. *)
Definition others_hold (r h : string) (cm : t) : bool :=
  existsb (fun p : string * LockInfo =>
             bool_decide (resource_id (snd p) = r)
             && negb (bool_decide (holder_id (snd p) = h)))
          (map_to_list (_lock_holders cm)).

(** A WRITE or EXCLUSIVE request by a holder that already holds a lock on
    the resource while another holder holds one there too. *)
Definition shared_upgrade (o : op) (cm : t) : bool :=
  match o with
  | Acquire _ _ r ty h _ =>
      negb (bool_decide (ty = READ)) && negb (holds_none r h cm) && others_hold r h cm
  | Release _ => false
  end.

Definition fresh_id (o : op) (cm : t) : bool :=
  match o with
  | Acquire uuid _ _ _ _ _ => unused_id uuid cm
  | Release _ => true
  end.

(** Histories whose acquisitions draw fresh lock ids and never are shared
    upgrades; releases are unrestricted. *)
Fixpoint admissible (ops : list op) (cm : t) : bool :=
  match ops with
  | [] => true
  | o :: rest => fresh_id o cm && negb (shared_upgrade o cm) && admissible rest (step o cm)
  end.

(** Two locks on one resource held by distinct holders are both READ. *)
Definition mutually_exclusive (cm : t) : Prop :=
  forall l1 l2 i1 i2,
    _lock_holders cm !! l1 = Some i1 -> _lock_holders cm !! l2 = Some i2 ->
    resource_id i1 = resource_id i2 -> holder_id i1 <> holder_id i2 ->
    lock_type i1 = READ /\ lock_type i2 = READ.

Definition set_at (e : gmap LockType (gset string)) (ty : LockType) : gset string :=
  default ∅ (e !! ty).

Definition ids_at (locks : gmap string (gmap LockType (gset string)))
           (r : string) (ty : LockType) : gset string :=
  set_at (default ∅ (locks !! r)) ty.

(** The two tables agree: a listed lock id has a record for that resource
    and type, and every record is listed. *)
Definition consistent (cm : t) : Prop :=
  (forall r ty l, l ∈ ids_at (_locks cm) r ty ->
     exists i, _lock_holders cm !! l = Some i /\ resource_id i = r /\ lock_type i = ty) /\
  (forall l i, _lock_holders cm !! l = Some i ->
     l ∈ ids_at (_locks cm) (resource_id i) (lock_type i)).

Definition raises_concurrency {A} (r : result A) : bool :=
  match r with Ok _ => false | Raise e => is_ConcurrencyError e end.

(** The calls and sleeps of a run whose calls [from .. from + k - 1] are
    each followed by a sleep and a retry, and whose call [from + k] ends
    it. *)
Definition retried_trace (backoff_factor : Q) (from k : nat) : list action :=
  flat_map (fun i => [Called i; Slept (backoff backoff_factor i)]) (seq from k)
  ++ [Called (from + k)%nat].

(** Two sample histories on one resource, and a callable that fails twice
    with a conflict before it returns. *)
Definition upgrade_history : list op :=
  [ Acquire "lock-1" 0 "R1" READ "X" None;
    Acquire "lock-2" 0 "R1" READ "Y" None;
    Acquire "lock-3" 0 "R1" WRITE "X" None ].

Definition plain_history : list op :=
  [ Acquire "lock-1" 0 "R1" READ "X" None;
    Acquire "lock-2" 0 "R1" READ "Y" None;
    Acquire "lock-3" 0 "R1" WRITE "Z" None;
    Release "lock-1";
    Release "lock-2";
    Acquire "lock-4" 0 "R1" WRITE "Z" None;
    Acquire "lock-5" 0 "R1" READ "Z" None ].

Definition flaky (i : nat) : result Z :=
  match i with
  | 0%nat | 1%nat => Raise (mk_exn ConcurrencyError "version conflict")
  | _ => Ok 7
  end.

(** A platform on which every product and every wait fits. *)
Definition roomy : Q -> nat -> option string := fun _ _ => None.

(** *** Shape of the tables, compatibility of lock types, traces and expiry *)

(** No empty set and no empty entry is stored in [_locks]. *)
Definition tidy (cm : t) : Prop :=
  forall r e, _locks cm !! r = Some e ->
    e <> ∅ /\ forall ty s, e !! ty = Some s -> s <> ∅.

(** Every expiry time belongs to a recorded lock. *)
Definition timeouts_recorded (cm : t) : Prop :=
  forall l q, _lock_timeouts cm !! l = Some q -> is_Some (_lock_holders cm !! l).

Definition well_formed (cm : t) : Prop :=
  consistent cm /\ tidy cm /\ timeouts_recorded cm.

(** Histories whose acquisitions draw lock ids that are not in use. *)
Fixpoint fresh_history (ops : list op) (cm : t) : bool :=
  match ops with
  | [] => true
  | o :: rest => fresh_id o cm && fresh_history rest (step o cm)
  end.

(** Some lock of type [ty] on [r] is recorded. *)
Definition type_held (r : string) (ty : LockType) (cm : t) : bool :=
  existsb (fun p : string * LockInfo =>
             bool_decide (resource_id (snd p) = r) && bool_decide (lock_type (snd p) = ty))
          (map_to_list (_lock_holders cm)).

(** The compatibility rule on the lock records. *)
Definition compatible (r : string) (ty : LockType) (h : string) (cm : t) : bool :=
  negb (holds_none r h cm)
  || match ty with
     | READ => negb (type_held r WRITE cm) && negb (type_held r EXCLUSIVE cm)
     | _ => negb (type_held r READ cm) && negb (type_held r WRITE cm)
            && negb (type_held r EXCLUSIVE cm)
     end.

Definition refusal (r : string) (ty : LockType) : exn :=
  mk_exn ConcurrencyError ("Cannot acquire " +:+ LockType_value ty +:+ " lock on " +:+ r).

Definition bump (r : string) (n : nat) (cm : t) : t :=
  Nat.iter n (fun c => snd (increment_version r c)) cm.
Definition calls (tr : list action) : nat :=
  length (List.filter (fun a => match a with Called _ => true | Slept _ => false end) tr).

Definition sleeps (tr : list action) : nat :=
  length (List.filter (fun a => match a with Called _ => false | Slept _ => true end) tr).

Definition total_sleep (tr : list action) : Q :=
  fold_right (fun a acc => match a with Called _ => acc | Slept d => (d + acc)%Q end) 0%Q tr.

(** [current_time > timeout] *)
Definition overdue (current_time deadline : Q) : bool := negb (Qle_bool current_time deadline).

(** One pass of the loop of [_cleanup_expired_locks] at clock reading
    [current_time]: collect the lock ids whose expiry time has passed, then
    release each. *)
Definition expired_locks (current_time : Q) (cm : t) : list string :=
  map fst (List.filter (fun p : string * Q => overdue current_time (snd p))
                       (map_to_list (_lock_timeouts cm))).

Definition cleanup_pass (current_time : Q) (cm : t) : t :=
  fold_left (fun c l => snd (release_lock l c)) (expired_locks current_time cm) cm.

Definition is_overdue (current_time : Q) (l : string) (cm : t) : bool :=
  match _lock_timeouts cm !! l with
  | Some deadline => overdue current_time deadline
  | None => false
  end.

Definition release_all (ls : list string) (cm : t) : t :=
  fold_left (fun c l => snd (release_lock l c)) ls cm.

Definition timed_history : list op :=
  [ Acquire "lock-1" 0 "R1" WRITE "X" (Some 1%Q);
    Acquire "lock-2" 0 "R2" READ "Y" None;
    Acquire "lock-3" 0 "R3" READ "Y" (Some 10%Q) ].
End ConcurrencyManager.

(** ** Entities read by the services ([src/argos/core/entities.py]) *)

Module Student.
Record t := mk { id : string }.
End Student.

Module Section.
Record t := mk {
  id : string;
  course_id : string;
  _capacity : Z;
  _enrolled : gset string
}.
Definition capacity (s : t) : Z := _capacity s.
Definition enrolled_count (s : t) : Z := Z.of_nat (size (_enrolled s)).
End Section.

Module Room.
Record t := mk {
  id : string;
  room_number : string;
  facility_id : string;
  room_type : string;
  capacity : Z;
  equipment : gset string;
  has_access_control : bool
}.
End Room.

(** ** Enrollment engine ([src/argos/services/enrollment_service.py]) *)

Module EnrollmentService.

Inductive EnrollmentStatus := PENDING | CONFIRMED | WAITLISTED | DROPPED | REJECTED.

#[export] Instance EnrollmentStatus_eq_dec : EqDecision EnrollmentStatus.
Proof. solve_decision. Defined.

Record EnrollmentResult := mk_result {
  success : bool;
  status : EnrollmentStatus;
  message : string;
  waitlist_position : option Z
}.

(** The payload of a published enrollment event (its timestamp left out). *)
Record Event := mk_event {
  ev_student_id : string;
  ev_section_id : string;
  ev_status : string;
  ev_waitlist_position : option Z
}.

(** A policy object: its name and its [can_enroll] predicate.  The service
    never calls [get_priority]. *)
Record EnrollmentPolicy := mk_policy {
  get_policy_name : string;
  can_enroll : Student.t -> Section.t -> bool
}.

Definition PrerequisiteCheckPolicy (course_prerequisites : gmap string (gset string))
  : EnrollmentPolicy :=
  {| get_policy_name := "PrerequisiteCheckPolicy";
     can_enroll := fun _ section =>
       match course_prerequisites !! Section.course_id section with
       | None => true
       | Some required_courses =>
           (* issubset of the empty set of completed courses *)
           bool_decide (required_courses ⊆ (∅ : gset string))
       end |}.

Definition QuotaPolicy (max_enrollments : Z) : EnrollmentPolicy :=
  {| get_policy_name := "QuotaPolicy";
     can_enroll := fun _ section => Section.enrolled_count section <? max_enrollments |}.

Definition PriorityPolicy (priority_rules : gmap string Z) : EnrollmentPolicy :=
  {| get_policy_name := "PriorityPolicy";
     can_enroll := fun _ _ => true |}.

Definition default_policies : list EnrollmentPolicy :=
  [ PrerequisiteCheckPolicy
      (<["CS301" := {["CS201"; "CS202"]}]>
       (<["CS401" := {["CS301"]}]>
        (<["MATH301" := {["MATH201"; "MATH202"]}]> ∅)));
    QuotaPolicy 30;
    PriorityPolicy
      (<["graduate" := 20]> (<["senior" := 15]> (<["junior" := 10]>
       (<["sophomore" := 5]> (<["freshman" := 0]> ∅))))) ].

Record t := mk {
  _concurrency_manager : ConcurrencyManager.t;
  _enrollments : gmap string (gmap string EnrollmentStatus);
  _waitlists : gmap string (list string);
  _policies : list EnrollmentPolicy
}.

Definition init (cm : ConcurrencyManager.t) : t :=
  {| _concurrency_manager := cm; _enrollments := ∅; _waitlists := ∅;
     _policies := default_policies |}.

Definition with_cm (cm : ConcurrencyManager.t) (st : t) : t :=
  {| _concurrency_manager := cm; _enrollments := _enrollments st;
     _waitlists := _waitlists st; _policies := _policies st |}.

Definition with_enrollments (e : gmap string (gmap string EnrollmentStatus)) (st : t) : t :=
  {| _concurrency_manager := _concurrency_manager st; _enrollments := e;
     _waitlists := _waitlists st; _policies := _policies st |}.

Definition with_waitlists (w : gmap string (list string)) (st : t) : t :=
  {| _concurrency_manager := _concurrency_manager st; _enrollments := _enrollments st;
     _waitlists := w; _policies := _policies st |}.

(** What a call reads from its surroundings: the lock id drawn from
    [uuid.uuid4()], the clock, and [threading.get_ident()] as printed. *)
Record env := mk_env { uuid : string; now : Q; ident : string }.

(** [f"enrollment_{section_id}"] and [f"enrollment_service_{threading.get_ident()}"] *)
Definition lock_key (section_id : string) : string := "enrollment_" +:+ section_id.
Definition holder_key (w : env) : string := "enrollment_service_" +:+ ident w.

Definition _is_enrolled (student_id section_id : string) (st : t) : bool :=
  match _enrollments st !! student_id with
  | Some sections =>
      match sections !! section_id with
      | Some s => bool_decide (s = CONFIRMED)
      | None => false
      end
  | None => false
  end.

Definition _enroll_student_direct (student_id section_id : string) (st : t) : t :=
  let sections := default ∅ (_enrollments st !! student_id) in
  with_enrollments (<[student_id := <[section_id := CONFIRMED]> sections]> (_enrollments st)) st.

(** [list.index]: position of the first occurrence. *)
Fixpoint index (x : string) (l : list string) : nat :=
  match l with
  | [] => O
  | y :: rest => if decide (y = x) then O else Datatypes.S (index x rest)
  end.

Definition _add_to_waitlist (student_id section_id : string) (st : t) : Z * t :=
  let wl := default [] (_waitlists st !! section_id) in
  let wl' := if decide (student_id ∈ wl) then wl else wl ++ [student_id] in
  (Z.of_nat (index student_id wl') + 1,
   with_waitlists (<[section_id := wl']> (_waitlists st)) st).

Fixpoint _evaluate_policies_from (policies : list EnrollmentPolicy)
         (student : Student.t) (section : Section.t) : bool * string :=
  match policies with
  | [] => (true, "All policies satisfied")
  | policy :: rest =>
      if can_enroll policy student section
      then _evaluate_policies_from rest student section
      else (false, "Policy violation: " +:+ get_policy_name policy)
  end.

Definition _evaluate_policies (student : Student.t) (section : Section.t) (st : t)
  : bool * string :=
  _evaluate_policies_from (_policies st) student section.

Definition enroll_student (w : env) (student : Student.t) (section : Section.t) (st : t)
  : result EnrollmentResult * list Event * t :=
  let student_id := Student.id student in
  let section_id := Section.id section in
  if _is_enrolled student_id section_id st then
    (Ok {| success := true; status := CONFIRMED;
           message := "Student already enrolled"; waitlist_position := None |}, [], st)
  else
    match _evaluate_policies student section st with
    | (false, policy_message) =>
        (Ok {| success := false; status := REJECTED;
               message := policy_message; waitlist_position := None |}, [], st)
    | (true, _) =>
        let body (st1 : t) : result (EnrollmentResult * list Event) * t :=
          if Section.enrolled_count section <? Section.capacity section then
            (Ok ({| success := true; status := CONFIRMED;
                    message := "Student enrolled successfully";
                    waitlist_position := None |},
                 [ {| ev_student_id := student_id; ev_section_id := section_id;
                      ev_status := "enrolled"; ev_waitlist_position := None |} ]),
             _enroll_student_direct student_id section_id st1)
          else
            let '(position, st2) := _add_to_waitlist student_id section_id st1 in
            (Ok ({| success := true; status := WAITLISTED;
                    message := "Student added to waitlist at position " +:+ pretty position;
                    waitlist_position := Some position |},
                 [ {| ev_student_id := student_id; ev_section_id := section_id;
                      ev_status := "waitlisted";
                      ev_waitlist_position := Some position |} ]),
             st2) in
        match ConcurrencyManager.lock _concurrency_manager with_cm
                (uuid w) (now w) (lock_key section_id) ConcurrencyManager.WRITE
                (holder_key w) None body st with
        | (Ok (r, evs), st') => (Ok r, evs, st')
        | (Raise e, st') =>
            if is_ConcurrencyError e then
              (Ok {| success := false; status := REJECTED;
                     message := "Concurrency error: " +:+ exn_message e;
                     waitlist_position := None |}, [], st')
            else (Raise e, [], st')
        end
    end.

(** [list.remove]: drops the first occurrence. *)
Fixpoint remove_first (x : string) (l : list string) : list string :=
  match l with
  | [] => []
  | y :: rest => if decide (y = x) then rest else y :: remove_first x rest
  end.

Definition drop_student (w : env) (student_id section_id : string) (st : t)
  : result EnrollmentResult * list Event * t :=
  if negb (_is_enrolled student_id section_id st) then
    (Ok {| success := false; status := DROPPED;
           message := "Student not enrolled in this section";
           waitlist_position := None |}, [], st)
  else
    let body (st1 : t) : result (EnrollmentResult * list Event) * t :=
      (* Remove from enrollments *)
      let st2 :=
        match _enrollments st1 !! student_id with
        | Some sections =>
            let sections' := delete section_id sections in
            if decide (sections' = ∅)
            then with_enrollments (delete student_id (_enrollments st1)) st1
            else with_enrollments (<[student_id := sections']> (_enrollments st1)) st1
        | None => st1
        end in
      (* Remove from waitlist if present *)
      let st3 :=
        match _waitlists st2 !! section_id with
        | Some wl =>
            if decide (student_id ∈ wl)
            then with_waitlists (<[section_id := remove_first student_id wl]> (_waitlists st2)) st2
            else st2
        | None => st2
        end in
      (* Move next student from waitlist to enrolled *)
      let '(promoted, st4) :=
        match _waitlists st3 !! section_id with
        | Some (next_student_id :: rest) =>
            ([ {| ev_student_id := next_student_id; ev_section_id := section_id;
                  ev_status := "enrolled_from_waitlist"; ev_waitlist_position := None |} ],
             _enroll_student_direct next_student_id section_id
               (with_waitlists (<[section_id := rest]> (_waitlists st3)) st3))
        | _ => ([], st3)
        end in
      (Ok ({| success := true; status := DROPPED;
              message := "Student dropped successfully"; waitlist_position := None |},
           promoted ++
           [ {| ev_student_id := student_id; ev_section_id := section_id;
                ev_status := "dropped"; ev_waitlist_position := None |} ]),
       st4) in
    match ConcurrencyManager.lock _concurrency_manager with_cm
            (uuid w) (now w) (lock_key section_id) ConcurrencyManager.WRITE
            (holder_key w) None body st with
    | (Ok (r, evs), st') => (Ok r, evs, st')
    | (Raise e, st') =>
        if is_ConcurrencyError e then
          (Ok {| success := false; status := DROPPED;
                 message := "Concurrency error: " +:+ exn_message e;
                 waitlist_position := None |}, [], st')
        else (Raise e, [], st')
    end.

Definition get_waitlist_position (student_id section_id : string) (st : t) : option Z :=
  match _waitlists st !! section_id with
  | None => None
  | Some wl =>
      if decide (student_id ∈ wl) then Some (Z.of_nat (index student_id wl) + 1) else None
  end.

Definition get_section_enrollment_count (section_id : string) (st : t) : Z :=
  Z.of_nat (length (List.filter
                      (fun kv : string * gmap string EnrollmentStatus =>
                         bool_decide (snd kv !! section_id = Some CONFIRMED))
                      (map_to_list (_enrollments st)))).

Definition get_section_waitlist_count (section_id : string) (st : t) : Z :=
  Z.of_nat (length (default [] (_waitlists st !! section_id))).

(** The status a call answers with, if it returns. *)
Definition returned_status (r : result EnrollmentResult) : option EnrollmentStatus :=
  match r with Ok x => Some (status x) | Raise _ => None end.

(** The status the service records for a student in a section. *)
Definition recorded_status (student_id section_id : string) (st : t)
  : option EnrollmentStatus :=
  _enrollments st !! student_id ≫= (fun sections => sections !! section_id).

Definition waitlist (section_id : string) (st : t) : list string :=
  default [] (_waitlists st !! section_id).

(** The enrollment table once the record of a student in a section is
    removed the way [drop_student] removes it. *)
Definition without_record (student_id section_id : string)
           (e : gmap string (gmap string EnrollmentStatus))
  : gmap string (gmap string EnrollmentStatus) :=
  match e !! student_id with
  | Some sections =>
      if decide (delete section_id sections = ∅) then delete student_id e
      else <[student_id := delete section_id sections]> e
  | None => e
  end.

(** Sample data: a one-seat section as the caller reads it while nobody is
    in [_enrolled], the same section read while ["Z"] is, and three calls'
    surroundings. *)
Definition seminar : Section.t :=
  {| Section.id := "S"; Section.course_id := "CS101"; Section._capacity := 1;
     Section._enrolled := ∅ |}.

Definition seminar_taken : Section.t :=
  {| Section.id := "S"; Section.course_id := "CS101"; Section._capacity := 1;
     Section._enrolled := {["Z"]} |}.

Definition alice : Student.t := Student.mk "A".
Definition bob : Student.t := Student.mk "B".

Definition call_1 : env := {| uuid := "lock-1"; now := 0; ident := "140001" |}.
Definition call_2 : env := {| uuid := "lock-2"; now := 1; ident := "140001" |}.
Definition call_3 : env := {| uuid := "lock-3"; now := 2; ident := "140001" |}.
Definition call_4 : env := {| uuid := "lock-4"; now := 3; ident := "140001" |}.

Definition empty_service : t := init ConcurrencyManager.init.

(** A two-seat section nobody is enrolled in; Alice, Bob, then Carol
    enroll in it. *)
Definition workshop : Section.t :=
  {| Section.id := "W"; Section.course_id := "CS102"; Section._capacity := 2;
     Section._enrolled := ∅ |}.

Definition carol : Student.t := Student.mk "C".

Definition after_alice : t := snd (enroll_student call_1 alice workshop empty_service).
Definition after_bob : t := snd (enroll_student call_2 bob workshop after_alice).
Definition after_carol : t := snd (enroll_student call_3 carol workshop after_bob).

(** Alice asks while the section reads as taken. *)
Definition alice_waiting : t :=
  snd (enroll_student call_1 alice seminar_taken empty_service).

(** Alice holds the seat and Bob waits. *)
Definition bob_waiting : t :=
  snd (enroll_student call_2 bob seminar_taken
         (snd (enroll_student call_1 alice seminar empty_service))).

(** Alice and Bob ask while the section reads as taken, then Alice asks
    again once it reads as free. *)
Definition alice_listed_and_confirmed : t :=
  snd (enroll_student call_3 alice seminar
         (snd (enroll_student call_2 bob seminar_taken
                 (snd (enroll_student call_1 alice seminar_taken empty_service))))).

(** Histories of the enrollment service. *)
Inductive op :=
  | Enroll (w : env) (student : Student.t) (section : Section.t)
  | Drop (w : env) (student_id section_id : string).

Definition step (o : op) (st : t) : t :=
  match o with
  | Enroll w student section => snd (enroll_student w student section st)
  | Drop w student_id section_id => snd (drop_student w student_id section_id st)
  end.

Definition run (ops : list op) (st : t) : t := fold_left (fun s o => step o s) ops st.

Definition waitlists_distinct (st : t) : Prop :=
  forall section_id wl, _waitlists st !! section_id = Some wl -> NoDup wl.

Definition drop_waitlists (student_id section_id : string)
           (waitlists : gmap string (list string)) : gmap string (list string) :=
  let w3 := match waitlists !! section_id with
            | Some wl =>
                if decide (student_id ∈ wl)
                then <[section_id := remove_first student_id wl]> waitlists
                else waitlists
            | None => waitlists
            end in
  match w3 !! section_id with
  | Some (next :: rest) => <[section_id := rest]> w3
  | _ => w3
  end.

(** The verdict of the default policy chain on a section: the name of the
    first policy that refuses, if any. *)
Definition default_refusal (section : Section.t) : option string :=
  if bool_decide (Section.course_id section ∈ ["CS301"; "CS401"; "MATH301"])
  then Some "PrerequisiteCheckPolicy"
  else if 30 <=? Section.enrolled_count section then Some "QuotaPolicy"
  else None.

Definition statistics_course : Section.t :=
  {| Section.id := "T"; Section.course_id := "MATH301"; Section._capacity := 40;
     Section._enrolled := ∅ |}.

Definition contended : t :=
  with_cm (ConcurrencyManager.run
             [ConcurrencyManager.Acquire "lock-0" 0 "enrollment_S" ConcurrencyManager.READ
                "registrar" None]
             ConcurrencyManager.init)
          bob_waiting.
End EnrollmentService.

(** ** Scheduling engine ([src/argos/services/scheduler_service.py]) *)

Module SchedulerService.

Inductive ScheduleStatus := DRAFT | PENDING | APPROVED | ACTIVE | CANCELLED.

#[export] Instance ScheduleStatus_eq_dec : EqDecision ScheduleStatus.
Proof. solve_decision. Defined.

(** A time slot; a [datetime] is a point of a discrete time line. *)
Record TimeSlot := mk_slot {
  start_time : Z;
  end_time : Z;
  day_of_week : Z
}.

#[export] Instance TimeSlot_eq_dec : EqDecision TimeSlot.
Proof. solve_decision. Defined.

Definition overlaps_with (self other : TimeSlot) : bool :=
  (start_time self <? end_time other)
  && (end_time self >? start_time other)
  && (day_of_week self =? day_of_week other).

(** The [room_requirements] dictionary, by the keys the service reads. *)
Record RoomRequirements := mk_requirements {
  min_capacity : option Z;
  required_room_type : option string;
  required_equipment : option (list string);
  access_control : option bool
}.

Record ScheduleRequest := mk_request {
  section_id : string;
  time_slots : list TimeSlot;
  room_requirements : RoomRequirements;
  priority : Z;
  constraints : list string
}.

Record ScheduleResult := mk_result {
  success : bool;
  schedule_id : option string;
  assigned_room : option string;
  assigned_times : list TimeSlot;
  conflicts : list string;
  message : string
}.

(** The candidate handed to a constraint's [is_satisfied]. *)
Record Candidate := mk_candidate {
  cand_room : Room.t;
  cand_time_slots : list TimeSlot;
  cand_section_id : string
}.

Record Constraint := mk_constraint { is_satisfied : Candidate -> bool }.

Record ScheduleData := mk_data {
  sd_schedule_id : string;
  sd_section_id : string;
  sd_room : Room.t;
  sd_time_slots : list TimeSlot;
  sd_status : ScheduleStatus;
  sd_created_at : Q;
  sd_constraints : list string
}.

(** [_rooms] is iterated in insertion order, so it is kept as an
    association list. *)
Record t := mk {
  _concurrency_manager : ConcurrencyManager.t;
  _schedules : gmap string ScheduleData;
  _room_assignments : gmap string (list TimeSlot);
  _constraints : gmap string Constraint;
  _rooms : list (string * Room.t)
}.

Definition init (cm : ConcurrencyManager.t) : t :=
  {| _concurrency_manager := cm; _schedules := ∅; _room_assignments := ∅;
     _constraints := ∅; _rooms := [] |}.

Definition with_cm (cm : ConcurrencyManager.t) (st : t) : t :=
  {| _concurrency_manager := cm; _schedules := _schedules st;
     _room_assignments := _room_assignments st; _constraints := _constraints st;
     _rooms := _rooms st |}.

Fixpoint dict_set (k : string) (v : Room.t) (d : list (string * Room.t))
  : list (string * Room.t) :=
  match d with
  | [] => [(k, v)]
  | (k', v') :: rest =>
      if decide (k' = k) then (k, v) :: rest else (k', v') :: dict_set k v rest
  end.

Definition add_room (room : Room.t) (st : t) : t :=
  {| _concurrency_manager := _concurrency_manager st; _schedules := _schedules st;
     _room_assignments := <[Room.id room := []]> (_room_assignments st);
     _constraints := _constraints st;
     _rooms := dict_set (Room.id room) room (_rooms st) |}.

Definition add_constraint (constraint_id : string) (c : Constraint) (st : t) : t :=
  {| _concurrency_manager := _concurrency_manager st; _schedules := _schedules st;
     _room_assignments := _room_assignments st;
     _constraints := <[constraint_id := c]> (_constraints st);
     _rooms := _rooms st |}.

Definition truthy_string (o : option string) : option string :=
  match o with
  | Some s => if decide (s = "") then None else Some s
  | None => None
  end.

Definition room_suits (rq : RoomRequirements) (room : Room.t) : bool :=
  if Room.capacity room <? default 1 (min_capacity rq) then false
  else if match truthy_string (required_room_type rq) with
          | Some ty => negb (bool_decide (Room.room_type room = ty))
          | None => false
          end then false
  else if negb (forallb (fun eq => bool_decide (eq ∈ Room.equipment room))
                        (default [] (required_equipment rq))) then false
  else if default false (access_control rq) && negb (Room.has_access_control room) then false
  else true.

(** The sort key [(abs(r.capacity - min_capacity), r.room_number)] and its
    strict order; [list.sort] is stable. *)
Definition key_lt (m : Z) (a b : Room.t) : bool :=
  let ka := Z.abs (Room.capacity a - m) in
  let kb := Z.abs (Room.capacity b - m) in
  (ka <? kb) || ((ka =? kb) && String.ltb (Room.room_number a) (Room.room_number b)).

Fixpoint insert_sorted (m : Z) (x : Room.t) (l : list Room.t) : list Room.t :=
  match l with
  | [] => [x]
  | y :: rest => if key_lt m x y then x :: y :: rest else y :: insert_sorted m x rest
  end.

Definition stable_sort (m : Z) (l : list Room.t) : list Room.t :=
  fold_left (fun acc x => insert_sorted m x acc) l [].

Definition _find_suitable_rooms (request : ScheduleRequest) (st : t) : list Room.t :=
  let rq := room_requirements request in
  stable_sort (default 1 (min_capacity rq))
              (List.filter (room_suits rq) (map snd (_rooms st))).

Definition room_conflicts (request : ScheduleRequest) (room : Room.t) (st : t) : list string :=
  flat_map (fun time_slot =>
              flat_map (fun existing_slot =>
                          if overlaps_with time_slot existing_slot
                          then [ "Room " +:+ Room.room_number room
                                 +:+ " is already booked at " +:+ pretty (start_time time_slot) ]
                          else [])
                       (default [] (_room_assignments st !! Room.id room)))
           (time_slots request).

Definition constraint_conflicts (request : ScheduleRequest) (room : Room.t) (st : t)
  : list string :=
  flat_map (fun constraint_id =>
              match _constraints st !! constraint_id with
              | Some c =>
                  if is_satisfied c {| cand_room := room;
                                       cand_time_slots := time_slots request;
                                       cand_section_id := section_id request |}
                  then []
                  else [ "Constraint violation: " +:+ constraint_id ]
              | None => []
              end)
           (constraints request).

Definition _check_scheduling_conflicts (request : ScheduleRequest) (room : Room.t) (st : t)
  : list string :=
  room_conflicts request room st ++ constraint_conflicts request room st.

(** What [schedule_section] reads from its surroundings: the lock id and
    the schedule id (two [uuid.uuid4()] draws), the clock and the thread
    identity as printed. *)
Record env := mk_env { lock_uuid : string; schedule_uuid : string; now : Q; ident : string }.

(** [f"scheduling_{request.section_id}"] and
    [f"scheduler_service_{threading.get_ident()}"] *)
Definition lock_key (section_id : string) : string := "scheduling_" +:+ section_id.
Definition holder_key (w : env) : string := "scheduler_service_" +:+ ident w.

Definition schedule_section (w : env) (request : ScheduleRequest) (st : t)
  : result ScheduleResult * t :=
  let body (st1 : t) : result ScheduleResult * t :=
    match _find_suitable_rooms request st1 with
    | [] =>
        (Ok {| success := false; schedule_id := None; assigned_room := None;
               assigned_times := []; conflicts := ["No suitable rooms available"];
               message := "No suitable rooms found for scheduling" |}, st1)
    | best_room :: _ =>
        match _check_scheduling_conflicts request best_room st1 with
        | c :: cs =>
            (Ok {| success := false; schedule_id := None; assigned_room := None;
                   assigned_times := []; conflicts := c :: cs;
                   message := "Scheduling conflicts detected" |}, st1)
        | [] =>
            let sid := schedule_uuid w in
            let schedule_data :=
              {| sd_schedule_id := sid; sd_section_id := section_id request;
                 sd_room := best_room; sd_time_slots := time_slots request;
                 sd_status := APPROVED; sd_created_at := now w;
                 sd_constraints := constraints request |} in
            let schedules' := <[sid := schedule_data]> (_schedules st1) in
            match _room_assignments st1 !! Room.id best_room with
            | None =>
                (Raise (mk_exn KeyError (Room.id best_room)),
                 {| _concurrency_manager := _concurrency_manager st1;
                    _schedules := schedules';
                    _room_assignments := _room_assignments st1;
                    _constraints := _constraints st1; _rooms := _rooms st1 |})
            | Some ledger =>
                (Ok {| success := true; schedule_id := Some sid;
                       assigned_room := Some (Room.id best_room);
                       assigned_times := time_slots request; conflicts := [];
                       message := "Section scheduled successfully" |},
                 {| _concurrency_manager := _concurrency_manager st1;
                    _schedules := schedules';
                    _room_assignments :=
                      <[Room.id best_room := ledger ++ time_slots request]>
                        (_room_assignments st1);
                    _constraints := _constraints st1; _rooms := _rooms st1 |})
            end
        end
    end in
  match ConcurrencyManager.lock _concurrency_manager with_cm
          (lock_uuid w) (now w) (lock_key (section_id request))
          ConcurrencyManager.WRITE (holder_key w) None body st with
  | (Ok r, st') => (Ok r, st')
  | (Raise e, st') =>
      if is_ConcurrencyError e then
        (Ok {| success := false; schedule_id := None; assigned_room := None;
               assigned_times := [];
               conflicts := ["Concurrency error: " +:+ exn_message e];
               message := "Scheduling failed due to concurrency error" |}, st')
      else (Raise e, st')
  end.

(** [list.remove] on slots: drops the first equal slot. *)
Fixpoint remove_slot (x : TimeSlot) (l : list TimeSlot) : list TimeSlot :=
  match l with
  | [] => []
  | y :: rest => if decide (y = x) then rest else y :: remove_slot x rest
  end.

(** The loop of [cancel_schedule] over the schedule's slots;
    [self._room_assignments[room_id]] raises [KeyError] on a missing room. *)
Fixpoint remove_slots (room_id : string) (slots : list TimeSlot)
         (ledgers : gmap string (list TimeSlot)) : result (gmap string (list TimeSlot)) :=
  match slots with
  | [] => Ok ledgers
  | slot :: rest =>
      match ledgers !! room_id with
      | None => Raise (mk_exn KeyError room_id)
      | Some ledger =>
          remove_slots room_id rest
            (if decide (slot ∈ ledger)
             then <[room_id := remove_slot slot ledger]> ledgers
             else ledgers)
      end
  end.

Definition cancel_schedule (sid : string) (st : t) : result bool * t :=
  match _schedules st !! sid with
  | None => (Ok false, st)
  | Some schedule_data =>
      match remove_slots (Room.id (sd_room schedule_data)) (sd_time_slots schedule_data)
                         (_room_assignments st) with
      | Raise e => (Raise e, st)
      | Ok ledgers =>
          (Ok true,
           {| _concurrency_manager := _concurrency_manager st;
              _schedules :=
                <[sid := {| sd_schedule_id := sd_schedule_id schedule_data;
                            sd_section_id := sd_section_id schedule_data;
                            sd_room := sd_room schedule_data;
                            sd_time_slots := sd_time_slots schedule_data;
                            sd_status := CANCELLED;
                            sd_created_at := sd_created_at schedule_data;
                            sd_constraints := sd_constraints schedule_data |}]>
                  (_schedules st);
              _room_assignments := ledgers;
              _constraints := _constraints st; _rooms := _rooms st |})
      end
  end.

Definition get_schedule (sid : string) (st : t) : option ScheduleData := _schedules st !! sid.

Definition get_room_schedule (room_id : string) (st : t) : list TimeSlot :=
  default [] (_room_assignments st !! room_id).

(** Histories of the scheduler. *)
Inductive op :=
  | Schedule (w : env) (request : ScheduleRequest)
  | Cancel (sid : string).

Definition step (o : op) (st : t) : t :=
  match o with
  | Schedule w request => snd (schedule_section w request st)
  | Cancel sid => snd (cancel_schedule sid st)
  end.

Definition run (ops : list op) (st : t) : t := fold_left (fun s o => step o s) ops st.

(** No two schedule records that are not cancelled give overlapping slots
    to one room. *)
Definition non_overlapping (st : t) : Prop :=
  forall i j a b,
    i <> j -> _schedules st !! i = Some a -> _schedules st !! j = Some b ->
    sd_status a <> CANCELLED -> sd_status b <> CANCELLED ->
    Room.id (sd_room a) = Room.id (sd_room b) ->
    forall x y, x ∈ sd_time_slots a -> y ∈ sd_time_slots b -> overlaps_with x y = false.

(** Sample data: one lecture hall, one Monday slot, and requests for it. *)
Definition hall : Room.t :=
  {| Room.id := "room-1"; Room.room_number := "101"; Room.facility_id := "main";
     Room.room_type := "lecture"; Room.capacity := 30; Room.equipment := ∅;
     Room.has_access_control := false |}.

Definition monday_9 : TimeSlot := {| start_time := 540; end_time := 600; day_of_week := 0 |}.

Definition ask (section : string) : ScheduleRequest :=
  {| section_id := section; time_slots := [monday_9];
     room_requirements := {| min_capacity := None; required_room_type := None;
                             required_equipment := None; access_control := None |};
     priority := 0; constraints := [] |}.

Definition draw (lock sched : string) : env :=
  {| lock_uuid := lock; schedule_uuid := sched; now := 0; ident := "140001" |}.

Definition campus : t := add_room hall (init ConcurrencyManager.init).

Definition cancel_twice : list op :=
  [ Schedule (draw "lock-1" "sched-1") (ask "A");
    Cancel "sched-1";
    Schedule (draw "lock-2" "sched-2") (ask "B");
    Cancel "sched-1";
    Schedule (draw "lock-3" "sched-3") (ask "C") ].

(** [_minimize_conflicts] and the measures used on rooms and slots. *)
Record Optimization := mk_optimization {
  objective : string;
  total_conflicts : Z;
  conflicts_resolved : Z;
  optimization_score : Q
}.

(** The two counters of [_minimize_conflicts] after the slots of one
    schedule are compared with the ledger of its room. *)
Definition count_conflicts (st : t) (d : ScheduleData) (counters : Z * Z) : Z * Z :=
  fold_left
    (fun acc slot =>
       fold_left
         (fun acc' existing_slot =>
            if overlaps_with slot existing_slot && negb (bool_decide (slot = existing_slot))
            then (fst acc' + 1, snd acc' + 1)
            else acc')
         (default [] (_room_assignments st !! Room.id (sd_room d))) acc)
    (sd_time_slots d) counters.

Definition _minimize_conflicts (st : t) : Optimization :=
  let '(total, resolved) :=
    fold_left (fun acc kv =>
                 if bool_decide (sd_status (snd kv) = ACTIVE)
                 then count_conflicts st (snd kv) acc
                 else acc)
              (map_to_list (_schedules st)) (0, 0) in
  {| objective := "minimize_conflicts";
     total_conflicts := total;
     conflicts_resolved := resolved;
     optimization_score := (inject_Z resolved / inject_Z (Z.max total 1))%Q |}.

Definition proper (slot : TimeSlot) : bool := start_time slot <? end_time slot.

Definition distance (m : Z) (room : Room.t) : Z := Z.abs (Room.capacity room - m).

Definition by_distance (m : Z) (l : list Room.t) : Prop :=
  StronglySorted (fun a b => distance m a <= distance m b) l.

Definition auditorium_request : ScheduleRequest :=
  {| section_id := "A"; time_slots := [monday_9];
     room_requirements := {| min_capacity := Some 40; required_room_type := None;
                             required_equipment := None; access_control := None |};
     priority := 0; constraints := [] |}.

Definition none_active (st : t) : Prop :=
  forall sid d, _schedules st !! sid = Some d -> sd_status d <> ACTIVE.
End SchedulerService.

(** ** Transaction coordinator and leader election
       ([src/argos/services/distributed_coordinator.py]) *)

Module TwoPhaseCommit.

Inductive CoordinationStatus := PENDING | IN_PROGRESS | COMMITTED | ABORTED | TIMEOUT.

(** What awaiting one participant call under [asyncio.wait_for(task, 10.0)]
    yields: the returned flag, an exception, or the timeout. *)
Inductive reply :=
  | Returns (b : bool)
  | Fails (e : exn)
  | TimesOut.

(** A participant object, given by what each of its coroutines answers for
    an operation id. *)
Record DistributedParticipant := mk_participant {
  prepare : string -> gmap string string -> reply;
  commit : string -> reply;
  abort : string -> reply
}.

Record CoordinationRequest := mk_request {
  operation_id : string;
  participants : list string;
  data : gmap string string;
  timeout : Q;
  retry_count : Z
}.

Record CoordinationResult := mk_result {
  success : bool;
  status : CoordinationStatus;
  message : string;
  participants_results : gmap string bool;
  result_operation_id : string
}.

Record Operation := mk_operation {
  op_status : CoordinationStatus;
  op_participants : list string;
  op_data : gmap string string;
  op_start_time : Q;
  op_timeout : Q;
  op_phase : string
}.

Record t := mk {
  _coordinator_id : string;
  _operations : gmap string Operation;
  _participants : gmap string DistributedParticipant
}.

Definition init (coordinator_id : string) : t :=
  {| _coordinator_id := coordinator_id; _operations := ∅; _participants := ∅ |}.

Definition register_participant (p : string) (obj : DistributedParticipant) (c : t) : t :=
  {| _coordinator_id := _coordinator_id c; _operations := _operations c;
     _participants := <[p := obj]> (_participants c) |}.

Definition unregister_participant (p : string) (c : t) : t :=
  {| _coordinator_id := _coordinator_id c; _operations := _operations c;
     _participants := delete p (_participants c) |}.

(** The calls the coordinator issues to participants. *)
Inductive call :=
  | PrepareCall (p : string)
  | CommitCall (p : string)
  | AbortCall (p : string).

(** The task list of a phase: one task per listed participant that is
    registered, in list order. *)
Definition tasks_for (c : t) (ps : list string) : list (string * DistributedParticipant) :=
  flat_map (fun p => match _participants c !! p with
                     | Some obj => [(p, obj)]
                     | None => []
                     end) ps.

Definition settle (r : reply) : bool :=
  match r with Returns b => b | Fails _ => false | TimesOut => false end.

(** The result dictionary of a phase. *)
Definition gather (f : DistributedParticipant -> reply)
           (tasks : list (string * DistributedParticipant)) : gmap string bool :=
  fold_left (fun results pt => <[fst pt := settle (f (snd pt))]> results) tasks ∅.

Definition _prepare_phase (c : t) (op : string) (ps : list string)
           (d : gmap string string) : gmap string bool * list call :=
  let tasks := tasks_for c ps in
  (gather (fun obj => prepare obj op d) tasks, map (fun pt => PrepareCall (fst pt)) tasks).

Definition _commit_phase (c : t) (op : string) (ps : list string)
  : gmap string bool * list call :=
  let tasks := tasks_for c ps in
  (gather (fun obj => commit obj op) tasks, map (fun pt => CommitCall (fst pt)) tasks).

Definition _abort_phase (c : t) (op : string) (ps : list string)
  : gmap string bool * list call :=
  let tasks := tasks_for c ps in
  (gather (fun obj => abort obj op) tasks, map (fun pt => AbortCall (fst pt)) tasks).

(** [all(results.values())] *)
Definition all_values (results : gmap string bool) : bool :=
  forallb (fun kv : string * bool => snd kv) (map_to_list results).

Definition _update_operation_status (op : string) (s : CoordinationStatus) (c : t) : t :=
  match _operations c !! op with
  | Some o =>
      {| _coordinator_id := _coordinator_id c;
         _operations :=
           <[op := {| op_status := s; op_participants := op_participants o;
                      op_data := op_data o; op_start_time := op_start_time o;
                      op_timeout := op_timeout o; op_phase := op_phase o |}]>
             (_operations c);
         _participants := _participants c |}
  | None => c
  end.

Definition get_operation_status (op : string) (c : t) : option CoordinationStatus :=
  op_status <$> (_operations c !! op).

(** [execute_transaction]; the phases catch every exception and timeout of
    the participant calls themselves, so the two outer handlers of the
    source are never entered by them. *)
Definition execute_transaction (now : Q) (request : CoordinationRequest) (c : t)
  : CoordinationResult * list call * t :=
  let op := operation_id request in
  let ps := participants request in
  let c0 := {| _coordinator_id := _coordinator_id c;
               _operations :=
                 <[op := {| op_status := PENDING; op_participants := ps;
                            op_data := data request; op_start_time := now;
                            op_timeout := timeout request; op_phase := "prepare" |}]>
                   (_operations c);
               _participants := _participants c |} in
  let '(prepare_results, calls1) := _prepare_phase c0 op ps (data request) in
  if all_values prepare_results then
    let '(commit_results, calls2) := _commit_phase c0 op ps in
    if all_values commit_results then
      ({| success := true; status := COMMITTED;
          message := "Transaction committed successfully";
          participants_results := commit_results; result_operation_id := op |},
       calls1 ++ calls2,
       _update_operation_status op COMMITTED c0)
    else
      let '(_, calls3) := _abort_phase c0 op ps in
      ({| success := false; status := ABORTED;
          message := "Transaction aborted due to commit failures";
          participants_results := commit_results; result_operation_id := op |},
       calls1 ++ calls2 ++ calls3,
       _update_operation_status op ABORTED c0)
  else
    let '(_, calls3) := _abort_phase c0 op ps in
    ({| success := false; status := ABORTED;
        message := "Transaction aborted due to prepare failures";
        participants_results := prepare_results; result_operation_id := op |},
     calls1 ++ calls3,
     _update_operation_status op ABORTED c0).

(** The participants a request names that are registered, in list order. *)
Definition named (c : t) (request : CoordinationRequest) : list string :=
  map fst (tasks_for c (participants request)).

(** A participant's prepare, respectively commit, call for the request
    comes back [True] in time. *)
Definition prepared (request : CoordinationRequest) (obj : DistributedParticipant) : bool :=
  settle (prepare obj (operation_id request) (data request)).

Definition committed (request : CoordinationRequest) (obj : DistributedParticipant) : bool :=
  settle (commit obj (operation_id request)).

(** Sample participants and a two-participant request. *)
Definition reliable : DistributedParticipant :=
  {| prepare := fun _ _ => Returns true; commit := fun _ => Returns true;
     abort := fun _ => Returns true |}.

Definition fails_commit : DistributedParticipant :=
  {| prepare := fun _ _ => Returns true; commit := fun _ => TimesOut;
     abort := fun _ => Returns true |}.

Definition fails_prepare : DistributedParticipant :=
  {| prepare := fun _ _ => Returns false; commit := fun _ => Returns true;
     abort := fun _ => Returns true |}.

Definition two_nodes (second : DistributedParticipant) : t :=
  register_participant "p2" second (register_participant "p1" reliable (init "coordinator")).

Definition transfer : CoordinationRequest :=
  {| operation_id := "op-1"; participants := ["p1"; "p2"]; data := ∅;
     timeout := 30; retry_count := 3 |}.

Definition all_prepared (c : t) (request : CoordinationRequest) : bool :=
  forallb (fun pt => prepared request (snd pt)) (tasks_for c (participants request)).

Definition all_committed (c : t) (request : CoordinationRequest) : bool :=
  forallb (fun pt => committed request (snd pt)) (tasks_for c (participants request)).

Definition target (k : call) : string :=
  match k with PrepareCall p | CommitCall p | AbortCall p => p end.

(** [operation['start_time'] < cutoff_time] with
    [cutoff_time = time.time() - (max_age_hours * 3600)] *)
Definition outdated (now : Q) (max_age_hours : Z) (o : Operation) : bool :=
  negb (Qle_bool (now - inject_Z (max_age_hours * 3600)) (op_start_time o)).

Definition cleanup_old_operations (now : Q) (max_age_hours : Z) (c : t) : Z * t :=
  let to_remove :=
    map fst (List.filter (fun kv : string * Operation => outdated now max_age_hours (snd kv))
                         (map_to_list (_operations c))) in
  (Z.of_nat (length to_remove),
   {| _coordinator_id := _coordinator_id c;
      _operations := fold_left (fun ops operation_id => delete operation_id ops)
                               to_remove (_operations c);
      _participants := _participants c |}).
End TwoPhaseCommit.

Module LeaderElection.

Record t := mk {
  _node_id : string;
  _all_nodes : list string;
  _current_leader : option string;
  _election_in_progress : bool
}.

Definition init (node_id : string) (all_nodes : list string) : t :=
  {| _node_id := node_id; _all_nodes := all_nodes;
     _current_leader := None; _election_in_progress := false |}.

Definition with_leader (l : option string) (le : t) : t :=
  {| _node_id := _node_id le; _all_nodes := _all_nodes le;
     _current_leader := l; _election_in_progress := _election_in_progress le |}.

Definition with_progress (b : bool) (le : t) : t :=
  {| _node_id := _node_id le; _all_nodes := _all_nodes le;
     _current_leader := _current_leader le; _election_in_progress := b |}.

(** [self._current_leader or self._node_id]: [None] and the empty string
    are falsy. *)
Definition leader_or_self (le : t) : string :=
  match _current_leader le with
  | Some l => if decide (l = "") then _node_id le else l
  | None => _node_id le
  end.

(** [node > self._node_id] on strings. *)
Definition higher_priority_nodes (le : t) : list string :=
  List.filter (fun node => String.ltb (_node_id le) node) (_all_nodes le).

Definition _send_election_messages (nodes : list string) : gmap string bool :=
  fold_left (fun responses node => <[node := false]> responses) nodes ∅.

Definition any_values (responses : gmap string bool) : bool :=
  existsb (fun kv : string * bool => snd kv) (map_to_list responses).

Definition start_election (le : t) : string * t :=
  if _election_in_progress le then (leader_or_self le, le)
  else
    let le1 := with_progress true le in
    let '(ret, le2) :=
      match higher_priority_nodes le1 with
      | [] => (_node_id le1, with_leader (Some (_node_id le1)) le1)
      | higher =>
          let responses := _send_election_messages higher in
          if negb (any_values responses) then
            (_node_id le1, with_leader (Some (_node_id le1)) le1)
          else (leader_or_self le1, le1)
      end in
    (ret, with_progress false le2).

Definition get_current_leader (le : t) : option string := _current_leader le.

Definition is_leader (le : t) : bool :=
  bool_decide (_current_leader le = Some (_node_id le)).

(** A freshly built node after any number of completed election rounds. *)
Definition after_rounds (n : nat) (node_id : string) (all_nodes : list string) : t :=
  Nat.iter n (fun le => snd (start_election le)) (init node_id all_nodes).

End LeaderElection.

(** ** The coordination service ([DistributedCoordinator] of
       [src/argos/services/distributed_coordinator.py]) *)

Module DistributedCoordinator.

(** [_leader_election] is [None] until [initialize_leader_election];
    [_distributed_locks] maps a resource to the node that holds it. *)
Record t := mk {
  _node_id : string;
  _concurrency_manager : ConcurrencyManager.t;
  _two_phase_commit : TwoPhaseCommit.t;
  _leader_election : option LeaderElection.t;
  _distributed_locks : gmap string string
}.

Definition init (node_id : string) (concurrency_manager : ConcurrencyManager.t) : t :=
  {| _node_id := node_id; _concurrency_manager := concurrency_manager;
     _two_phase_commit := TwoPhaseCommit.init node_id;
     _leader_election := None; _distributed_locks := ∅ |}.

Definition with_election (le : option LeaderElection.t) (dc : t) : t :=
  {| _node_id := _node_id dc; _concurrency_manager := _concurrency_manager dc;
     _two_phase_commit := _two_phase_commit dc;
     _leader_election := le; _distributed_locks := _distributed_locks dc |}.

Definition with_locks (locks : gmap string string) (dc : t) : t :=
  {| _node_id := _node_id dc; _concurrency_manager := _concurrency_manager dc;
     _two_phase_commit := _two_phase_commit dc;
     _leader_election := _leader_election dc; _distributed_locks := locks |}.

Definition initialize_leader_election (all_nodes : list string) (dc : t) : t :=
  with_election (Some (LeaderElection.init (_node_id dc) all_nodes)) dc.

Definition elect_leader (dc : t) : result string * t :=
  match _leader_election dc with
  | None => (Raise (mk_exn RuntimeError "Leader election not initialized"), dc)
  | Some le =>
      let '(leader, le') := LeaderElection.start_election le in
      (Ok leader, with_election (Some le') dc)
  end.

Definition is_leader (dc : t) : bool :=
  match _leader_election dc with
  | None => false
  | Some le => LeaderElection.is_leader le
  end.

Definition get_current_leader (dc : t) : option string :=
  match _leader_election dc with
  | None => None
  | Some le => LeaderElection.get_current_leader le
  end.

(** [time.time() - start_time < timeout] *)
Definition within (reading start_time timeout : Q) : bool :=
  negb (Qle_bool timeout (reading - start_time)).

(** The loop of [acquire_distributed_lock].  [tick k] is the [k]-th
    reading of the clock; [fuel] bounds the number of loop tests, [None]
    is a loop still running when the bound is reached. *)
Fixpoint acquire_loop (fuel : nat) (tick : nat -> Q) (k : nat) (start_time : Q)
         (resource_id : string) (timeout : Q) (dc : t) : option (bool * t) :=
  match fuel with
  | O => None
  | S fuel' =>
      if within (tick k) start_time timeout then
        match _distributed_locks dc !! resource_id with
        | None => Some (true, with_locks (<[resource_id := _node_id dc]> (_distributed_locks dc)) dc)
        | Some holder =>
            if decide (holder = _node_id dc) then Some (true, dc)
            else acquire_loop fuel' tick (S k) start_time resource_id timeout dc
        end
      else Some (false, dc)
  end.

Definition acquire_distributed_lock (fuel : nat) (tick : nat -> Q)
           (resource_id : string) (timeout : Q) (dc : t) : option (bool * t) :=
  acquire_loop fuel tick 1 (tick 0%nat) resource_id timeout dc.

Definition release_distributed_lock (resource_id : string) (dc : t) : bool * t :=
  match _distributed_locks dc !! resource_id with
  | Some holder =>
      if decide (holder = _node_id dc)
      then (true, with_locks (delete resource_id (_distributed_locks dc)) dc)
      else (false, dc)
  | None => (false, dc)
  end.

(** Every recorded distributed lock names this node as its holder. *)
Definition own_locks (dc : t) : Prop :=
  forall resource_id holder,
    _distributed_locks dc !! resource_id = Some holder -> holder = _node_id dc.

(** A clock that advances by one second per reading. *)
Definition seconds (k : nat) : Q := inject_Z (Z.of_nat k).

End DistributedCoordinator.

(** ** The section entity's own roster ([src/argos/core/entities.py]) *)

Module SectionRoster.

(** The section entity with the rest of the state its roster methods use:
    the waitlist and the version counter that [update] advances. *)
Record t := mk {
  section : Section.t;
  _waitlist : list string;
  _version : Z
}.

Definition enrolled (s : t) : gset string := Section._enrolled (section s).

(** A section as its constructor leaves it. *)
Definition blank (id course_id : string) : t :=
  {| section := {| Section.id := id; Section.course_id := course_id;
                   Section._capacity := 0; Section._enrolled := ∅ |};
     _waitlist := []; _version := 1 |}.

Definition update (s : t) : t :=
  {| section := section s; _waitlist := _waitlist s; _version := _version s + 1 |}.

Definition with_capacity (capacity : Z) (s : t) : t :=
  {| section := {| Section.id := Section.id (section s);
                   Section.course_id := Section.course_id (section s);
                   Section._capacity := capacity;
                   Section._enrolled := Section._enrolled (section s) |};
     _waitlist := _waitlist s; _version := _version s |}.

Definition with_enrolled (e : gset string) (s : t) : t :=
  {| section := {| Section.id := Section.id (section s);
                   Section.course_id := Section.course_id (section s);
                   Section._capacity := Section._capacity (section s);
                   Section._enrolled := e |};
     _waitlist := _waitlist s; _version := _version s |}.

Definition with_waitlist (l : list string) (s : t) : t :=
  {| section := section s; _waitlist := l; _version := _version s |}.

Definition waitlist_count (s : t) : Z := Z.of_nat (length (_waitlist s)).

(** [len(self._enrolled) >= self._capacity] *)
Definition is_full (s : t) : bool :=
  Section.capacity (section s) <=? Section.enrolled_count (section s).

Definition set_capacity (capacity : Z) (s : t) : result unit * t :=
  if capacity <? 0 then (Raise (mk_exn ValidationError "Capacity cannot be negative"), s)
  else (Ok tt, update (with_capacity capacity s)).

Definition enroll_student (student_id : string) (s : t) : bool * t :=
  if decide (student_id ∈ enrolled s) then (true, s)
  else if negb (is_full s) then
    (true, update (with_enrolled ({[student_id]} ∪ enrolled s) s))
  else if decide (student_id ∈ _waitlist s) then (false, s)
  else (false, update (with_waitlist (_waitlist s ++ [student_id]) s)).

Definition drop_student (student_id : string) (s : t) : bool * t :=
  if decide (student_id ∈ enrolled s) then
    let remaining := enrolled s ∖ {[student_id]} in
    match _waitlist s with
    | [] => (true, update (with_enrolled remaining s))
    | next_student :: rest =>
        (true, update (with_enrolled ({[next_student]} ∪ remaining) (with_waitlist rest s)))
    end
  else if decide (student_id ∈ _waitlist s) then
    (true, update (with_waitlist (EnrollmentService.remove_first student_id (_waitlist s)) s))
  else (false, s).

(** Histories of one section under a fixed capacity. *)
Inductive op :=
  | Enroll (student_id : string)
  | Drop (student_id : string).

Definition step (o : op) (s : t) : t :=
  match o with
  | Enroll student_id => snd (enroll_student student_id s)
  | Drop student_id => snd (drop_student student_id s)
  end.

Definition run (ops : list op) (s : t) : t := fold_left (fun s o => step o s) ops s.

(** A section as built, after [set_capacity]. *)
Definition opened (id course_id : string) (capacity : Z) : t :=
  snd (set_capacity capacity (blank id course_id)).

(** The roster's shape: no more students enrolled than the capacity, no
    student twice on the waitlist, nobody both enrolled and waiting, and
    nobody waiting while a place is free. *)
Definition orderly (s : t) : Prop :=
  Section.enrolled_count (section s) <= Section.capacity (section s) /\
  NoDup (_waitlist s) /\
  Forall (fun x => x ∉ enrolled s) (_waitlist s) /\
  (_waitlist s = [] \/ is_full s = true).

Definition unknown (student_id : string) (s : t) : bool :=
  negb (bool_decide (student_id ∈ enrolled s))
  && negb (bool_decide (student_id ∈ _waitlist s)).

Definition same_roster (a b : t) : bool :=
  bool_decide (enrolled a = enrolled b) && bool_decide (_waitlist a = _waitlist b).

End SectionRoster.

(** * Properties *)

(** ** Lock manager *)

Section LockProofs.
Import ConcurrencyManager.

Lemma set_at_empty ty : set_at ∅ ty = ∅.
Proof. unfold set_at. by rewrite lookup_empty. Qed.

Lemma locks_getitem_spec r0 locks e locks' :
  locks_getitem r0 locks = (e, locks') ->
  locks' !! r0 = Some e /\ e = default ∅ (locks !! r0) /\
  (forall r, r <> r0 -> locks' !! r = locks !! r).
Proof.
  unfold locks_getitem. destruct (locks !! r0) as [e0|] eqn:E; intros [= <- <-].
  - by rewrite E.
  - rewrite lookup_insert_eq. split_and!; [done|done|].
    intros r Hr. by rewrite lookup_insert_ne.
Qed.

Lemma locks_getitem_ids r0 locks e locks' :
  locks_getitem r0 locks = (e, locks') ->
  forall r ty, ids_at locks' r ty = ids_at locks r ty.
Proof.
  intros H r ty. destruct (locks_getitem_spec _ _ _ _ H) as (H1 & H2 & H3).
  unfold ids_at. destruct (decide (r = r0)) as [->|Hne].
  - rewrite H1. simpl. by rewrite H2.
  - by rewrite H3.
Qed.

Lemma types_getitem_spec ty0 e s e1 :
  types_getitem ty0 e = (s, e1) ->
  e1 !! ty0 = Some s /\ s = set_at e ty0 /\ (forall ty, set_at e1 ty = set_at e ty).
Proof.
  unfold types_getitem, set_at. destruct (e !! ty0) as [s0|] eqn:E; intros [= <- <-].
  - by rewrite E.
  - rewrite lookup_insert_eq. split_and!; [done|done|].
    intros ty. destruct (decide (ty = ty0)) as [->|Hne].
    + by rewrite lookup_insert_eq, E.
    + by rewrite lookup_insert_ne.
Qed.

Lemma elem_of_listed_ids e l :
  l ∈ listed_ids e <-> exists ty, l ∈ set_at e ty.
Proof.
  unfold listed_ids, set_at. rewrite list_elem_of_In, in_concat. split.
  - intros (ids & Hids & Hl). apply in_map_iff in Hids as ([ty s] & <- & Hp).
    apply list_elem_of_In, elem_of_map_to_list in Hp. exists ty. rewrite Hp.
    simpl in *. by apply list_elem_of_In, elem_of_elements in Hl.
  - intros (ty & Hl). destruct (e !! ty) as [s|] eqn:E; simpl in Hl; [|set_solver].
    exists (elements s). split.
    + apply in_map_iff. exists (ty, s). split; [done|].
      by apply list_elem_of_In, elem_of_map_to_list.
    + by apply list_elem_of_In, elem_of_elements.
Qed.

Lemma same_holder_scan_false holders h ids :
  (forall l, l ∈ ids -> exists i, holders !! l = Some i /\ holder_id i <> h) ->
  same_holder_scan holders h ids = Ok false.
Proof.
  induction ids as [|l ids IH]; intros H; simpl; [done|].
  destruct (H l) as (i & -> & Hi); [set_solver|].
  destruct (decide (holder_id i = h)); [done|].
  apply IH. intros l' Hl'. apply H. set_solver.
Qed.

Lemma any_values_false e :
  any_values e = false -> forall ty, set_at e ty = ∅.
Proof.
  unfold any_values, set_at. intros H ty.
  destruct (e !! ty) as [s|] eqn:E; [|done]. simpl.
  destruct (decide (s = ∅)) as [|Hne]; [done|].
  assert (existsb (fun p : LockType * gset string => negb (bool_decide (snd p = ∅)))
            (map_to_list e) = true) as Ht; [|congruence].
  apply existsb_exists. exists (ty, s). split.
  - apply list_elem_of_In. by apply elem_of_map_to_list.
  - simpl. by rewrite bool_decide_eq_false_2.
Qed.

Lemma key_in_false ty e : key_in ty e = false -> set_at e ty = ∅.
Proof.
  unfold key_in, set_at. intros H. apply bool_decide_eq_false in H.
  destruct (e !! ty); [|done]. exfalso. by apply H.
Qed.

Lemma holds_none_spec r h cm :
  holds_none r h cm = true ->
  forall l i, _lock_holders cm !! l = Some i -> resource_id i = r -> holder_id i <> h.
Proof.
  unfold holds_none. intros H l i Hl Hr Hh.
  rewrite forallb_forall in H.
  specialize (H (l, i)). simpl in H.
  rewrite !bool_decide_eq_true_2 in H by done. simpl in H.
  assert (false = true); [|done]. apply H.
  apply list_elem_of_In. by apply elem_of_map_to_list.
Qed.

Lemma can_acquire_effect r ty h cm res cm' :
  _can_acquire_lock r ty h cm = (res, cm') ->
  _lock_holders cm' = _lock_holders cm /\
  _lock_timeouts cm' = _lock_timeouts cm /\
  _version_tracker cm' = _version_tracker cm /\
  (forall r' ty', ids_at (_locks cm') r' ty' = ids_at (_locks cm) r' ty').
Proof.
  unfold _can_acquire_lock.
  destruct (locks_getitem r (_locks cm)) as [existing locks'] eqn:E.
  pose proof (locks_getitem_ids _ _ _ _ E) as Hids.
  destruct (same_holder_scan _ _ _) as [[]|]; [|destruct ty|]; intros [= <- <-]; done.
Qed.

Lemma can_acquire_first r ty h cm :
  consistent cm -> holds_none r h cm = true ->
  fst (_can_acquire_lock r ty h cm) = Ok true ->
  match ty with
  | READ => ids_at (_locks cm) r WRITE = ∅ /\ ids_at (_locks cm) r EXCLUSIVE = ∅
  | _ => forall ty', ids_at (_locks cm) r ty' = ∅
  end.
Proof.
  intros [HI1 HI2] Hnone. unfold _can_acquire_lock.
  destruct (locks_getitem r (_locks cm)) as [existing locks'] eqn:E.
  destruct (locks_getitem_spec _ _ _ _ E) as (_ & Hex & _).
  assert (forall ty', set_at existing ty' = ids_at (_locks cm) r ty') as Hset
    by (intros; by rewrite Hex).
  rewrite same_holder_scan_false.
  - destruct ty; simpl; intros [= H].
    + apply andb_true_iff in H as [H1 H2].
      apply negb_true_iff in H1, H2.
      rewrite <- !Hset. split; by apply key_in_false.
    + apply negb_true_iff in H. intros ty'. rewrite <- Hset. by apply any_values_false.
    + apply negb_true_iff in H. intros ty'. rewrite <- Hset. by apply any_values_false.
  - intros l Hl. apply elem_of_listed_ids in Hl as (ty' & Hl). rewrite Hset in Hl.
    destruct (HI1 _ _ _ Hl) as (i & Hi & Hr & _). exists i. split; [done|].
    by eapply holds_none_spec.
Qed.

Lemma acquire_lock_granted uuid now r ty h tm cm l cm' :
  acquire_lock uuid now r ty h tm cm = (Ok l, cm') ->
  l = uuid /\
  fst (_can_acquire_lock r ty h cm) = Ok true /\
  _lock_holders cm' =
    <[uuid := {| lock_id := uuid; resource_id := r; lock_type := ty; holder_id := h;
                 acquired_at := now; timeout := tm |}]> (_lock_holders cm) /\
  (forall r' ty',
      ids_at (_locks cm') r' ty' =
      if decide (r' = r /\ ty' = ty) then {[uuid]} ∪ ids_at (_locks cm) r ty
      else ids_at (_locks cm) r' ty').
Proof.
  unfold acquire_lock.
  destruct (_can_acquire_lock r ty h cm) as [[[]|] cm1] eqn:E; [|done|done].
  destruct (can_acquire_effect _ _ _ _ _ _ E) as (Hh & _ & _ & Hids).
  destruct (locks_getitem r (_locks cm1)) as [e locks1] eqn:E1.
  destruct (types_getitem ty e) as [s e1] eqn:E2.
  intros [= <- <-]. simpl. rewrite Hh. split_and!; [done..|].
  destruct (locks_getitem_spec _ _ _ _ E1) as (_ & He & Hother).
  destruct (types_getitem_spec _ _ _ _ E2) as (_ & Hs & Hset).
  intros r' ty'. unfold ids_at at 1. case_decide as Hd.
  - destruct Hd as [-> ->]. rewrite lookup_insert_eq. simpl. unfold set_at at 1.
    rewrite lookup_insert_eq. simpl. rewrite Hs, He. f_equal. apply Hids.
  - destruct (decide (r' = r)) as [->|Hr].
    + rewrite lookup_insert_eq. simpl. unfold set_at at 1.
      rewrite lookup_insert_ne by naive_solver.
      fold (set_at e1 ty'). rewrite Hset, He. apply Hids.
    + rewrite lookup_insert_ne by done. rewrite Hother by done. apply Hids.
Qed.

Lemma acquire_lock_denied uuid now r ty h tm cm e cm' :
  acquire_lock uuid now r ty h tm cm = (Raise e, cm') ->
  _lock_holders cm' = _lock_holders cm /\
  (forall r' ty', ids_at (_locks cm') r' ty' = ids_at (_locks cm) r' ty').
Proof.
  unfold acquire_lock.
  destruct (_can_acquire_lock r ty h cm) as [[[]|] cm1] eqn:E.
  - destruct (locks_getitem r (_locks cm1)) as [e0 locks1].
    by destruct (types_getitem ty e0).
  - destruct (can_acquire_effect _ _ _ _ _ _ E) as (Hh & _ & _ & Hids).
    by intros [= _ <-].
  - destruct (can_acquire_effect _ _ _ _ _ _ E) as (Hh & _ & _ & Hids).
    by intros [= _ <-].
Qed.

Lemma release_lock_held l cm i :
  _lock_holders cm !! l = Some i ->
  fst (release_lock l cm) = true /\
  _lock_holders (snd (release_lock l cm)) = delete l (_lock_holders cm) /\
  (forall r' ty',
      ids_at (_locks (snd (release_lock l cm))) r' ty' =
      if decide (r' = resource_id i /\ ty' = lock_type i)
      then ids_at (_locks cm) r' ty' ∖ {[l]}
      else ids_at (_locks cm) r' ty').
Proof.
  intros Hl. unfold release_lock. rewrite Hl.
  destruct (locks_getitem (resource_id i) (_locks cm)) as [e locks1] eqn:E1.
  destruct (types_getitem (lock_type i) e) as [s e1] eqn:E2.
  simpl. split_and!; [done..|].
  destruct (locks_getitem_spec _ _ _ _ E1) as (_ & He & Hother).
  destruct (types_getitem_spec _ _ _ _ E2) as (_ & Hs & Hset).
  set (s' := s ∖ {[l]}).
  set (e2 := if decide (s' = ∅) then delete (lock_type i) e1
             else <[lock_type i := s']> e1).
  assert (forall ty', set_at e2 ty' =
                      if decide (ty' = lock_type i) then s' else set_at e1 ty') as He2.
  { intros ty'. unfold e2, set_at. destruct (decide (s' = ∅)) as [Hs'|Hs'].
    - case_decide as Hty.
      + subst ty'. by rewrite lookup_delete_eq, Hs'.
      + by rewrite lookup_delete_ne.
    - case_decide as Hty.
      + subst ty'. by rewrite lookup_insert_eq.
      + by rewrite lookup_insert_ne. }
  intros r' ty'. unfold ids_at at 1.
  assert (default ∅ ((if decide (e2 = ∅) then delete (resource_id i) locks1
                      else <[resource_id i := e2]> locks1) !! r') =
          if decide (r' = resource_id i) then e2 else default ∅ (locks1 !! r')) as ->.
  { destruct (decide (e2 = ∅)) as [Hemp|Hemp]; case_decide as Hr.
    - subst r'. by rewrite lookup_delete_eq, Hemp.
    - by rewrite lookup_delete_ne.
    - subst r'. by rewrite lookup_insert_eq.
    - by rewrite lookup_insert_ne. }
  destruct (decide (r' = resource_id i)) as [->|Hr].
  - rewrite He2. destruct (decide (ty' = lock_type i)) as [->|Hty].
    + rewrite decide_True by done. unfold s'. rewrite Hs, He. done.
    + rewrite decide_False by naive_solver. rewrite Hset, He. done.
  - rewrite decide_False by naive_solver.
    unfold ids_at. by rewrite Hother.
Qed.

Lemma release_lock_unknown l cm :
  _lock_holders cm !! l = None -> release_lock l cm = (false, cm).
Proof. intros H. unfold release_lock. by rewrite H. Qed.

Lemma consistent_init : consistent init.
Proof.
  split.
  - intros r ty l. unfold ids_at, set_at. simpl. rewrite lookup_empty. simpl.
    rewrite lookup_empty. set_solver.
  - intros l i. simpl. by rewrite lookup_empty.
Qed.

Lemma unused_id_spec uuid cm : unused_id uuid cm = true -> _lock_holders cm !! uuid = None.
Proof. unfold unused_id. by destruct (_ !! uuid). Qed.

Lemma consistent_acquire uuid now r ty h tm cm :
  consistent cm -> unused_id uuid cm = true ->
  consistent (snd (acquire_lock uuid now r ty h tm cm)).
Proof.
  intros [HI1 HI2] Hfresh%unused_id_spec.
  destruct (acquire_lock uuid now r ty h tm cm) as [[l|e] cm'] eqn:E; simpl.
  - destruct (acquire_lock_granted _ _ _ _ _ _ _ _ _ E) as (-> & _ & Hh & Hids).
    split.
    + intros r' ty' l'. rewrite Hids, Hh. case_decide as Hd.
      * destruct Hd as [-> ->]. rewrite elem_of_union, elem_of_singleton.
        intros [->|Hl'].
        -- rewrite lookup_insert_eq. by eexists.
        -- destruct (HI1 _ _ _ Hl') as (i & Hi & ?).
           rewrite lookup_insert_ne by congruence. by exists i.
      * intros Hl'. destruct (HI1 _ _ _ Hl') as (i & Hi & ?).
        rewrite lookup_insert_ne by congruence. by exists i.
    + intros l' i. rewrite Hh, Hids. destruct (decide (l' = uuid)) as [->|Hne].
      * rewrite lookup_insert_eq. intros [= <-]. simpl.
        rewrite decide_True by done. set_solver.
      * rewrite lookup_insert_ne by done. intros Hi%HI2.
        case_decide as Hd; [|done]. destruct Hd as [<- <-]. set_solver.
  - destruct (acquire_lock_denied _ _ _ _ _ _ _ _ _ E) as (Hh & Hids).
    split.
    + intros r' ty' l'. rewrite Hids, Hh. apply HI1.
    + intros l' i. rewrite Hh, Hids. apply HI2.
Qed.

Lemma consistent_release l cm : consistent cm -> consistent (snd (release_lock l cm)).
Proof.
  intros [HI1 HI2]. destruct (_lock_holders cm !! l) as [i|] eqn:El.
  - destruct (release_lock_held _ _ _ El) as (_ & Hh & Hids). split.
    + intros r' ty' l'. rewrite Hids, Hh. case_decide as Hd.
      * rewrite elem_of_difference, elem_of_singleton. intros [Hl' Hne].
        rewrite lookup_delete_ne by done. by apply HI1.
      * intros Hl'. destruct (HI1 _ _ _ Hl') as (i' & Hi' & Hr & Hty).
        exists i'. split; [|done]. rewrite lookup_delete_ne; [done|].
        intros <-. rewrite El in Hi'. injection Hi' as <-. naive_solver.
    + intros l' i'. rewrite Hh, Hids. destruct (decide (l = l')) as [->|Hne].
      * by rewrite lookup_delete_eq.
      * rewrite lookup_delete_ne by done. intros Hi'%HI2.
        case_decide; [|done]. set_solver.
  - by rewrite release_lock_unknown.
Qed.

Lemma mutually_exclusive_release l cm :
  mutually_exclusive cm -> mutually_exclusive (snd (release_lock l cm)).
Proof.
  intros Hm. destruct (_lock_holders cm !! l) as [i|] eqn:El.
  - destruct (release_lock_held _ _ _ El) as (_ & Hh & _).
    intros l1 l2 i1 i2. rewrite Hh.
    intros H1%lookup_delete_Some H2%lookup_delete_Some.
    apply (Hm l1 l2); tauto.
  - by rewrite release_lock_unknown.
Qed.

Lemma first_grant_leaves_compatible uuid now r ty h tm cm l cm' :
  consistent cm -> holds_none r h cm = true ->
  acquire_lock uuid now r ty h tm cm = (Ok l, cm') ->
  forall l' i, _lock_holders cm !! l' = Some i -> resource_id i = r ->
               ty = READ /\ lock_type i = READ.
Proof.
  intros Hc Hnone E l' i Hi Hr.
  destruct (acquire_lock_granted _ _ _ _ _ _ _ _ _ E) as (_ & Hcan & _).
  pose proof (can_acquire_first _ _ _ _ Hc Hnone Hcan) as Hgrant.
  destruct Hc as [_ HI2]. apply HI2 in Hi. rewrite Hr in Hi.
  destruct ty.
  - destruct Hgrant as [Hw He]. destruct (lock_type i); [done|set_solver..].
  - rewrite Hgrant in Hi. set_solver.
  - rewrite Hgrant in Hi. set_solver.
Qed.

Lemma forallb_false_inv {A} (f : A -> bool) (l : list A) :
  forallb f l = false -> exists x, In x l /\ f x = false.
Proof.
  induction l as [|a l IH]; simpl; [done|].
  destruct (f a) eqn:Ea; simpl.
  - intros (x & Hx & Hf)%IH. exists x. by split; [right|].
  - intros _. exists a. by split; [left|].
Qed.

Lemma holds_none_false r h cm :
  holds_none r h cm = false ->
  exists l i, _lock_holders cm !! l = Some i /\ resource_id i = r /\ holder_id i = h.
Proof.
  unfold holds_none. intros H.
  destruct (forallb_false_inv _ _ H) as ([l i] & Hin & Hp).
  exists l, i. apply list_elem_of_In, elem_of_map_to_list in Hin. simpl in Hp.
  apply negb_false_iff, andb_true_iff in Hp as [H1 H2].
  by apply bool_decide_eq_true in H1, H2.
Qed.

Lemma others_hold_false r h cm :
  others_hold r h cm = false ->
  forall l i, _lock_holders cm !! l = Some i -> resource_id i = r -> holder_id i = h.
Proof.
  unfold others_hold. intros H l i Hl Hr.
  destruct (decide (holder_id i = h)) as [|Hne]; [done|].
  assert (existsb (fun p : string * LockInfo =>
                     bool_decide (resource_id (snd p) = r)
                     && negb (bool_decide (holder_id (snd p) = h)))
                  (map_to_list (_lock_holders cm)) = true) as Ht; [|congruence].
  apply existsb_exists. exists (l, i). split.
  - by apply list_elem_of_In, elem_of_map_to_list.
  - simpl. rewrite bool_decide_eq_true_2 by done. by rewrite bool_decide_eq_false_2.
Qed.

Lemma mutually_exclusive_acquire uuid now r ty h tm cm :
  consistent cm -> mutually_exclusive cm ->
  unused_id uuid cm = true -> shared_upgrade (Acquire uuid now r ty h tm) cm = false ->
  mutually_exclusive (snd (acquire_lock uuid now r ty h tm cm)).
Proof.
  intros Hc Hm Hfresh Hup.
  destruct (acquire_lock uuid now r ty h tm cm) as [[l|e] cm'] eqn:E; simpl.
  - assert (forall l' i, _lock_holders cm !! l' = Some i -> resource_id i = r ->
                         holder_id i <> h -> ty = READ /\ lock_type i = READ) as Hcompat.
    { destruct (holds_none r h cm) eqn:Hnone.
      - intros l' i Hi Hr _.
        by apply (first_grant_leaves_compatible _ _ _ _ _ _ _ _ _ Hc Hnone E l' i).
      - simpl in Hup. rewrite Hnone in Hup. simpl in Hup. rewrite andb_true_r in Hup.
        apply andb_false_iff in Hup as [Hty|Hothers].
        + apply negb_false_iff, bool_decide_eq_true in Hty. subst ty.
          destruct (holds_none_false _ _ _ Hnone) as (l0 & i0 & Hl0 & Hr0 & Hh0).
          intros l' i Hi Hr Hne. split; [done|].
          apply (Hm l0 l' i0 i Hl0 Hi); congruence.
        + intros l' i Hi Hr Hne. destruct Hne.
          by apply (others_hold_false _ _ _ Hothers l' i). }
    destruct (acquire_lock_granted _ _ _ _ _ _ _ _ _ E) as (-> & _ & Hh & _).
    intros l1 l2 i1 i2. rewrite Hh.
    destruct (decide (l1 = uuid)) as [->|Hn1]; destruct (decide (l2 = uuid)) as [->|Hn2].
    + rewrite lookup_insert_eq. intros [= <-] [= <-]. done.
    + rewrite lookup_insert_eq, lookup_insert_ne by done. intros [= <-] H2 Hr Hne.
      simpl in *. destruct (Hcompat _ _ H2) as [-> ->]; done.
    + rewrite lookup_insert_eq, lookup_insert_ne by done. intros H1 [= <-] Hr Hne.
      simpl in *. destruct (Hcompat _ _ H1) as [-> ->]; done.
    + rewrite !lookup_insert_ne by done. apply Hm.
  - destruct (acquire_lock_denied _ _ _ _ _ _ _ _ _ E) as (Hh & _).
    intros l1 l2 i1 i2. rewrite Hh. apply Hm.
Qed.

Lemma mutually_exclusive_init : mutually_exclusive init.
Proof. intros l1 l2 i1 i2. simpl. by rewrite lookup_empty. Qed.

Lemma admissible_run_invariant ops : forall cm,
  consistent cm -> mutually_exclusive cm -> admissible ops cm = true ->
  consistent (run ops cm) /\ mutually_exclusive (run ops cm).
Proof.
  induction ops as [|o ops IH]; intros cm Hc Hm Hadm; simpl in *; [done|].
  apply andb_true_iff in Hadm as [Hfirst Hrest].
  apply andb_true_iff in Hfirst as [Hfresh Hup]. apply negb_true_iff in Hup.
  apply IH; [| |done].
  - destruct o; simpl; [by apply consistent_acquire|by apply consistent_release].
  - destruct o; simpl; [by apply mutually_exclusive_acquire
                       |by apply mutually_exclusive_release].
Qed.

Lemma admissible_take ops : forall k cm,
  admissible ops cm = true -> admissible (take k ops) cm = true.
Proof.
  induction ops as [|o ops IH]; intros [|k] cm H; simpl in *; try done.
  apply andb_true_iff in H as [H1 H2]. rewrite H1. simpl. by apply IH.
Qed.

Lemma acquire_free_resource uuid now r ty h tm cm :
  _locks cm !! r = None ->
  exists cm', acquire_lock uuid now r ty h tm cm = (Ok uuid, cm').
Proof.
  intros Hfree. unfold acquire_lock, _can_acquire_lock, locks_getitem. rewrite Hfree.
  unfold listed_ids, any_values, key_in. rewrite map_to_list_empty. simpl.
  rewrite !lookup_empty.
  destruct ty; simpl; rewrite lookup_insert_eq; simpl; rewrite ?lookup_empty;
    unfold types_getitem; rewrite lookup_empty; by eexists.
Qed.

(** On a resource nobody holds, the [lock] context manager runs its body
    (on a state whose lock table shows the lock) and hands back the body's
    result; only the manager component is touched around it. *)
Lemma lock_on_free_resource {S A} (get : S -> t) (set : t -> S -> S)
      (Hset : forall s, set (get s) s = s)
      uuid now r ty h tm (body : S -> result A * S) st :
  _locks (get st) !! r = None ->
  exists cm1 cm2,
    lock get set uuid now r ty h tm body st
    = (fst (body (set cm1 st)), set cm2 (snd (body (set cm1 st)))).
Proof.
  intros Hfree. unfold lock.
  destruct (acquire_free_resource uuid now r ty h tm _ Hfree) as [cm1 ->].
  exists cm1. destruct (body (set cm1 st)) as [res st1]. simpl.
  destruct (decide (uuid = "")).
  - exists (get st1). by rewrite Hset.
  - by eexists.
Qed.

(** C1, as stated, fails: after holders X and Y both took READ on "R1",
    X's request for WRITE is granted through the same-holder shortcut, so X
    holds WRITE while Y holds READ and WRITE was granted while a different
    holder held a lock. *)
Lemma reentrant_upgrade_breaks_exclusion :
  let before := run (take 2 upgrade_history) init in
  fst (acquire_lock "lock-3" 0 "R1" WRITE "X" None before) = Ok "lock-3" /\
  others_hold "R1" "X" before = true /\
  ~ mutually_exclusive (run upgrade_history init).
Proof.
  split_and!; [by vm_compute|by vm_compute|].
  intros H.
  destruct (H "lock-3" "lock-2"
              {| lock_id := "lock-3"; resource_id := "R1"; lock_type := WRITE;
                 holder_id := "X"; acquired_at := 0; timeout := None |}
              {| lock_id := "lock-2"; resource_id := "R1"; lock_type := READ;
                 holder_id := "Y"; acquired_at := 0; timeout := None |})
    as [Hw _]; [by vm_compute|by vm_compute|done|done|done].
Qed.

(** C1, amended: along every history of [acquire_lock] and [release_lock]
    calls with fresh lock ids in which no holder that already holds a lock
    on a resource asks for WRITE or EXCLUSIVE on it while a different holder
    holds a lock there, at every instant two locks on one resource held by
    distinct holders are both READ; and in the state such a history leads
    to, a WRITE or EXCLUSIVE lock is granted to a holder that holds nothing
    on the resource only if no lock of any type is held on it. *)
Theorem exclusion_without_shared_upgrade (ops : list op) :
  admissible ops init = true ->
  (forall k, mutually_exclusive (run (take k ops) init)) /\
  (forall uuid now r ty h tm l cm',
      ty <> READ -> holds_none r h (run ops init) = true ->
      acquire_lock uuid now r ty h tm (run ops init) = (Ok l, cm') ->
      forall l' i, _lock_holders (run ops init) !! l' = Some i -> resource_id i <> r).
Proof.
  intros Hadm. split.
  - intros k. apply admissible_run_invariant;
      [apply consistent_init|apply mutually_exclusive_init|by apply admissible_take].
  - intros uuid now r ty h tm l cm' Hty Hnone E l' i Hi Hr.
    destruct (admissible_run_invariant ops init consistent_init
                mutually_exclusive_init Hadm) as [Hc _].
    by destruct (first_grant_leaves_compatible _ _ _ _ _ _ _ _ _ Hc Hnone E l' i Hi Hr).
Qed.

Lemma exclusion_without_shared_upgrade_witness :
  mutually_exclusive (run plain_history init).
Proof.
  refine (proj1 (exclusion_without_shared_upgrade plain_history _) 7%nat).
  vm_compute. reflexivity.
Defined.

Lemma sleep_error_accepted overflow bf i :
  overflow bf i = None -> (0 <= bf)%Q -> sleep_error overflow bf i = None.
Proof.
  intros Ho Hbf. unfold sleep_error, backoff. rewrite Ho.
  rewrite (proj2 (Qle_bool_iff _ _)); [done|].
  apply Qmult_le_0_compat; [done|].
  change 0%Q with (inject_Z 0). rewrite <- Zle_Qle. apply Z.pow_nonneg. lia.
Qed.

Lemma sleep_error_negative overflow bf i :
  overflow bf i = None -> (bf < 0)%Q ->
  sleep_error overflow bf i
  = Some (mk_exn (OtherException "ValueError") "sleep length must be non-negative").
Proof.
  intros Ho Hbf. unfold sleep_error, backoff. rewrite Ho.
  destruct (Qle_bool 0 (bf * inject_Z (2 ^ Z.of_nat i))) eqn:E; [|done].
  exfalso. apply Qle_bool_iff in E.
  assert (0 < 2 ^ Z.of_nat i) as Hpow by (apply Z.pow_pos_nonneg; lia).
  destruct bf as [n d]. unfold Qle, Qlt in *. simpl in *. nia.
Qed.

Lemma sleep_error_overflow overflow bf i message :
  overflow bf i = Some message ->
  sleep_error overflow bf i = Some (mk_exn (OtherException "OverflowError") message).
Proof. intros Ho. unfold sleep_error. by rewrite Ho. Qed.

Lemma retry_loop_stops {A} overflow (func : nat -> result A) max_retries bf :
  forall k remaining attempt last,
    (k < remaining)%nat ->
    Z.of_nat (attempt + k) <= max_retries ->
    forallb (fun i => raises_concurrency (func i)) (seq attempt k) = true ->
    (forall i, (attempt <= i < attempt + k)%nat -> sleep_error overflow bf i = None) ->
    (raises_concurrency (func (attempt + k)%nat) = true -> Z.of_nat (attempt + k) = max_retries) ->
    retry_loop overflow func max_retries bf remaining attempt last
    = (func (attempt + k)%nat, retried_trace bf attempt k).
Proof.
  induction k as [|k IH]; intros remaining attempt last Hrem Hle Hall Hsleep Hstop.
  - destruct remaining as [|n]; [lia|]. simpl. rewrite Nat.add_0_r in *.
    unfold retried_trace. simpl. rewrite Nat.add_0_r.
    destruct (func attempt) as [v|e] eqn:E; [done|]. simpl in Hstop.
    destruct (is_ConcurrencyError e); [|done].
    rewrite (proj2 (Z.ltb_ge _ _)) by (rewrite Hstop; [lia|done]). done.
  - destruct remaining as [|n]; [lia|]. simpl in Hall.
    apply andb_true_iff in Hall as [Hfirst Hall]. simpl.
    destruct (func attempt) as [v|e] eqn:E; [done|]. simpl in Hfirst. rewrite Hfirst.
    rewrite (proj2 (Z.ltb_lt _ _)) by lia.
    rewrite (Hsleep attempt) by lia.
    replace (attempt + Datatypes.S k)%nat with (Datatypes.S attempt + k)%nat in * by lia.
    rewrite (IH n (Datatypes.S attempt) (Some e)); [|lia|lia|done| |done].
    + unfold retried_trace. simpl.
      replace (attempt + Datatypes.S k)%nat with (Datatypes.S (attempt + k)) by lia.
      done.
    + intros i Hi. apply Hsleep. lia.
Qed.

Lemma retry_loop_refused {A} overflow (func : nat -> result A) max_retries bf :
  forall k remaining attempt last sleep_exception,
    (k < remaining)%nat ->
    Z.of_nat (attempt + k) < max_retries ->
    forallb (fun i => raises_concurrency (func i)) (seq attempt (Datatypes.S k)) = true ->
    (forall i, (attempt <= i < attempt + k)%nat -> sleep_error overflow bf i = None) ->
    sleep_error overflow bf (attempt + k)%nat = Some sleep_exception ->
    retry_loop overflow func max_retries bf remaining attempt last
    = (Raise sleep_exception, retried_trace bf attempt k).
Proof.
  induction k as [|k IH]; intros remaining attempt last e' Hrem Hlt Hall Hsleep Hrefused.
  - destruct remaining as [|n]; [lia|]. simpl in *. rewrite Nat.add_0_r in *.
    unfold retried_trace. simpl. rewrite Nat.add_0_r.
    destruct (func attempt) as [v|e] eqn:E; [done|]. simpl in Hall.
    rewrite andb_true_r in Hall. rewrite Hall.
    rewrite (proj2 (Z.ltb_lt _ _)) by lia. by rewrite Hrefused.
  - destruct remaining as [|n]; [lia|].
    change (seq attempt (Datatypes.S (Datatypes.S k)))
      with (attempt :: seq (Datatypes.S attempt) (Datatypes.S k)) in Hall.
    cbn [forallb] in Hall. apply andb_true_iff in Hall as [Hfirst Hall]. simpl.
    destruct (func attempt) as [v|e] eqn:E; [done|]. simpl in Hfirst. rewrite Hfirst.
    rewrite (proj2 (Z.ltb_lt _ _)) by lia.
    rewrite (Hsleep attempt) by lia.
    replace (attempt + Datatypes.S k)%nat with (Datatypes.S attempt + k)%nat in * by lia.
    rewrite (IH n (Datatypes.S attempt) (Some e) e'); [|lia|lia|done| |done].
    + unfold retried_trace. simpl.
      replace (attempt + Datatypes.S k)%nat with (Datatypes.S (attempt + k)) by lia.
      done.
    + intros i Hi. apply Hsleep. lia.
Qed.

(** C8, amended: [execute_with_retry] calls [func] again only after a
    ConcurrencyError, sleeping [backoff_factor * 2^attempt] before the next
    attempt; provided [time.sleep] accepts each of these waits (a retry
    needs a factor that is not negative and a wait within the platform's
    range), it returns the value of the first call that does not raise,
    lets any other exception out at once, and after [max_retries] retries
    raises the last ConcurrencyError.  A wait that [time.sleep] refuses
    ends the run at once, after the call that raised the ConcurrencyError
    and without a further call, with the [OverflowError] or the
    [ValueError] of [time.sleep]. *)
Theorem execute_with_retry_spec {A} (overflow : Q -> nat -> option string)
        (func : nat -> result A) (max_retries : Z) (backoff_factor : Q) (k : nat) :
  Z.of_nat k <= max_retries ->
  forallb (fun i => raises_concurrency (func i)) (seq 0 k) = true ->
  (forall i, (i < k)%nat -> overflow backoff_factor i = None) ->
  k = 0%nat \/ (0 <= backoff_factor)%Q ->
  let run := execute_with_retry overflow func max_retries backoff_factor in
  let trace :=
    flat_map (fun i => [Called i; Slept (backoff_factor * inject_Z (2 ^ Z.of_nat i))%Q])
             (seq 0 k)
    ++ [Called k] in
  (forall v, func k = Ok v -> run = (Ok v, trace)) /\
  (forall e, func k = Raise e -> is_ConcurrencyError e = false -> run = (Raise e, trace)) /\
  (forall e, func k = Raise e -> is_ConcurrencyError e = true ->
             Z.of_nat k = max_retries -> run = (Raise e, trace)) /\
  (forall e message,
      func k = Raise e -> is_ConcurrencyError e = true -> Z.of_nat k < max_retries ->
      overflow backoff_factor k = Some message ->
      run = (Raise (mk_exn (OtherException "OverflowError") message), trace)) /\
  (forall e,
      func k = Raise e -> is_ConcurrencyError e = true -> Z.of_nat k < max_retries ->
      overflow backoff_factor k = None -> (backoff_factor < 0)%Q ->
      run = (Raise (mk_exn (OtherException "ValueError") "sleep length must be non-negative"),
             trace)).
Proof.
  intros Hle Hall Hfit Hsign run trace. subst run trace. unfold execute_with_retry.
  change (flat_map (fun i => [Called i; Slept (backoff_factor * inject_Z (2 ^ Z.of_nat i))%Q])
                   (seq 0 k) ++ [Called k])
    with (retried_trace backoff_factor 0 k).
  assert (forall i, (0 <= i < 0 + k)%nat -> sleep_error overflow backoff_factor i = None)
    as Hsleep.
  { intros i Hi. destruct Hsign as [->|Hsign]; [lia|].
    apply sleep_error_accepted; [apply Hfit; lia|done]. }
  assert (forall r, func k = r ->
            (raises_concurrency r = true -> Z.of_nat k = max_retries) ->
            retry_loop overflow func max_retries backoff_factor
                       (Z.to_nat (max_retries + 1)) 0 None
            = (r, retried_trace backoff_factor 0 k)) as Hrun.
  { intros r <- Hstop.
    apply (retry_loop_stops overflow func max_retries backoff_factor k); simpl;
      [lia|lia|done|done|done]. }
  assert (forall e e', func k = Raise e -> is_ConcurrencyError e = true ->
            Z.of_nat k < max_retries ->
            sleep_error overflow backoff_factor k = Some e' ->
            retry_loop overflow func max_retries backoff_factor
                       (Z.to_nat (max_retries + 1)) 0 None
            = (Raise e', retried_trace backoff_factor 0 k)) as Hrefused.
  { intros e e' He Hce Hlt Hs.
    apply (retry_loop_refused overflow func max_retries backoff_factor k);
      [lia|simpl; lia| |done|done].
    rewrite seq_S, forallb_app, Hall. simpl. rewrite He. simpl. by rewrite Hce. }
  split_and!.
  - intros v Hv. by apply Hrun.
  - intros e He Hne. apply Hrun; [done|]. simpl. congruence.
  - intros e He _ Hk. by apply Hrun.
  - intros e message He Hce Hlt Ho. apply (Hrefused e); [done..|].
    by apply sleep_error_overflow.
  - intros e He Hce Hlt Ho Hneg. apply (Hrefused e); [done..|].
    by apply sleep_error_negative.
Qed.

(** C8, as stated, fails: with [backoff_factor = -1] and a callable whose
    first call raises ConcurrencyError, the wait before the first retry is
    [-1], [time.sleep] raises [ValueError], and the callable is not called
    again, although its third call would return a value. *)
Lemma negative_backoff_is_not_retried :
  let run := execute_with_retry roomy flaky 3 (-1) in
  run = (Raise (mk_exn (OtherException "ValueError") "sleep length must be non-negative"),
         [Called 0%nat]) /\
  ~ (forall v, flaky 2 = Ok v -> fst run = Ok v).
Proof.
  split; [reflexivity|]. intros H. specialize (H 7 eq_refl). discriminate H.
Qed.

(** With a negative [max_retries] the loop body never runs: [func] is not
    called and [raise last_exception] raises on [None]. *)
Lemma execute_with_retry_negative {A} overflow (func : nat -> result A)
      max_retries backoff_factor :
  max_retries < 0 ->
  execute_with_retry overflow func max_retries backoff_factor
  = (Raise (mk_exn TypeError "exceptions must derive from BaseException"), []).
Proof.
  intros H. unfold execute_with_retry.
  replace (Z.to_nat (max_retries + 1)) with O by lia. reflexivity.
Qed.

Lemma execute_with_retry_spec_witness :
  execute_with_retry roomy flaky 3 1
  = (Ok 7, [Called 0; Slept (1 * inject_Z (2 ^ 0))%Q; Called 1;
            Slept (1 * inject_Z (2 ^ 1))%Q; Called 2]).
Proof.
  refine (proj1 (execute_with_retry_spec roomy flaky 3 1 2 _ _ _ _) 7 _).
  - simpl; lia.
  - reflexivity.
  - reflexivity.
  - right. discriminate.
  - reflexivity.
Defined.

End LockProofs.

(** ** Transaction coordinator *)

Section CoordinatorProofs.
Import TwoPhaseCommit.

Lemma all_values_true (m : gmap string bool) :
  all_values m = true <-> forall p b, m !! p = Some b -> b = true.
Proof.
  unfold all_values. rewrite forallb_forall. split.
  - intros H p b Hp. apply (H (p, b)). by apply list_elem_of_In, elem_of_map_to_list.
  - intros H [p b] Hin. apply list_elem_of_In, elem_of_map_to_list in Hin. by apply (H p).
Qed.

Lemma elem_of_tasks_for c ps p obj :
  (p, obj) ∈ tasks_for c ps <-> p ∈ ps /\ _participants c !! p = Some obj.
Proof.
  unfold tasks_for. rewrite list_elem_of_In, in_flat_map. split.
  - intros (q & Hq & Hin). destruct (_participants c !! q) as [o|] eqn:E; simpl in Hin; [|done].
    destruct Hin as [[= <- <-]|[]]. by rewrite <- list_elem_of_In in Hq.
  - intros [Hp Hobj]. exists p. rewrite Hobj. split; [by apply list_elem_of_In|]. by left.
Qed.

Lemma gather_lookup f tasks p b :
  (forall q o1 o2, (q, o1) ∈ tasks -> (q, o2) ∈ tasks -> o1 = o2) ->
  gather f tasks !! p = Some b <-> exists obj, (p, obj) ∈ tasks /\ b = settle (f obj).
Proof.
  unfold gather. intros Hfun.
  assert (forall acc : gmap string bool,
             (forall q v, acc !! q = Some v -> exists o, (q, o) ∈ tasks /\ v = settle (f o)) ->
             forall ts, (forall x, x ∈ ts -> x ∈ tasks) ->
             let m := fold_left (fun results pt => <[fst pt := settle (f (snd pt))]> results)
                                ts acc in
             (forall q v, m !! q = Some v -> exists o, (q, o) ∈ tasks /\ v = settle (f o)) /\
             (forall q o, (q, o) ∈ ts -> is_Some (m !! q)) /\
             (forall q, is_Some (acc !! q) -> is_Some (m !! q))) as H.
  { intros acc Hacc ts. revert acc Hacc.
    induction ts as [|[q o] ts IH]; intros acc Hacc Hsub; simpl.
    - split_and!; [done| |done]. intros q o Hin. by apply elem_of_nil in Hin.
    - destruct (IH (<[q := settle (f o)]> acc)) as (I1 & I2 & I3).
      + intros q' v. destruct (decide (q = q')) as [->|Hne].
        * rewrite lookup_insert_eq. intros [= <-]. exists o. split; [|done].
          apply Hsub. set_solver.
        * rewrite lookup_insert_ne by done. apply Hacc.
      + intros x Hx. apply Hsub. set_solver.
      + split_and!; [done| |].
        * intros q' o' Hin. apply elem_of_cons in Hin as [[= -> ->]|Hin].
          -- apply I3. rewrite lookup_insert_eq. by eexists.
          -- by eapply I2.
        * intros q' Hq'. apply I3. destruct (decide (q = q')) as [->|Hne].
          -- rewrite lookup_insert_eq. by eexists.
          -- by rewrite lookup_insert_ne. }
  destruct (H ∅ ltac:(intros q v; by rewrite lookup_empty) tasks ltac:(done))
    as (I1 & I2 & _).
  split.
  - apply I1.
  - intros (obj & Hin & ->). destruct (I2 _ _ Hin) as [v Hv]. rewrite Hv.
    destruct (I1 _ _ Hv) as (o & Ho & ->). by rewrite (Hfun _ _ _ Hin Ho).
Qed.

Lemma tasks_for_functional c ps q o1 o2 :
  (q, o1) ∈ tasks_for c ps -> (q, o2) ∈ tasks_for c ps -> o1 = o2.
Proof.
  rewrite !elem_of_tasks_for. intros [_ H1] [_ H2]. congruence.
Qed.

Lemma phase_all_true f c ps :
  all_values (gather f (tasks_for c ps)) = true <->
  forall p obj, p ∈ ps -> _participants c !! p = Some obj -> settle (f obj) = true.
Proof.
  rewrite all_values_true. split.
  - intros H p obj Hp Hobj. apply (H p).
    apply gather_lookup; [apply tasks_for_functional|].
    exists obj. split; [|done]. by apply elem_of_tasks_for.
  - intros H p b Hb. apply gather_lookup in Hb as (obj & Hin & ->);
      [|apply tasks_for_functional].
    apply elem_of_tasks_for in Hin as [Hp Hobj]. by eapply H.
Qed.

Lemma update_status_lookup op s c o :
  _operations c !! op = Some o ->
  get_operation_status op (_update_operation_status op s c) = Some s.
Proof.
  intros H. unfold get_operation_status, _update_operation_status. rewrite H. simpl.
  by rewrite lookup_insert_eq.
Qed.

Lemma phase_some_false f c ps :
  (exists p obj, p ∈ ps /\ _participants c !! p = Some obj /\ settle (f obj) = false) ->
  all_values (gather f (tasks_for c ps)) = false.
Proof.
  intros (p & obj & Hp & Hobj & Hf). apply not_true_is_false. intros H.
  rewrite phase_all_true in H. specialize (H p obj Hp Hobj). congruence.
Qed.

Lemma map_map_fst {B} (g : string -> B) (l : list (string * DistributedParticipant)) :
  map (fun pt => g (fst pt)) l = map g (map fst l).
Proof. by rewrite map_map. Qed.

(** C4: when every participant the request names succeeds at prepare and
    at commit, the result reports success with status COMMITTED, which is
    also the status recorded for the operation; when some participant
    fails prepare, the abort phase goes to every participant, the status is
    ABORTED, and no commit call is issued. *)
Theorem two_phase_commit_outcomes (now : Q) (request : CoordinationRequest) (c : t) :
  let run := execute_transaction now request c in
  let res := fst (fst run) in
  let calls := snd (fst run) in
  ((forall p obj, p ∈ participants request -> _participants c !! p = Some obj ->
                  prepared request obj = true /\ committed request obj = true) ->
   status res = COMMITTED /\ success res = true /\
   get_operation_status (operation_id request) (snd run) = Some COMMITTED) /\
  ((exists p obj, p ∈ participants request /\ _participants c !! p = Some obj /\
                  prepared request obj = false) ->
   status res = ABORTED /\ success res = false /\
   get_operation_status (operation_id request) (snd run) = Some ABORTED /\
   calls = map PrepareCall (named c request) ++ map AbortCall (named c request) /\
   forall p, CommitCall p ∉ calls).
Proof.
  intros run res calls. subst res calls run. unfold execute_transaction.
  set (c0 := {| _coordinator_id := _coordinator_id c;
                _operations := _ ; _participants := _participants c |}).
  unfold _prepare_phase, _commit_phase, _abort_phase. split.
  - intros Hall.
    rewrite (proj2 (phase_all_true _ c0 _)) by (intros p obj Hp Ho; by apply (Hall p obj)).
    rewrite (proj2 (phase_all_true _ c0 _)) by (intros p obj Hp Ho; by apply (Hall p obj)).
    simpl. split_and!; [done..|].
    eapply update_status_lookup. simpl. apply lookup_insert_eq.
  - intros Hfail. rewrite phase_some_false by exact Hfail.
    simpl. split_and!; [done|done| | |].
    + eapply update_status_lookup. simpl. apply lookup_insert_eq.
    + unfold named. by rewrite !map_map_fst.
    + intros p Hin. apply elem_of_app in Hin as [Hin|Hin];
        apply list_elem_of_fmap in Hin as (x & Hx & _); done.
Qed.

(** C3, amended: when every participant prepares and some commit call
    fails or times out, the final status is ABORTED and the abort phase is
    then broadcast to every participant of the request, those that
    committed successfully included; no other call is issued. *)
Theorem commit_failure_aborts_everyone (now : Q) (request : CoordinationRequest) (c : t) :
  (forall p obj, p ∈ participants request -> _participants c !! p = Some obj ->
                 prepared request obj = true) ->
  (exists p obj, p ∈ participants request /\ _participants c !! p = Some obj /\
                 committed request obj = false) ->
  let run := execute_transaction now request c in
  status (fst (fst run)) = ABORTED /\ success (fst (fst run)) = false /\
  get_operation_status (operation_id request) (snd run) = Some ABORTED /\
  snd (fst run) = map PrepareCall (named c request) ++ map CommitCall (named c request)
                  ++ map AbortCall (named c request).
Proof.
  intros Hprep Hfail run. subst run. unfold execute_transaction.
  set (c0 := {| _coordinator_id := _coordinator_id c;
                _operations := _ ; _participants := _participants c |}).
  unfold _prepare_phase, _commit_phase, _abort_phase.
  rewrite (proj2 (phase_all_true _ c0 _)) by exact Hprep.
  rewrite phase_some_false by exact Hfail.
  simpl. split_and!; [done|done| |].
  - eapply update_status_lookup. simpl. apply lookup_insert_eq.
  - unfold named. by rewrite !map_map_fst.
Qed.

Lemma two_nodes_lookup second p obj :
  _participants (two_nodes second) !! p = Some obj ->
  (p = "p1" /\ obj = reliable) \/ (p = "p2" /\ obj = second).
Proof.
  unfold two_nodes, register_participant. simpl.
  destruct (decide (p = "p2")) as [->|H2].
  - rewrite lookup_insert_eq. intros [= <-]. by right.
  - rewrite lookup_insert_ne by done. destruct (decide (p = "p1")) as [->|H1].
    + rewrite lookup_insert_eq. intros [= <-]. by left.
    + rewrite lookup_insert_ne by done. by rewrite lookup_empty.
Qed.

(** C3, as stated, fails: with two participants that both prepare, "p1"
    committing and "p2" timing out at commit, "p1" receives an abort call
    after its successful commit. *)
Lemma abort_sent_to_committed_participant :
  let c := two_nodes fails_commit in
  let run := execute_transaction 0 transfer c in
  ~ ((forall p obj, p ∈ participants transfer -> _participants c !! p = Some obj ->
                    prepared transfer obj = true) ->
     (exists p obj, p ∈ participants transfer /\ _participants c !! p = Some obj /\
                    committed transfer obj = false) ->
     status (fst (fst run)) = ABORTED /\
     forall p obj, _participants c !! p = Some obj -> committed transfer obj = true ->
                   CommitCall p ∈ snd (fst run) -> AbortCall p ∉ snd (fst run)).
Proof.
  intros c run Hclaim.
  destruct Hclaim as [_ Hno].
  - intros p obj _ Hobj. by destruct (two_nodes_lookup _ _ _ Hobj) as [[_ ->]|[_ ->]].
  - exists "p2", fails_commit. split_and!; [set_solver|done|done].
  - apply (Hno "p1" reliable); [done|done| |].
    + vm_compute. set_solver.
    + vm_compute. set_solver.
Qed.

Lemma commit_failure_aborts_everyone_witness :
  snd (fst (execute_transaction 0 transfer (two_nodes fails_commit)))
  = [PrepareCall "p1"; PrepareCall "p2"; CommitCall "p1"; CommitCall "p2";
     AbortCall "p1"; AbortCall "p2"].
Proof.
  refine (proj2 (proj2 (proj2
            (commit_failure_aborts_everyone 0 transfer (two_nodes fails_commit) _ _)))).
  - intros p obj _ Hobj. by destruct (two_nodes_lookup _ _ _ Hobj) as [[_ ->]|[_ ->]].
  - exists "p2", fails_commit. split_and!; [set_solver|done|done].
Defined.

Lemma two_phase_commit_outcomes_witness :
  status (fst (fst (execute_transaction 0 transfer (two_nodes reliable)))) = COMMITTED /\
  status (fst (fst (execute_transaction 0 transfer (two_nodes fails_prepare)))) = ABORTED.
Proof.
  split.
  - refine (proj1 (proj1 (two_phase_commit_outcomes 0 transfer (two_nodes reliable)) _)).
    intros p obj _ Hobj. by destruct (two_nodes_lookup _ _ _ Hobj) as [[_ ->]|[_ ->]].
  - refine (proj1 (proj2 (two_phase_commit_outcomes 0 transfer (two_nodes fails_prepare)) _)).
    exists "p2", fails_prepare. split_and!; [set_solver|done|done].
Defined.

End CoordinatorProofs.

(** ** Leader election *)

Section ElectionProofs.
Import LeaderElection.

Lemma send_election_messages_silent nodes :
  forall node b, _send_election_messages nodes !! node = Some b -> b = false.
Proof.
  unfold _send_election_messages.
  assert (forall (acc : gmap string bool),
             (forall node b, acc !! node = Some b -> b = false) ->
             forall node b,
               fold_left (fun responses n => <[n := false]> responses) nodes acc !! node
               = Some b -> b = false) as H.
  { induction nodes as [|n nodes IH]; intros acc Hacc node b; simpl; [apply Hacc|].
    apply IH. intros node' b'. destruct (decide (n = node')) as [->|Hne].
    - rewrite lookup_insert_eq. by intros [= <-].
    - rewrite lookup_insert_ne by done. apply Hacc. }
  apply H. intros node b. by rewrite lookup_empty.
Qed.

Lemma no_response nodes : any_values (_send_election_messages nodes) = false.
Proof.
  unfold any_values. apply not_true_is_false. intros H.
  apply existsb_exists in H as ([node b] & Hin & Hb). simpl in Hb. subst b.
  apply list_elem_of_In, elem_of_map_to_list in Hin.
  by apply send_election_messages_silent in Hin.
Qed.

Lemma start_election_idle le :
  _election_in_progress le = false ->
  start_election le
  = (_node_id le,
     {| _node_id := _node_id le; _all_nodes := _all_nodes le;
        _current_leader := Some (_node_id le); _election_in_progress := false |}).
Proof.
  intros Hidle. unfold start_election. rewrite Hidle.
  destruct (higher_priority_nodes (with_progress true le)) as [|n ns]; [done|].
  by rewrite no_response.
Qed.

Lemma after_rounds_idle n node_id all_nodes :
  _election_in_progress (after_rounds n node_id all_nodes) = false /\
  _node_id (after_rounds n node_id all_nodes) = node_id.
Proof.
  induction n as [|n [IH1 IH2]]; [done|].
  unfold after_rounds in *. simpl. by rewrite start_election_idle.
Qed.

(** C10: for every node id and every node set, on a node as built or after
    any number of earlier rounds, [start_election] returns the local node
    id, and afterwards [is_leader] is true and [get_current_leader] is the
    local node id, however many nodes of the set have a higher id: the
    stubbed message exchange never reports a response. *)
Theorem start_election_elects_self (node_id : string) (all_nodes : list string) (n : nat) :
  let le := after_rounds n node_id all_nodes in
  fst (start_election le) = node_id /\
  is_leader (snd (start_election le)) = true /\
  get_current_leader (snd (start_election le)) = Some node_id.
Proof.
  intros le. destruct (after_rounds_idle n node_id all_nodes) as [Hidle Hid].
  fold le in Hidle, Hid. rewrite (start_election_idle le Hidle). simpl.
  unfold is_leader, get_current_leader. simpl. rewrite Hid.
  split_and!; [done| |done]. by apply bool_decide_eq_true.
Qed.
End ElectionProofs.

(** ** Enrollment engine *)


Section EnrollmentProofs.
Import EnrollmentService.

Lemma with_cm_same st : with_cm (_concurrency_manager st) st = st.
Proof. by destruct st. Qed.

Lemma lock_free_runs_body {A} w section_id (body : t -> result A * t) st :
  ConcurrencyManager._locks (_concurrency_manager st) !! lock_key section_id = None ->
  exists cm1 cm2,
    ConcurrencyManager.lock _concurrency_manager with_cm
      (uuid w) (now w) (lock_key section_id) ConcurrencyManager.WRITE
      (holder_key w) None body st
    = (fst (body (with_cm cm1 st)), with_cm cm2 (snd (body (with_cm cm1 st)))).
Proof.
  intros Hfree.
  apply (lock_on_free_resource _concurrency_manager with_cm with_cm_same); done.
Qed.

(** C9: in every state in which the student is confirmed in the section,
    [enroll_student] returns success with status confirmed, publishes
    nothing, and leaves the whole service state (memberships, waitlists,
    lock manager) as it was. *)
Theorem enroll_confirmed_is_idempotent (w : env) (student : Student.t)
        (section : Section.t) (st : t) :
  _is_enrolled (Student.id student) (Section.id section) st = true ->
  enroll_student w student section st
  = (Ok {| success := true; status := CONFIRMED;
           message := "Student already enrolled"; waitlist_position := None |},
     [], st).
Proof. intros H. unfold enroll_student. by rewrite H. Qed.

Lemma is_enrolled_spec student_id section_id st :
  _is_enrolled student_id section_id st = true <->
  recorded_status student_id section_id st = Some CONFIRMED.
Proof.
  unfold _is_enrolled, recorded_status.
  destruct (_enrollments st !! student_id) as [sections|]; simpl; [|done].
  destruct (sections !! section_id) as [s|]; [|done].
  rewrite bool_decide_eq_true. split; congruence.
Qed.

Lemma recorded_status_enroll_direct s c student_id section_id st :
  recorded_status s c (_enroll_student_direct student_id section_id st)
  = if decide (s = student_id /\ c = section_id) then Some CONFIRMED
    else recorded_status s c st.
Proof.
  unfold recorded_status, _enroll_student_direct. simpl.
  destruct (decide (s = student_id)) as [->|Hs].
  - rewrite lookup_insert_eq. simpl. destruct (decide (c = section_id)) as [->|Hc].
    + rewrite lookup_insert_eq. by rewrite decide_True.
    + rewrite lookup_insert_ne by done. rewrite decide_False by naive_solver.
      destruct (_enrollments st !! student_id); simpl; [done|]. by rewrite lookup_empty.
  - rewrite lookup_insert_ne by done. by rewrite decide_False by naive_solver.
Qed.

Lemma without_record_lookup s c student_id section_id e :
  without_record student_id section_id e !! s ≫= (fun sections => sections !! c)
  = if decide (s = student_id /\ c = section_id) then None
    else e !! s ≫= (fun sections => sections !! c).
Proof.
  unfold without_record. destruct (e !! student_id) as [sections|] eqn:E.
  - destruct (decide (delete section_id sections = ∅)) as [Hemp|Hne].
    + destruct (decide (s = student_id)) as [->|Hs].
      * rewrite lookup_delete_eq. simpl. case_decide; [done|].
        rewrite E. simpl.
        assert (delete section_id sections !! c = None) as Hc by (by rewrite Hemp).
        rewrite lookup_delete_ne in Hc by naive_solver. done.
      * rewrite lookup_delete_ne by done. by rewrite decide_False by naive_solver.
    + destruct (decide (s = student_id)) as [->|Hs].
      * rewrite lookup_insert_eq. simpl. rewrite E. simpl.
        destruct (decide (c = section_id)) as [->|Hc].
        -- rewrite decide_True by done. apply lookup_delete_eq.
        -- rewrite decide_False by naive_solver. by rewrite lookup_delete_ne.
      * rewrite lookup_insert_ne by done. by rewrite decide_False by naive_solver.
  - case_decide as Hd; [|done]. destruct Hd as [-> ->]. by rewrite E.
Qed.

(** C6, amended: when the section has a non-empty waitlist, the dropped
    student is confirmed and is not on that waitlist, and the section's
    enrollment lock is free, [drop_student] succeeds, the head of the
    waitlist becomes confirmed, the waitlist loses exactly its head, the
    dropped student's record is gone, and no other record and no other
    waitlist changes. *)
Theorem drop_promotes_waitlist_head (w : env) (student_id section_id : string) (st : t)
        (next : string) (rest : list string) :
  _is_enrolled student_id section_id st = true ->
  _waitlists st !! section_id = Some (next :: rest) ->
  student_id ∉ next :: rest ->
  ConcurrencyManager._locks (_concurrency_manager st) !! lock_key section_id = None ->
  let run := drop_student w student_id section_id st in
  let st' := snd run in
  fst run = (Ok {| success := true; status := DROPPED;
                   message := "Student dropped successfully";
                   waitlist_position := None |},
             [ {| ev_student_id := next; ev_section_id := section_id;
                  ev_status := "enrolled_from_waitlist"; ev_waitlist_position := None |};
               {| ev_student_id := student_id; ev_section_id := section_id;
                  ev_status := "dropped"; ev_waitlist_position := None |} ]) /\
  recorded_status next section_id st' = Some CONFIRMED /\
  recorded_status student_id section_id st' = None /\
  waitlist section_id st' = rest /\
  (forall s c, (s, c) <> (student_id, section_id) -> (s, c) <> (next, section_id) ->
               recorded_status s c st' = recorded_status s c st) /\
  (forall c, c <> section_id -> waitlist c st' = waitlist c st).
Proof.
  intros Henr Hwl Hnotin Hfree run st'. subst st' run.
  unfold drop_student. rewrite Henr. simpl negb. cbv iota.
  match goal with
  | |- context [ConcurrencyManager.lock _ _ _ _ _ _ _ _ ?b st] => set (body := b)
  end.
  destruct (lock_free_runs_body w section_id body st Hfree) as (cm1 & cm2 & Hlock).
  rewrite Hlock. clear Hlock.
  assert (body (with_cm cm1 st)
          = (Ok ({| success := true; status := DROPPED;
                    message := "Student dropped successfully";
                    waitlist_position := None |},
                 [ {| ev_student_id := next; ev_section_id := section_id;
                      ev_status := "enrolled_from_waitlist";
                      ev_waitlist_position := None |};
                   {| ev_student_id := student_id; ev_section_id := section_id;
                      ev_status := "dropped"; ev_waitlist_position := None |} ]),
             _enroll_student_direct next section_id
               (with_waitlists (<[section_id := rest]> (_waitlists st))
                  (with_enrollments
                     (without_record student_id section_id (_enrollments st))
                     (with_cm cm1 st))))) as ->.
  { unfold body. simpl.
    assert (match _enrollments st !! student_id with
            | Some sections =>
                if decide (delete section_id sections = ∅)
                then with_enrollments (delete student_id (_enrollments st)) (with_cm cm1 st)
                else with_enrollments (<[student_id := delete section_id sections]>
                                         (_enrollments st)) (with_cm cm1 st)
            | None => with_cm cm1 st
            end
            = with_enrollments (without_record student_id section_id (_enrollments st))
                               (with_cm cm1 st)) as ->.
    { unfold without_record. destruct (_enrollments st !! student_id) as [sections|] eqn:E.
      - by destruct (decide _).
      - done. }
    simpl. rewrite Hwl. rewrite decide_False by done. simpl. rewrite Hwl. done. }
  cbn [fst snd]. split; [done|].
  assert (student_id <> next) as Hne by set_solver.
  assert (forall s c X, recorded_status s c (with_cm cm2 X) = recorded_status s c X)
    as Hrec by done.
  assert (forall c X, waitlist c (with_cm cm2 X) = waitlist c X) as Hwait by done.
  rewrite !Hwait. setoid_rewrite Hrec. setoid_rewrite Hwait.
  setoid_rewrite recorded_status_enroll_direct.
  assert (forall s c,
             recorded_status s c
               (with_waitlists (<[section_id := rest]> (_waitlists st))
                  (with_enrollments (without_record student_id section_id (_enrollments st))
                     (with_cm cm1 st)))
             = if decide (s = student_id /\ c = section_id) then None
               else recorded_status s c st) as Hdrop.
  { intros s c. unfold recorded_status. simpl. apply without_record_lookup. }
  split_and!.
  - by rewrite decide_True.
  - rewrite decide_False by naive_solver. rewrite Hdrop. by rewrite decide_True.
  - unfold waitlist. simpl. by rewrite lookup_insert_eq.
  - intros s c H1 H2. rewrite Hdrop. rewrite !decide_False; [done| |]; intros [-> ->]; done.
  - intros c Hc. unfold waitlist, _enroll_student_direct. simpl.
    by rewrite lookup_insert_ne.
Qed.

Lemma enroll_confirmed_is_idempotent_witness :
  enroll_student call_3 alice seminar bob_waiting
  = (Ok {| success := true; status := CONFIRMED;
           message := "Student already enrolled"; waitlist_position := None |},
     [], bob_waiting).
Proof.
  apply enroll_confirmed_is_idempotent. vm_compute. reflexivity.
Defined.

Lemma drop_promotes_waitlist_head_witness :
  recorded_status "B" "S" (snd (drop_student call_3 "A" "S" bob_waiting)) = Some CONFIRMED /\
  waitlist "S" (snd (drop_student call_3 "A" "S" bob_waiting)) = [].
Proof.
  pose proof (drop_promotes_waitlist_head call_3 "A" "S" bob_waiting "B" []) as H.
  destruct H as (_ & Hb & _ & Hw & _).
  - vm_compute. reflexivity.
  - vm_compute. reflexivity.
  - intros Hin. apply list_elem_of_singleton in Hin. discriminate Hin.
  - vm_compute. reflexivity.
  - split; [exact Hb|exact Hw].
Defined.

(** C6, as stated, fails: Alice is confirmed in the one-seat section, which
    is therefore full, and the waitlist is Alice, Bob.  Dropping Alice
    removes her own waitlist entry first and promotes Bob: the head of the
    waitlist is not confirmed afterwards and the waitlist shrinks by two. *)
Lemma drop_of_listed_student_skips_head :
  let st := alice_listed_and_confirmed in
  let st' := snd (drop_student call_4 "A" "S" st) in
  _is_enrolled "A" "S" st = true /\
  get_section_enrollment_count "S" st = Section.capacity seminar /\
  waitlist "S" st = ["A"; "B"] /\
  recorded_status "A" "S" st' <> Some CONFIRMED /\
  recorded_status "B" "S" st' = Some CONFIRMED /\
  waitlist "S" st' = [] /\
  length (waitlist "S" st') <> (length (waitlist "S" st) - 1)%nat.
Proof. split_and!; by vm_compute. Qed.

(** Whatever the service has recorded so far, a student who is not yet
    confirmed and passes the policies is confirmed as long as the section
    object itself reads as below capacity; the waitlists are not touched. *)
Lemma enroll_confirms_while_section_reads_open w student section st :
  _is_enrolled (Student.id student) (Section.id section) st = false ->
  fst (_evaluate_policies student section st) = true ->
  Section.enrolled_count section < Section.capacity section ->
  ConcurrencyManager._locks (_concurrency_manager st) !! lock_key (Section.id section) = None ->
  exists st',
    enroll_student w student section st
    = (Ok {| success := true; status := CONFIRMED;
             message := "Student enrolled successfully"; waitlist_position := None |},
       [ {| ev_student_id := Student.id student; ev_section_id := Section.id section;
            ev_status := "enrolled"; ev_waitlist_position := None |} ],
       st') /\
    recorded_status (Student.id student) (Section.id section) st' = Some CONFIRMED /\
    _waitlists st' = _waitlists st.
Proof.
  intros Hnot Hpol Hopen Hfree. unfold enroll_student. rewrite Hnot.
  destruct (_evaluate_policies student section st) as [[] msg]; [|done].
  match goal with
  | |- context [ConcurrencyManager.lock _ _ _ _ _ _ _ _ ?f st] => set (body := f)
  end.
  destruct (lock_free_runs_body w (Section.id section) body st Hfree) as (cm1 & cm2 & ->).
  unfold body. rewrite (proj2 (Z.ltb_lt _ _) Hopen). cbn [fst snd].
  eexists. split; [reflexivity|]. split; [|done].
  change (recorded_status (Student.id student) (Section.id section)
            (_enroll_student_direct (Student.id student) (Section.id section)
               (with_cm cm1 st)) = Some CONFIRMED).
  rewrite recorded_status_enroll_direct. by rewrite decide_True.
Qed.

(** C2, on the code: [enroll_student] compares the section's own
    [enrolled_count], which the service never updates, with the capacity.
    Alice, Bob, then Carol enrolling in the empty two-seat section are all
    three confirmed and nobody is waitlisted. *)
Theorem enroll_overfills_section :
  map returned_status
      [ fst (fst (enroll_student call_1 alice workshop empty_service));
        fst (fst (enroll_student call_2 bob workshop after_alice));
        fst (fst (enroll_student call_3 carol workshop after_bob)) ]
  = [ Some CONFIRMED; Some CONFIRMED; Some CONFIRMED ] /\
  Section.capacity workshop = 2 /\
  get_section_enrollment_count "W" after_carol = 3 /\
  waitlist "W" after_carol = [] /\
  get_waitlist_position "C" "W" after_carol = None.
Proof. split_and!; by vm_compute. Qed.

(** [drop_student] answers a student who is not confirmed with a failure
    and changes nothing, whether or not she is on the waitlist. *)
Lemma drop_needs_confirmed w student_id section_id st :
  _is_enrolled student_id section_id st = false ->
  drop_student w student_id section_id st
  = (Ok {| success := false; status := DROPPED;
           message := "Student not enrolled in this section";
           waitlist_position := None |},
     [], st).
Proof. intros H. unfold drop_student. by rewrite H. Qed.

(** C5, on the code: [drop_student] first asks [_is_enrolled], which is
    true of confirmed students only, so dropping a student who is on the
    waitlist fails and leaves her on the waitlist. *)
Theorem drop_rejects_waitlisted_student :
  waitlist "S" alice_waiting = ["A"] /\
  drop_student call_2 "A" "S" alice_waiting
  = (Ok {| success := false; status := DROPPED;
           message := "Student not enrolled in this section";
           waitlist_position := None |},
     [], alice_waiting).
Proof. split; [by vm_compute|]. unfold drop_student. reflexivity. Qed.

End EnrollmentProofs.

(** ** Scheduling engine *)

Section SchedulerProofs.
Import SchedulerService.

Lemma scheduler_with_cm_same st : with_cm (_concurrency_manager st) st = st.
Proof. by destruct st. Qed.

Lemma room_conflicts_nonempty request room st a b :
  a ∈ time_slots request -> b ∈ get_room_schedule (Room.id room) st ->
  overlaps_with a b = true ->
  room_conflicts request room st <> [].
Proof.
  unfold room_conflicts, get_room_schedule. intros Ha Hb Hov Hnil.
  assert (In ("Room " +:+ Room.room_number room +:+ " is already booked at "
              +:+ pretty (start_time a))
             (room_conflicts request room st)) as Hin.
  { unfold room_conflicts. apply in_flat_map. exists a.
    split; [by apply list_elem_of_In|].
    apply in_flat_map. exists b. split; [by apply list_elem_of_In|].
    rewrite Hov. by left. }
  unfold room_conflicts in Hin. by rewrite Hnil in Hin.
Qed.

(** The rejection half of C7 holds: a request with a slot that overlaps a
    slot in the ledger of the room it would get is answered with
    [success = false] and a non-empty conflicts list, and neither the
    schedule records nor the ledgers change. *)
Lemma overlapping_request_is_rejected w request st best others a b :
  ConcurrencyManager._locks (_concurrency_manager st) !! lock_key (section_id request) = None ->
  _find_suitable_rooms request st = best :: others ->
  a ∈ time_slots request -> b ∈ get_room_schedule (Room.id best) st ->
  overlaps_with a b = true ->
  exists res st',
    schedule_section w request st = (Ok res, st') /\
    success res = false /\ conflicts res <> [] /\
    _schedules st' = _schedules st /\ _room_assignments st' = _room_assignments st.
Proof.
  intros Hfree Hbest Ha Hb Hov. unfold schedule_section.
  match goal with
  | |- context [ConcurrencyManager.lock _ _ _ _ _ _ _ _ ?f st] => set (body := f)
  end.
  destruct (lock_on_free_resource _concurrency_manager with_cm scheduler_with_cm_same
              (lock_uuid w) (now w) (lock_key (section_id request))
              ConcurrencyManager.WRITE (holder_key w) None body st Hfree)
    as (cm1 & cm2 & ->).
  pose proof (room_conflicts_nonempty request best st a b Ha Hb Hov) as Hne.
  assert (exists c cs, _check_scheduling_conflicts request best (with_cm cm1 st) = c :: cs)
    as (c & cs & Hcs).
  { unfold _check_scheduling_conflicts.
    change (room_conflicts request best (with_cm cm1 st))
      with (room_conflicts request best st).
    destruct (room_conflicts request best st) as [|c cs]; [done|]. by eexists _, _. }
  assert (body (with_cm cm1 st)
          = (Ok {| success := false; schedule_id := None; assigned_room := None;
                   assigned_times := []; conflicts := c :: cs;
                   message := "Scheduling conflicts detected" |}, with_cm cm1 st)) as ->.
  { unfold body.
    change (_find_suitable_rooms request (with_cm cm1 st))
      with (_find_suitable_rooms request st).
    rewrite Hbest. by rewrite Hcs. }
  simpl. by eexists _, _.
Qed.

(** C7, on the code: [cancel_schedule] does not look at the status of the
    schedule it cancels.  After "sched-1" is cancelled and "sched-2" takes
    the same slot of the same room, cancelling "sched-1" once more removes
    that slot from the room's ledger, and "sched-3" is then accepted for it:
    two approved schedules hold one room at the same time. *)
Theorem repeated_cancel_breaks_non_overlap :
  fst (schedule_section (draw "lock-3" "sched-3") (ask "C") (run (take 4 cancel_twice) campus))
  = Ok {| success := true; schedule_id := Some "sched-3";
          assigned_room := Some "room-1"; assigned_times := [monday_9];
          conflicts := []; message := "Section scheduled successfully" |} /\
  ~ non_overlapping (run cancel_twice campus).
Proof.
  split; [by vm_compute|].
  intros H.
  assert (overlaps_with monday_9 monday_9 = false) as Hov; [|by vm_compute in Hov].
  eapply (H "sched-2" "sched-3"); [done|by vm_compute|by vm_compute| | | | |].
  - simpl. discriminate.
  - simpl. discriminate.
  - reflexivity.
  - simpl. set_solver.
  - simpl. set_solver.
Qed.

End SchedulerProofs.

(** ** Lock manager: compatibility, release, versions, retries, expiry *)

Section LockManagerProofs.
Import ConcurrencyManager.

Lemma type_held_false r ty cm :
  type_held r ty cm = false <->
  forall l i, _lock_holders cm !! l = Some i -> resource_id i = r -> lock_type i <> ty.
Proof.
  unfold type_held. split.
  - intros H l i Hl Hr Hty.
    assert (existsb (fun p : string * LockInfo =>
                       bool_decide (resource_id (snd p) = r)
                       && bool_decide (lock_type (snd p) = ty))
                    (map_to_list (_lock_holders cm)) = true) as Ht; [|congruence].
    apply existsb_exists. exists (l, i). split.
    + by apply list_elem_of_In, elem_of_map_to_list.
    + simpl. by rewrite !bool_decide_eq_true_2.
  - intros H. apply not_true_is_false. intros Ht.
    apply existsb_exists in Ht as ([l i] & Hin & Hp).
    apply list_elem_of_In, elem_of_map_to_list in Hin. simpl in Hp.
    apply andb_true_iff in Hp as [H1%bool_decide_eq_true H2%bool_decide_eq_true].
    by apply (H l i).
Qed.

Lemma same_holder_scan_spec holders h ids :
  (forall l, l ∈ ids -> is_Some (holders !! l)) ->
  exists b, same_holder_scan holders h ids = Ok b /\
            (b = true <-> exists l i, l ∈ ids /\ holders !! l = Some i /\ holder_id i = h).
Proof.
  induction ids as [|l ids IH]; intros Hrec; simpl.
  - exists false. split; [done|]. split; [done|]. intros (l & i & Hin & _).
    by apply elem_of_nil in Hin.
  - destruct (Hrec l) as [i Hi]; [set_solver|]. rewrite Hi.
    destruct (decide (holder_id i = h)) as [Hh|Hh].
    + exists true. split; [done|]. split; [|done]. intros _. exists l, i. set_solver.
    + destruct IH as (b & Hb & Hiff); [intros; apply Hrec; set_solver|].
      exists b. split; [done|]. rewrite Hiff. split.
      * intros (l' & i' & Hin & Hl' & Hh'). exists l', i'. set_solver.
      * intros (l' & i' & Hin & Hl' & Hh'). apply elem_of_cons in Hin as [->|Hin].
        -- congruence.
        -- by exists l', i'.
Qed.

Lemma any_values_true_iff e :
  any_values e = false <-> forall ty, set_at e ty = ∅.
Proof.
  split; [apply any_values_false|].
  intros H. unfold any_values. apply not_true_is_false. intros Ht.
  apply existsb_exists in Ht as ([ty s] & Hin & Hp).
  apply list_elem_of_In, elem_of_map_to_list in Hin. simpl in Hp.
  apply negb_true_iff, bool_decide_eq_false in Hp. apply Hp.
  specialize (H ty). unfold set_at in H. by rewrite Hin in H.
Qed.

(** What [_can_acquire_lock] answers on a well-formed table. *)
Lemma can_acquire_compatible r ty h cm :
  well_formed cm ->
  fst (_can_acquire_lock r ty h cm) = Ok (compatible r ty h cm).
Proof.
  intros ([HI1 HI2] & Htidy & _). unfold _can_acquire_lock.
  destruct (locks_getitem r (_locks cm)) as [existing locks'] eqn:E.
  destruct (locks_getitem_spec _ _ _ _ E) as (_ & Hex & _).
  assert (forall ty', set_at existing ty' = ids_at (_locks cm) r ty') as Hset
    by (intros; by rewrite Hex).
  destruct (same_holder_scan_spec (_lock_holders cm) h (listed_ids existing))
    as (b & -> & Hb).
  { intros l (ty' & Hl)%elem_of_listed_ids. rewrite Hset in Hl.
    destruct (HI1 _ _ _ Hl) as (i & -> & _). by eexists. }
  assert (b = negb (holds_none r h cm)) as ->.
  { destruct (holds_none r h cm) eqn:Hn; simpl.
    - apply not_true_is_false. intros Ht. apply Hb in Ht as (l & i & Hin & Hl & Hh).
      apply elem_of_listed_ids in Hin as (ty' & Hin). rewrite Hset in Hin.
      destruct (HI1 _ _ _ Hin) as (i' & Hl' & Hr & _).
      assert (i' = i) as -> by congruence.
      by apply (holds_none_spec _ _ _ Hn l i).
    - apply Hb. destruct (holds_none_false _ _ _ Hn) as (l & i & Hl & Hr & Hh).
      exists l, i. split_and!; [|done..]. apply elem_of_listed_ids.
      exists (lock_type i). rewrite Hset, <- Hr. by apply HI2. }
  unfold compatible.
  assert (forall ty', (forall s, existing !! ty' = Some s -> s <> ∅)) as Hne.
  { intros ty' s Hs. rewrite Hex in Hs.
    destruct (_locks cm !! r) as [e0|] eqn:Er; simpl in Hs.
    - by apply (Htidy r e0 Er) in Hs.
    - by rewrite lookup_empty in Hs. }
  assert (forall ty', key_in ty' existing = negb (negb (type_held r ty' cm))) as Hkey.
  { intros ty'. rewrite negb_involutive. unfold key_in.
    destruct (type_held r ty' cm) eqn:Hheld.
    - apply bool_decide_eq_true. destruct (existing !! ty') eqn:Ek; [by eexists|].
      exfalso. apply not_false_iff_true in Hheld. apply Hheld. apply type_held_false.
      intros l i Hl Hr Hty. apply HI2 in Hl. rewrite Hr, Hty, <- Hset in Hl.
      unfold set_at in Hl. rewrite Ek in Hl. set_solver.
    - apply bool_decide_eq_false. intros [s Hs].
      assert (exists l, l ∈ s) as [l Hl].
      { apply set_choose_L. by apply (Hne ty'). }
      assert (l ∈ ids_at (_locks cm) r ty') as Hl'.
      { rewrite <- Hset. unfold set_at. by rewrite Hs. }
      destruct (HI1 _ _ _ Hl') as (i & Hi & Hr & Hty).
      rewrite type_held_false in Hheld. by apply (Hheld l i). }
  assert (any_values existing
          = negb (negb (type_held r READ cm) && negb (type_held r WRITE cm)
                  && negb (type_held r EXCLUSIVE cm))) as Hany.
  { destruct (any_values existing) eqn:Ha.
    - symmetry. apply negb_true_iff. apply not_true_is_false. intros Hn.
      apply andb_true_iff in Hn as [Hn H3]. apply andb_true_iff in Hn as [H1 H2].
      apply negb_true_iff in H1, H2, H3.
      rewrite type_held_false in H1, H2, H3.
      apply not_false_iff_true in Ha. apply Ha. apply any_values_true_iff.
      intros ty'. apply leibniz_equiv. apply elem_of_equiv_empty. intros l Hl.
      rewrite Hset in Hl. destruct (HI1 _ _ _ Hl) as (i & Hi & Hr & Hty).
      destruct ty'; [by apply (H1 l i)|by apply (H2 l i)|by apply (H3 l i)].
    - rewrite any_values_true_iff in Ha. symmetry. apply negb_false_iff.
      assert (forall ty', type_held r ty' cm = false) as Hno.
      { intros ty'. apply type_held_false. intros l i Hl Hr Hty.
        apply HI2 in Hl. rewrite Hr, <- Hset, Ha in Hl. set_solver. }
      by rewrite !Hno. }
  destruct (negb (holds_none r h cm)); simpl; [done|].
  destruct ty; simpl.
  - by rewrite !Hkey, !negb_involutive.
  - by rewrite Hany, negb_involutive.
  - by rewrite Hany, negb_involutive.
Qed.

Lemma can_acquire_locks r ty h cm :
  _locks (snd (_can_acquire_lock r ty h cm)) = snd (locks_getitem r (_locks cm)).
Proof.
  unfold _can_acquire_lock. destruct (locks_getitem r (_locks cm)) as [ex lk].
  by destruct (same_holder_scan _ _ _) as [[]|]; [|destruct ty|].
Qed.

(** The tables after a granted [acquire_lock] and after [release_lock] of a
    recorded lock, with the [defaultdict] reads folded away. *)
Lemma acquire_lock_granted_raw uuid now r ty h tm cm l cm' :
  acquire_lock uuid now r ty h tm cm = (Ok l, cm') ->
  let e := default ∅ (_locks cm !! r) in
  _locks cm' = <[r := <[ty := {[uuid]} ∪ set_at e ty]> e]> (_locks cm) /\
  _lock_timeouts cm' =
    match truthy_timeout tm with
    | Some q => <[uuid := (now + q)%Q]> (_lock_timeouts cm)
    | None => _lock_timeouts cm
    end /\
  _version_tracker cm' = _version_tracker cm.
Proof.
  unfold acquire_lock.
  destruct (_can_acquire_lock r ty h cm) as [[[]|] cm1] eqn:E; [|done|done].
  destruct (can_acquire_effect _ _ _ _ _ _ E) as (_ & Ht & Hv & _).
  assert (_locks cm1 = snd (locks_getitem r (_locks cm))) as Hl1.
  { pose proof (can_acquire_locks r ty h cm) as Hl. by rewrite E in Hl. }
  destruct (locks_getitem r (_locks cm1)) as [e locks1] eqn:E1.
  destruct (types_getitem ty e) as [s e1] eqn:E2.
  intros [= <- <-]. simpl. rewrite Ht, Hv. split_and!; [|done..].
  unfold locks_getitem in E1, Hl1. unfold types_getitem, set_at in *.
  destruct (_locks cm !! r) as [e0|] eqn:Er; simpl in *.
  - rewrite Hl1, Er in E1. injection E1 as <- <-.
    destruct (e0 !! ty) as [s0|] eqn:Es; injection E2 as <- <-; simpl.
    + done.
    + by rewrite insert_insert_eq.
  - rewrite Hl1, lookup_insert_eq in E1. injection E1 as <- <-.
    rewrite lookup_empty in *. injection E2 as <- <-. simpl.
    by rewrite !insert_insert_eq.
Qed.

Lemma release_lock_raw l cm i :
  _lock_holders cm !! l = Some i ->
  let r := resource_id i in
  let ty := lock_type i in
  let e := default ∅ (_locks cm !! r) in
  let s' := set_at e ty ∖ {[l]} in
  let e2 := if decide (s' = ∅) then delete ty e else <[ty := s']> e in
  release_lock l cm
  = (true,
     {| _locks := if decide (e2 = ∅) then delete r (_locks cm) else <[r := e2]> (_locks cm);
        _lock_holders := delete l (_lock_holders cm);
        _lock_timeouts := delete l (_lock_timeouts cm);
        _version_tracker := _version_tracker cm |}).
Proof.
  intros Hl. unfold release_lock. rewrite Hl. simpl.
  unfold locks_getitem, types_getitem, set_at.
  destruct (_locks cm !! resource_id i) as [e0|] eqn:Er; simpl.
  - destruct (e0 !! lock_type i) as [s0|] eqn:Es; simpl; [done|].
    rewrite delete_insert_eq, insert_insert_eq. done.
  - rewrite lookup_empty. simpl. rewrite delete_insert_eq, !insert_insert_eq.
    repeat case_decide; by rewrite ?delete_insert_eq, ?insert_insert_eq.
Qed.

Lemma acquire_absent_granted uuid now r ty h tm cm res cm' :
  _locks cm !! r = None ->
  acquire_lock uuid now r ty h tm cm = (res, cm') -> res = Ok uuid.
Proof.
  intros Hr E. destruct (acquire_free_resource uuid now r ty h tm cm Hr) as [cm2 E2].
  congruence.
Qed.

Lemma acquire_lock_refused_same uuid now r ty h tm cm e cm' :
  acquire_lock uuid now r ty h tm cm = (Raise e, cm') -> cm' = cm.
Proof.
  intros E. destruct (_locks cm !! r) as [e0|] eqn:Er.
  - unfold acquire_lock, _can_acquire_lock, locks_getitem in E. rewrite Er in E.
    destruct cm. simpl in *.
    destruct (same_holder_scan _ _ _) as [[]|]; [| destruct ty |]; simpl in E.
    + rewrite Er in E. by destruct (types_getitem ty e0).
    + destruct (negb _ && negb _); [|by injection E as _ <-].
      rewrite Er in E. by destruct (types_getitem READ e0).
    + destruct (negb _); [|by injection E as _ <-].
      rewrite Er in E. by destruct (types_getitem WRITE e0).
    + destruct (negb _); [|by injection E as _ <-].
      rewrite Er in E. by destruct (types_getitem EXCLUSIVE e0).
    + by injection E as _ <-.
  - by apply (acquire_absent_granted _ _ _ _ _ _ _ _ _ Er) in E.
Qed.

Lemma tidy_acquire uuid now r ty h tm cm :
  tidy cm -> tidy (snd (acquire_lock uuid now r ty h tm cm)).
Proof.
  intros Ht. destruct (acquire_lock uuid now r ty h tm cm) as [[l|e] cm'] eqn:E; simpl.
  - destruct (acquire_lock_granted_raw _ _ _ _ _ _ _ _ _ E) as (Hl & _).
    intros r' e'. rewrite Hl. destruct (decide (r = r')) as [<-|Hne].
    + rewrite lookup_insert_eq. intros [= <-]. split.
      * apply insert_non_empty.
      * intros ty' s'. destruct (decide (ty = ty')) as [<-|Hty].
        -- rewrite lookup_insert_eq. intros [= <-]. set_solver.
        -- rewrite lookup_insert_ne by done.
           destruct (_locks cm !! r) as [e0|] eqn:Er; simpl.
           ++ apply (Ht r e0 Er).
           ++ by rewrite lookup_empty.
    + rewrite lookup_insert_ne by done. apply Ht.
  - by rewrite (acquire_lock_refused_same _ _ _ _ _ _ _ _ _ E).
Qed.

Lemma tidy_release l cm : tidy cm -> tidy (snd (release_lock l cm)).
Proof.
  intros Ht. destruct (_lock_holders cm !! l) as [i|] eqn:El;
    [|by rewrite release_lock_unknown].
  rewrite (release_lock_raw _ _ _ El). simpl.
  set (e := default ∅ (_locks cm !! resource_id i)).
  set (s' := set_at e (lock_type i) ∖ {[l]}).
  set (e2 := if decide (s' = ∅) then delete (lock_type i) e else <[lock_type i := s']> e).
  assert (forall ty s, e2 !! ty = Some s -> s <> ∅) as He2.
  { intros ty s. unfold e2.
    assert (forall ty0 s0, e !! ty0 = Some s0 -> s0 <> ∅) as He.
    { unfold e. destruct (_locks cm !! resource_id i) as [e0|] eqn:Er; simpl.
      - apply (Ht _ _ Er).
      - intros ty0 s0. by rewrite lookup_empty. }
    destruct (decide (s' = ∅)).
    - intros Hd. apply lookup_delete_Some in Hd as [_ Hd]. by apply He in Hd.
    - destruct (decide (lock_type i = ty)) as [<-|Hne].
      + rewrite lookup_insert_eq. by intros [= <-].
      + rewrite lookup_insert_ne by done. apply He. }
  intros r' e'. destruct (decide (e2 = ∅)) as [Hemp|Hemp]; simpl.
  - intros Hd. apply lookup_delete_Some in Hd as [_ Hd]. by apply Ht in Hd.
  - destruct (decide (resource_id i = r')) as [<-|Hne].
    + rewrite lookup_insert_eq. by intros [= <-].
    + rewrite lookup_insert_ne by done. apply Ht.
Qed.

Lemma timeouts_recorded_acquire uuid now r ty h tm cm :
  timeouts_recorded cm -> timeouts_recorded (snd (acquire_lock uuid now r ty h tm cm)).
Proof.
  intros Ht. destruct (acquire_lock uuid now r ty h tm cm) as [[l|e] cm'] eqn:E; simpl.
  - destruct (acquire_lock_granted_raw _ _ _ _ _ _ _ _ _ E) as (_ & Hto & _).
    destruct (acquire_lock_granted _ _ _ _ _ _ _ _ _ E) as (_ & _ & Hh & _).
    intros l' q. rewrite Hto, Hh. destruct (decide (uuid = l')) as [<-|Hne].
    + intros _. rewrite lookup_insert_eq. by eexists.
    + rewrite lookup_insert_ne by done. intros Hq. apply (Ht l' q).
      destruct (truthy_timeout tm); [by rewrite lookup_insert_ne in Hq|done].
  - by rewrite (acquire_lock_refused_same _ _ _ _ _ _ _ _ _ E).
Qed.

Lemma timeouts_recorded_release l cm :
  timeouts_recorded cm -> timeouts_recorded (snd (release_lock l cm)).
Proof.
  intros Ht. destruct (_lock_holders cm !! l) as [i|] eqn:El;
    [|by rewrite release_lock_unknown].
  rewrite (release_lock_raw _ _ _ El). intros l' q.
  cbn [snd _lock_timeouts _lock_holders]. intros Hq. apply lookup_delete_Some in Hq as [Hne Hq].
  rewrite lookup_delete_ne by done. by apply (Ht l' q).
Qed.

Lemma well_formed_init : well_formed init.
Proof.
  split; [apply consistent_init|]. split.
  - intros r e. simpl. by rewrite lookup_empty.
  - intros l q. simpl. by rewrite lookup_empty.
Qed.

Lemma well_formed_step o cm :
  well_formed cm -> fresh_id o cm = true -> well_formed (step o cm).
Proof.
  intros (Hc & Ht & Hto) Hfresh. destruct o; simpl in *.
  - split_and!; [by apply consistent_acquire|by apply tidy_acquire
                |by apply timeouts_recorded_acquire].
  - split_and!; [by apply consistent_release|by apply tidy_release
                |by apply timeouts_recorded_release].
Qed.

Lemma well_formed_run ops : forall cm,
  well_formed cm -> fresh_history ops cm = true -> well_formed (run ops cm).
Proof.
  induction ops as [|o ops IH]; intros cm Hwf Hfresh; simpl in *; [done|].
  apply andb_true_iff in Hfresh as [H1 H2]. apply IH; [|done]. by apply well_formed_step.
Qed.

Lemma acquire_lock_decided uuid now r ty h tm cm :
  well_formed cm ->
  fst (acquire_lock uuid now r ty h tm cm)
  = if compatible r ty h cm then Ok uuid else Raise (refusal r ty).
Proof.
  intros Hwf. pose proof (can_acquire_compatible r ty h cm Hwf) as Hcan.
  unfold acquire_lock. destruct (_can_acquire_lock r ty h cm) as [res cm1].
  simpl in Hcan. subst res. destruct (compatible r ty h cm); [|done].
  destruct (locks_getitem r (_locks cm1)) as [e locks1].
  by destruct (types_getitem ty e).
Qed.

(** After any history of acquisitions and releases with fresh lock ids,
    [acquire_lock] is decided by the compatibility table alone: it returns
    the new lock id when the holder already holds a lock on the resource,
    or when no lock of a conflicting type is held on it (READ conflicts
    with WRITE and EXCLUSIVE, the other two with everything), and raises
    [ConcurrencyError] with the refusal message otherwise. *)
Theorem acquire_lock_follows_compatibility (ops : list op) uuid now r ty h tm :
  fresh_history ops init = true ->
  fst (acquire_lock uuid now r ty h tm (run ops init))
  = if compatible r ty h (run ops init) then Ok uuid else Raise (refusal r ty).
Proof.
  intros Hfresh. apply acquire_lock_decided.
  by apply well_formed_run; [apply well_formed_init|].
Qed.

Lemma acquire_lock_follows_compatibility_witness :
  fst (acquire_lock "lock-9" 5 "R1" READ "Y" None (run plain_history init))
  = if compatible "R1" READ "Y" (run plain_history init)
    then Ok "lock-9" else Raise (refusal "R1" READ).
Proof.
  apply (acquire_lock_follows_compatibility plain_history). vm_compute. reflexivity.
Defined.

Lemma release_undoes_acquire_wf uuid now r ty h tm cm :
  well_formed cm -> unused_id uuid cm = true ->
  fst (acquire_lock uuid now r ty h tm cm) = Ok uuid ->
  release_lock uuid (snd (acquire_lock uuid now r ty h tm cm)) = (true, cm).
Proof.
  intros ([HI1 HI2] & Htidy & Hto) Hfresh%unused_id_spec Hok.
  destruct (acquire_lock uuid now r ty h tm cm) as [res cm'] eqn:E.
  simpl in Hok. subst res. simpl.
  destruct (acquire_lock_granted _ _ _ _ _ _ _ _ _ E) as (_ & _ & Hh & _).
  destruct (acquire_lock_granted_raw _ _ _ _ _ _ _ _ _ E) as (Hl & Htm & Hv).
  set (info := {| lock_id := uuid; resource_id := r; lock_type := ty; holder_id := h;
                  acquired_at := now; timeout := tm |}) in *.
  assert (_lock_holders cm' !! uuid = Some info) as Hrec
    by (rewrite Hh; apply lookup_insert_eq).
  rewrite (release_lock_raw _ _ _ Hrec). f_equal.
  set (e := default ∅ (_locks cm !! r)) in *.
  assert (uuid ∉ set_at e ty) as Hnotin.
  { intros Hin. destruct (HI1 r ty uuid Hin) as (i & Hi & _). congruence. }
  assert (e !! ty = None /\ set_at e ty = ∅ \/ e !! ty = Some (set_at e ty) /\ set_at e ty <> ∅)
    as Hcase.
  { unfold set_at. destruct (e !! ty) as [s|] eqn:Es; simpl; [right|by left].
    split; [done|]. unfold e in Es.
    destruct (_locks cm !! r) as [e0|] eqn:Er; simpl in Es.
    - by apply (Htidy r e0 Er) in Es.
    - by rewrite lookup_empty in Es. }
  assert (_locks cm !! r = None /\ e = ∅ \/ _locks cm !! r = Some e /\ e <> ∅) as Hcase_r.
  { unfold e. destruct (_locks cm !! r) as [e0|] eqn:Er; simpl; [right|by left].
    split; [done|]. by apply (Htidy r e0 Er). }
  simpl resource_id. simpl lock_type.
  assert (default ∅ (_locks cm' !! r) = <[ty := {[uuid]} ∪ set_at e ty]> e) as ->
    by (rewrite Hl, lookup_insert_eq; done).
  assert (set_at (<[ty := {[uuid]} ∪ set_at e ty]> e) ty ∖ {[uuid]} = set_at e ty) as ->.
  { unfold set_at at 1. rewrite lookup_insert_eq. simpl. set_solver. }
  assert ((if decide (set_at e ty = ∅)
           then delete ty (<[ty := {[uuid]} ∪ set_at e ty]> e)
           else <[ty := set_at e ty]> (<[ty := {[uuid]} ∪ set_at e ty]> e)) = e) as ->.
  { destruct Hcase as [[Hn He]|[Hs He]].
    - rewrite decide_True by done. rewrite delete_insert_eq. by apply delete_id.
    - rewrite decide_False by done. rewrite insert_insert_eq. by apply insert_id. }
  assert ((if decide (e = ∅) then delete r (_locks cm') else <[r := e]> (_locks cm'))
          = _locks cm) as ->.
  { rewrite Hl. destruct Hcase_r as [[Hn He]|[Hs He]].
    - rewrite decide_True by done. rewrite delete_insert_eq. by apply delete_id.
    - rewrite decide_False by done. rewrite insert_insert_eq. by apply insert_id. }
  assert (delete uuid (_lock_holders cm') = _lock_holders cm) as ->.
  { rewrite Hh, delete_insert_eq. by apply delete_id. }
  assert (delete uuid (_lock_timeouts cm') = _lock_timeouts cm) as ->.
  { assert (_lock_timeouts cm !! uuid = None) as Hnone.
    { destruct (_lock_timeouts cm !! uuid) as [q|] eqn:Eq; [|done].
      destruct (Hto uuid q Eq) as [i Hi]. congruence. }
    rewrite Htm. destruct (truthy_timeout tm).
    - rewrite delete_insert_eq. by apply delete_id.
    - by apply delete_id. }
  rewrite Hv. by destruct cm.
Qed.

(** Releasing a lock right after it was granted restores the lock manager
    exactly: the type sets, the holder table and the expiry table are
    those before the acquisition, with no empty entry left behind. *)
Theorem release_undoes_acquire (ops : list op) uuid now r ty h tm :
  fresh_history ops init = true ->
  unused_id uuid (run ops init) = true ->
  fst (acquire_lock uuid now r ty h tm (run ops init)) = Ok uuid ->
  release_lock uuid (snd (acquire_lock uuid now r ty h tm (run ops init)))
  = (true, run ops init).
Proof.
  intros Hfresh. apply release_undoes_acquire_wf.
  by apply well_formed_run; [apply well_formed_init|].
Qed.

Lemma release_undoes_acquire_witness :
  release_lock "lock-9" (snd (acquire_lock "lock-9" 5 "R1" EXCLUSIVE "Z" (Some 2%Q)
                                           (run plain_history init)))
  = (true, run plain_history init).
Proof.
  apply (release_undoes_acquire plain_history); vm_compute; reflexivity.
Defined.

(** [release_lock] returns whether the lock id was recorded, removes it
    from the holder table, and a second release of the same id returns
    [False] and changes nothing. *)
Theorem release_lock_twice (l : string) (cm : t) :
  fst (release_lock l cm) = bool_decide (is_Some (_lock_holders cm !! l)) /\
  _lock_holders (snd (release_lock l cm)) = delete l (_lock_holders cm) /\
  release_lock l (snd (release_lock l cm)) = (false, snd (release_lock l cm)).
Proof.
  destruct (_lock_holders cm !! l) as [i|] eqn:El.
  - destruct (release_lock_held _ _ _ El) as (Hr & Hh & _).
    rewrite Hr, Hh. split_and!; [by rewrite bool_decide_eq_true_2|done|].
    apply release_lock_unknown. rewrite Hh. apply lookup_delete_eq.
  - rewrite !release_lock_unknown by done. simpl.
    split_and!; [done|by rewrite delete_id|done].
Qed.

Lemma get_version_increment r r' cm :
  get_version r' (snd (increment_version r cm))
  = if decide (r' = r) then get_version r cm + 1 else get_version r' cm.
Proof.
  unfold increment_version, get_version. simpl. case_decide as Hd.
  - subst. by rewrite lookup_insert_eq.
  - by rewrite lookup_insert_ne.
Qed.

Lemma bump_succ r n cm :
  bump r (Datatypes.S n) cm = snd (increment_version r (bump r n cm)).
Proof. reflexivity. Qed.

Lemma get_version_bump r r' n cm :
  get_version r' (bump r n cm)
  = if decide (r' = r) then get_version r cm + Z.of_nat n else get_version r' cm.
Proof.
  destruct (decide (r' = r)) as [->|Hne].
  - induction n as [|n IH]; [simpl; lia|].
    rewrite bump_succ, get_version_increment, decide_True by done. lia.
  - induction n as [|n IH]; [done|].
    by rewrite bump_succ, get_version_increment, decide_False.
Qed.

(** The version of a resource counts its increments: after [n] calls of
    [increment_version] the version is the old one plus [n], other
    resources keep theirs, [check_version] accepts exactly that number,
    the next increment returns the successor, and the lock tables are
    not touched. *)
Theorem version_counts_increments (r : string) (n : nat) (cm : t) :
  get_version r (bump r n cm) = get_version r cm + Z.of_nat n /\
  (forall r', r' <> r -> get_version r' (bump r n cm) = get_version r' cm) /\
  (forall v, check_version r v (bump r n cm)
             = bool_decide (get_version r cm + Z.of_nat n = v)) /\
  fst (increment_version r (bump r n cm)) = get_version r cm + Z.of_nat n + 1 /\
  _lock_holders (bump r n cm) = _lock_holders cm /\ _locks (bump r n cm) = _locks cm.
Proof.
  split_and!.
  - by rewrite get_version_bump, decide_True.
  - intros r' Hne. by rewrite get_version_bump, decide_False.
  - intros v. unfold check_version. by rewrite get_version_bump, decide_True.
  - unfold increment_version. cbn [fst]. by rewrite get_version_bump, decide_True.
  - induction n as [|n IH]; [done|]. by rewrite bump_succ.
  - induction n as [|n IH]; [done|]. by rewrite bump_succ.
Qed.
Lemma retry_loop_counts {A} overflow (func : nat -> result A) max_retries bf :
  forall remaining attempt last,
    Z.of_nat attempt + Z.of_nat remaining = max_retries + 1 ->
    let run := retry_loop overflow func max_retries bf remaining attempt last in
    (calls (snd run) <= remaining)%nat /\
    ((1 <= remaining)%nat -> (1 <= calls (snd run))%nat) /\
    sleeps (snd run) = Nat.pred (calls (snd run)) /\
    ((1 <= remaining)%nat -> raises_concurrency (fst run) = true ->
     calls (snd run) = remaining /\ fst run = func (Z.to_nat max_retries)).
Proof.
  induction remaining as [|n IH]; intros attempt last Hinv; simpl.
  - split_and!; [done|lia|done|lia].
  - destruct (func attempt) as [v|e] eqn:E; simpl.
    + split_and!; [unfold calls; simpl; lia|unfold calls; simpl; lia|done|done].
    + destruct (is_ConcurrencyError e) eqn:Ece.
      * destruct (Z.of_nat attempt <? max_retries) eqn:Hlt.
        -- apply Z.ltb_lt in Hlt.
           destruct (sleep_error overflow bf attempt) as [e'|] eqn:Es.
           ++ simpl. unfold calls, sleeps. simpl.
              split_and!; [lia|lia|done|]. intros _ He'. exfalso.
              unfold sleep_error in Es.
              destruct (overflow bf attempt); [by injection Es as <-|].
              destruct (Qle_bool 0 (backoff bf attempt)); [done|]. by injection Es as <-.
           ++ specialize (IH (Datatypes.S attempt) (Some e) ltac:(lia)).
              destruct (retry_loop overflow func max_retries bf n (Datatypes.S attempt)
                                   (Some e)) as [r tr]. simpl in *.
              destruct IH as (I1 & I2 & I3 & I4).
              unfold calls, sleeps in *. simpl.
              specialize (I2 ltac:(lia)).
              split_and!; [lia|lia|lia|]. intros _ Hr.
              destruct (I4 ltac:(lia) Hr) as [I5 I6]. split; [lia|done].
        -- apply Z.ltb_ge in Hlt. simpl. unfold calls, sleeps. simpl.
           split_and!; [lia|lia|done|]. intros _ _. split; [lia|].
           replace (Z.to_nat max_retries) with attempt by lia. by rewrite E.
      * simpl. unfold calls, sleeps. simpl. rewrite Ece.
        split_and!; [lia|lia|done|done].
Qed.

(** [execute_with_retry] calls the function at most [max_retries + 1]
    times, sleeps one time fewer than it calls, and makes at least one
    call unless [max_retries] is negative. *)
Theorem execute_with_retry_is_bounded {A} (overflow : Q -> nat -> option string)
        (func : nat -> result A) (max_retries : Z) (backoff_factor : Q) :
  let run := execute_with_retry overflow func max_retries backoff_factor in
  (calls (snd run) <= Z.to_nat (max_retries + 1))%nat /\
  sleeps (snd run) = Nat.pred (calls (snd run)) /\
  (max_retries < 0 \/ (1 <= calls (snd run))%nat).
Proof.
  unfold execute_with_retry. destruct (Z_lt_le_dec (max_retries + 1) 0) as [Hneg|Hpos].
  - replace (Z.to_nat (max_retries + 1)) with O by lia. simpl.
    split_and!; [done|done|lia].
  - destruct (retry_loop_counts overflow func max_retries backoff_factor
                (Z.to_nat (max_retries + 1)) 0 None ltac:(lia)) as (I1 & I2 & I3 & _).
    split_and!; [done|done|].
    destruct (Z_lt_le_dec max_retries 0); [by left|right]. apply I2. lia.
Qed.

(** When [execute_with_retry] ends in a [ConcurrencyError], [max_retries]
    is not negative, the function was called [max_retries + 1] times, and
    what comes out is what the last call raised. *)
Theorem concurrency_error_only_after_all_attempts {A} (overflow : Q -> nat -> option string)
        (func : nat -> result A) (max_retries : Z) (backoff_factor : Q) :
  raises_concurrency (fst (execute_with_retry overflow func max_retries backoff_factor))
  = true ->
  0 <= max_retries /\
  calls (snd (execute_with_retry overflow func max_retries backoff_factor))
  = Z.to_nat (max_retries + 1) /\
  fst (execute_with_retry overflow func max_retries backoff_factor)
  = func (Z.to_nat max_retries).
Proof.
  unfold execute_with_retry. intros Hr.
  destruct (Z_lt_le_dec max_retries 0) as [Hneg|Hpos].
  - exfalso. replace (Z.to_nat (max_retries + 1)) with O in Hr by lia. by simpl in Hr.
  - split; [done|].
    destruct (retry_loop_counts overflow func max_retries backoff_factor
                (Z.to_nat (max_retries + 1)) 0 None ltac:(lia)) as (_ & _ & _ & I4).
    apply I4; [lia|done].
Qed.

Lemma concurrency_error_only_after_all_attempts_witness :
  fst (execute_with_retry roomy
         (fun _ => Raise (mk_exn ConcurrencyError "busy") : result Z) 2 1)
  = Raise (mk_exn ConcurrencyError "busy").
Proof.
  refine (proj2 (proj2 (concurrency_error_only_after_all_attempts roomy
                          (fun _ => Raise (mk_exn ConcurrencyError "busy") : result Z)
                          2 1 _))).
  reflexivity.
Defined.

Lemma retried_trace_succ bf a k :
  retried_trace bf a (Datatypes.S k)
  = Called a :: Slept (backoff bf a) :: retried_trace bf (Datatypes.S a) k.
Proof.
  unfold retried_trace. simpl. by replace (a + Datatypes.S k)%nat with (Datatypes.S (a + k)) by lia.
Qed.

Lemma total_sleep_retried bf : forall k a,
  (total_sleep (retried_trace bf a k)
   == bf * (inject_Z (2 ^ Z.of_nat (a + k)) - inject_Z (2 ^ Z.of_nat a)))%Q.
Proof.
  induction k as [|k IH]; intros a.
  - unfold retried_trace. simpl. rewrite Nat.add_0_r. ring.
  - rewrite retried_trace_succ. simpl. rewrite IH. unfold backoff.
    replace (Datatypes.S a + k)%nat with (a + Datatypes.S k)%nat by lia.
    replace (2 ^ Z.of_nat (Datatypes.S a)) with (2 * 2 ^ Z.of_nat a)
      by (rewrite Nat2Z.inj_succ, Z.pow_succ_r; lia).
    rewrite inject_Z_mult. ring.
Qed.

(** When the first [k] calls raise [ConcurrencyError], [time.sleep]
    accepts the wait after each of them (a retry needs a factor that is
    not negative and a wait within the platform's range), and call [k]
    ends the loop, the time slept in total is
    [backoff_factor * (2 ^ k - 1)]. *)
Theorem total_backoff_is_geometric {A} (overflow : Q -> nat -> option string)
        (func : nat -> result A) (max_retries : Z) (backoff_factor : Q) (k : nat) :
  Z.of_nat k <= max_retries ->
  forallb (fun i => raises_concurrency (func i)) (seq 0 k) = true ->
  (forall i, (i < k)%nat -> overflow backoff_factor i = None) ->
  k = 0%nat \/ (0 <= backoff_factor)%Q ->
  (raises_concurrency (func k) = true -> Z.of_nat k = max_retries) ->
  (total_sleep (snd (execute_with_retry overflow func max_retries backoff_factor))
   == backoff_factor * (inject_Z (2 ^ Z.of_nat k) - 1))%Q.
Proof.
  intros Hle Hall Hfit Hsign Hstop. unfold execute_with_retry.
  rewrite (retry_loop_stops overflow func max_retries backoff_factor k); simpl;
    [|lia|lia|done| |done].
  - rewrite total_sleep_retried. change (0 + k)%nat with k.
    change (inject_Z (2 ^ Z.of_nat 0)) with 1%Q. reflexivity.
  - intros i Hi. destruct Hsign as [->|Hsign]; [lia|].
    apply sleep_error_accepted; [apply Hfit; lia|done].
Qed.

Lemma total_backoff_is_geometric_witness :
  (total_sleep (snd (execute_with_retry roomy flaky 3 (1 # 2)))
   == (1 # 2) * (inject_Z (2 ^ 2) - 1))%Q.
Proof.
  apply (total_backoff_is_geometric roomy flaky 3 (1 # 2) 2).
  - simpl; lia.
  - reflexivity.
  - reflexivity.
  - right. discriminate.
  - simpl. discriminate.
Defined.

Lemma release_lock_holders l cm :
  _lock_holders (snd (release_lock l cm)) = delete l (_lock_holders cm).
Proof.
  destruct (_lock_holders cm !! l) as [i|] eqn:El.
  - by destruct (release_lock_held _ _ _ El) as (_ & -> & _).
  - rewrite release_lock_unknown by done. simpl. by rewrite delete_id.
Qed.

Lemma release_lock_timeouts l cm :
  timeouts_recorded cm ->
  _lock_timeouts (snd (release_lock l cm)) = delete l (_lock_timeouts cm).
Proof.
  intros Hto. destruct (_lock_holders cm !! l) as [i|] eqn:El.
  - by rewrite (release_lock_raw _ _ _ El).
  - rewrite release_lock_unknown by done. simpl. rewrite delete_id; [done|].
    destruct (_lock_timeouts cm !! l) as [q|] eqn:Eq; [|done].
    destruct (Hto l q Eq) as [i Hi]. congruence.
Qed.

Lemma release_all_holders ls : forall cm l,
  _lock_holders (release_all ls cm) !! l
  = if decide (l ∈ ls) then None else _lock_holders cm !! l.
Proof.
  induction ls as [|x ls IH]; intros cm l.
  - destruct (decide (l ∈ [])) as [H|]; [by apply elem_of_nil in H|done].
  - change (release_all (x :: ls) cm) with (release_all ls (snd (release_lock x cm))).
    rewrite IH, release_lock_holders. destruct (decide (l ∈ ls)) as [Hin|Hnin].
    + rewrite decide_True by set_solver. done.
    + destruct (decide (l = x)) as [->|Hne].
      * rewrite decide_True by set_solver. apply lookup_delete_eq.
      * rewrite decide_False by set_solver. by rewrite lookup_delete_ne.
Qed.

Lemma release_all_well_formed ls : forall cm,
  well_formed cm -> well_formed (release_all ls cm).
Proof.
  induction ls as [|x ls IH]; intros cm Hwf; simpl; [done|].
  apply IH. by apply (well_formed_step (Release x)).
Qed.

Lemma release_all_timeouts ls : forall cm l,
  well_formed cm ->
  _lock_timeouts (release_all ls cm) !! l
  = if decide (l ∈ ls) then None else _lock_timeouts cm !! l.
Proof.
  induction ls as [|x ls IH]; intros cm l Hwf.
  - destruct (decide (l ∈ [])) as [H|]; [by apply elem_of_nil in H|done].
  - change (release_all (x :: ls) cm) with (release_all ls (snd (release_lock x cm))).
    rewrite IH by (by apply (well_formed_step (Release x))).
    rewrite release_lock_timeouts by apply Hwf.
    destruct (decide (l ∈ ls)) as [Hin|Hnin].
    + rewrite decide_True by set_solver. done.
    + destruct (decide (l = x)) as [->|Hne].
      * rewrite decide_True by set_solver. apply lookup_delete_eq.
      * rewrite decide_False by set_solver. by rewrite lookup_delete_ne.
Qed.

Lemma elem_of_expired_locks now cm l :
  l ∈ expired_locks now cm <-> is_overdue now l cm = true.
Proof.
  unfold expired_locks, is_overdue. rewrite list_elem_of_In, in_map_iff. split.
  - intros ([l' q] & <- & Hin). apply filter_In in Hin as [Hin Hov].
    apply list_elem_of_In, elem_of_map_to_list in Hin. simpl in *. by rewrite Hin.
  - destruct (_lock_timeouts cm !! l) as [q|] eqn:Eq; [|done]. intros Hov.
    exists (l, q). split; [done|]. apply filter_In. split; [|done].
    by apply list_elem_of_In, elem_of_map_to_list.
Qed.

(** One pass of [_cleanup_expired_locks] removes from the holder table and
    from the expiry table exactly the locks whose expiry time is before
    the clock reading, and leaves every other lock as it was. *)
Theorem cleanup_releases_exactly_the_overdue (ops : list op) (now : Q) (l : string) :
  fresh_history ops init = true ->
  let cm := run ops init in
  _lock_holders (cleanup_pass now cm) !! l
  = (if is_overdue now l cm then None else _lock_holders cm !! l) /\
  _lock_timeouts (cleanup_pass now cm) !! l
  = (if is_overdue now l cm then None else _lock_timeouts cm !! l).
Proof.
  intros Hfresh cm.
  assert (well_formed cm) as Hwf by (by apply well_formed_run; [apply well_formed_init|]).
  unfold cleanup_pass. fold (release_all (expired_locks now cm) cm).
  rewrite release_all_holders, release_all_timeouts by done.
  destruct (is_overdue now l cm) eqn:Hov.
  - rewrite !decide_True by (by apply elem_of_expired_locks). done.
  - rewrite !decide_False; [done| |]; rewrite elem_of_expired_locks; congruence.
Qed.

Lemma cleanup_releases_exactly_the_overdue_witness :
  let cm := run timed_history init in
  _lock_holders (cleanup_pass (3 # 2) cm) !! "lock-1"
  = (if is_overdue (3 # 2) "lock-1" cm then None else _lock_holders cm !! "lock-1") /\
  _lock_timeouts (cleanup_pass (3 # 2) cm) !! "lock-1"
  = (if is_overdue (3 # 2) "lock-1" cm then None else _lock_timeouts cm !! "lock-1").
Proof.
  apply (cleanup_releases_exactly_the_overdue timed_history (3 # 2) "lock-1").
  vm_compute. reflexivity.
Defined.

Lemma compatible_when_unheld r ty h cm :
  (forall l i, _lock_holders cm !! l = Some i -> resource_id i <> r) ->
  compatible r ty h cm = true.
Proof.
  intros Hno. unfold compatible.
  assert (forall ty', type_held r ty' cm = false) as Hheld.
  { intros ty'. apply type_held_false. intros l i Hl Hr. by destruct (Hno l i Hl). }
  rewrite !Hheld. simpl. destruct ty; apply orb_true_r.
Qed.

(** A lock taken with a positive timeout on a resource nobody holds is granted;
    once the clock is past its expiry a cleanup pass removes it, and any
    holder then acquires any lock type on the resource. *)
Theorem expired_lock_gives_way (ops : list op) uuid uuid' (t0 T now now' : Q)
        r ty ty' h h' tm' :
  fresh_history ops init = true ->
  unused_id uuid (run ops init) = true ->
  (forall ty0, type_held r ty0 (run ops init) = false) ->
  (0 < T)%Q -> (t0 + T < now)%Q ->
  let held := snd (acquire_lock uuid t0 r ty h (Some T) (run ops init)) in
  fst (acquire_lock uuid t0 r ty h (Some T) (run ops init)) = Ok uuid /\
  _lock_holders (cleanup_pass now held) !! uuid = None /\
  fst (acquire_lock uuid' now' r ty' h' tm' (cleanup_pass now held)) = Ok uuid'.
Proof.
  intros Hfresh Hunused Hfree HT Hlate held.
  set (cm := run ops init) in *.
  assert (well_formed cm) as Hwf by (by apply well_formed_run; [apply well_formed_init|]).
  assert (forall l i, _lock_holders cm !! l = Some i -> resource_id i <> r) as Hno.
  { intros l i Hl Hr. specialize (Hfree (lock_type i)).
    rewrite type_held_false in Hfree. by apply (Hfree l i). }
  assert (fst (acquire_lock uuid t0 r ty h (Some T) cm) = Ok uuid) as Hgrant.
  { rewrite acquire_lock_decided by done. by rewrite compatible_when_unheld. }
  split; [done|].
  assert (well_formed held) as Hwf1
    by (apply (well_formed_step (Acquire uuid t0 r ty h (Some T))); done).
  destruct (acquire_lock uuid t0 r ty h (Some T) cm) as [res cm1] eqn:E.
  simpl in Hgrant. subst res. subst held. simpl in *.
  destruct (acquire_lock_granted _ _ _ _ _ _ _ _ _ E) as (_ & _ & Hh & _).
  destruct (acquire_lock_granted_raw _ _ _ _ _ _ _ _ _ E) as (_ & Hto & _).
  assert (is_overdue now uuid cm1 = true) as Hov.
  { unfold is_overdue. rewrite Hto. unfold truthy_timeout.
    assert (Qeq_bool T 0 = false) as ->.
    { apply not_true_is_false. intros Heq%Qeq_bool_iff. rewrite Heq in HT.
      by apply Qlt_irrefl in HT. }
    rewrite lookup_insert_eq. unfold overdue. apply negb_true_iff.
    apply not_true_is_false. intros Hle%Qle_bool_iff.
    apply (Qlt_irrefl now). by apply Qle_lt_trans with (t0 + T)%Q. }
  assert (forall l, _lock_holders (cleanup_pass now cm1) !! l
                    = if decide (l ∈ expired_locks now cm1) then None
                      else _lock_holders cm1 !! l) as Hafter
    by (intros; apply release_all_holders).
  split.
  - rewrite Hafter. by rewrite decide_True by (by apply elem_of_expired_locks).
  - rewrite acquire_lock_decided by (by apply release_all_well_formed).
    rewrite compatible_when_unheld; [done|].
    intros l i. rewrite Hafter. case_decide as Hexp; [done|]. rewrite Hh.
    destruct (decide (l = uuid)) as [->|Hne].
    + exfalso. apply Hexp. by apply elem_of_expired_locks.
    + rewrite lookup_insert_ne by done. apply Hno.
Qed.

Lemma expired_lock_gives_way_witness :
  fst (acquire_lock "lock-9" 2 "R1" WRITE "Y" None
         (cleanup_pass (3 # 2)
            (snd (acquire_lock "lock-8" 0 "R1" WRITE "X" (Some 1%Q) init))))
  = Ok "lock-9".
Proof.
  refine (proj2 (proj2 (expired_lock_gives_way [] "lock-8" "lock-9" 0 1 (3 # 2) 2
                          "R1" WRITE WRITE "X" "Y" None _ _ _ _ _))).
  - reflexivity.
  - reflexivity.
  - intros ty0. by vm_compute.
  - reflexivity.
  - reflexivity.
Defined.
End LockManagerProofs.

(** ** Enrollment engine: waitlists, policies, contention *)

Section EnrollmentHistoryProofs.
Import EnrollmentService.

Lemma lock_outcome {S A} (get : S -> ConcurrencyManager.t) (set : ConcurrencyManager.t -> S -> S)
      uuid now r ty h tm (body : S -> result A * S) st :
  (exists e cm', ConcurrencyManager.lock get set uuid now r ty h tm body st
                 = (Raise e, set cm' st)) \/
  (exists cm1, ConcurrencyManager.lock get set uuid now r ty h tm body st
               = body (set cm1 st)) \/
  (exists cm1 cm2, ConcurrencyManager.lock get set uuid now r ty h tm body st
                   = (fst (body (set cm1 st)), set cm2 (snd (body (set cm1 st))))).
Proof.
  unfold ConcurrencyManager.lock.
  destruct (ConcurrencyManager.acquire_lock uuid now r ty h tm (get st)) as [[l|e] cm'].
  - right. destruct (body (set cm' st)) as [res st1] eqn:E.
    destruct (decide (l = "")).
    + left. exists cm'. by rewrite E.
    + right. exists cm', (snd (ConcurrencyManager.release_lock l (get st1))). by rewrite E.
  - left. by exists e, cm'.
Qed.

Lemma remove_first_sub x l y : y ∈ remove_first x l -> y ∈ l.
Proof.
  induction l as [|z l IH]; simpl; [done|].
  destruct (decide (z = x)); set_solver.
Qed.

Lemma remove_first_NoDup x l : NoDup l -> NoDup (remove_first x l).
Proof.
  induction 1 as [|z l Hz Hnd IH]; simpl; [constructor|].
  destruct (decide (z = x)); [done|]. constructor; [|done].
  intros Hin. by apply remove_first_sub in Hin.
Qed.

Lemma enroll_student_waitlists w student section st :
  _waitlists (snd (enroll_student w student section st)) = _waitlists st \/
  _waitlists (snd (enroll_student w student section st))
  = _waitlists (snd (_add_to_waitlist (Student.id student) (Section.id section) st)).
Proof.
  unfold enroll_student.
  destruct (_is_enrolled _ _ st); [by left|].
  destruct (_evaluate_policies student section st) as [[] msg]; [|by left].
  match goal with
  | |- context [ConcurrencyManager.lock _ _ _ _ _ _ _ _ ?f st] => set (body := f)
  end.
  destruct (lock_outcome _concurrency_manager with_cm (uuid w) (now w)
              (lock_key (Section.id section)) ConcurrencyManager.WRITE (holder_key w)
              None body st) as [(e & cm' & ->)|[(cm1 & ->)|(cm1 & cm2 & ->)]].
  - left. by destruct (is_ConcurrencyError e).
  - unfold body. destruct (Section.enrolled_count section <? Section.capacity section);
      [by left|by right].
  - unfold body. destruct (Section.enrolled_count section <? Section.capacity section);
      [by left|by right].
Qed.

Lemma drop_student_waitlists w student_id section_id st :
  _waitlists (snd (drop_student w student_id section_id st)) = _waitlists st \/
  _waitlists (snd (drop_student w student_id section_id st))
  = drop_waitlists student_id section_id (_waitlists st).
Proof.
  unfold drop_student.
  destruct (_is_enrolled _ _ st); simpl negb; cbv iota; [|by left].
  match goal with
  | |- context [ConcurrencyManager.lock _ _ _ _ _ _ _ _ ?f st] => set (body := f)
  end.
  assert (forall cm1, _waitlists (snd (body (with_cm cm1 st)))
                      = drop_waitlists student_id section_id (_waitlists st)) as Hbody.
  { intros cm1. unfold body, drop_waitlists.
    assert (forall X : t, _waitlists X = _waitlists st ->
              _waitlists (match _waitlists X !! section_id with
                          | Some wl =>
                              if decide (student_id ∈ wl)
                              then with_waitlists
                                     (<[section_id := remove_first student_id wl]>
                                        (_waitlists X)) X
                              else X
                          | None => X
                          end)
              = match _waitlists st !! section_id with
                | Some wl =>
                    if decide (student_id ∈ wl)
                    then <[section_id := remove_first student_id wl]> (_waitlists st)
                    else _waitlists st
                | None => _waitlists st
                end) as Hw3.
    { intros X HX. rewrite HX. destruct (_waitlists st !! section_id) as [wl|]; [|done].
      by destruct (decide (student_id ∈ wl)). }
    set (st2 := match _enrollments (with_cm cm1 st) !! student_id with
                | Some sections => _ | None => _ end).
    assert (_waitlists st2 = _waitlists st) as H2.
    { unfold st2. destruct (_enrollments (with_cm cm1 st) !! student_id); [|done].
      by destruct (decide _). }
    specialize (Hw3 st2 H2).
    set (st3 := match _waitlists st2 !! section_id with
                | Some wl => _ | None => _ end) in *.
    rewrite <- Hw3.
    destruct (_waitlists st3 !! section_id) as [[|next rest]|]; done. }
  destruct (lock_outcome _concurrency_manager with_cm (uuid w) (now w)
              (lock_key section_id) ConcurrencyManager.WRITE (holder_key w)
              None body st) as [(e & cm' & ->)|[(cm1 & ->)|(cm1 & cm2 & ->)]].
  - left. by destruct (is_ConcurrencyError e).
  - right. rewrite <- (Hbody cm1).
    destruct (body (with_cm cm1 st)) as [[[r evs]|e] st']; [done|].
    simpl. by destruct (is_ConcurrencyError e).
  - right. rewrite <- (Hbody cm1).
    destruct (body (with_cm cm1 st)) as [[[r evs]|e] st']; [done|].
    simpl. by destruct (is_ConcurrencyError e).
Qed.

Lemma waitlists_distinct_add student_id section_id st :
  waitlists_distinct st ->
  waitlists_distinct (snd (_add_to_waitlist student_id section_id st)).
Proof.
  intros H sec wl. unfold _add_to_waitlist. simpl.
  destruct (decide (section_id = sec)) as [<-|Hne].
  - rewrite lookup_insert_eq. intros [= <-].
    assert (NoDup (default [] (_waitlists st !! section_id))) as Hnd.
    { destruct (_waitlists st !! section_id) as [wl0|] eqn:E; simpl; [by apply (H _ _ E)|].
      constructor. }
    destruct (decide _) as [|Hnin]; [done|].
    apply NoDup_app. split_and!; [done| |apply NoDup_singleton].
    intros x Hx ->%list_elem_of_singleton. done.
  - rewrite lookup_insert_ne by done. apply H.
Qed.

Lemma drop_waitlists_distinct student_id section_id (waitlists : gmap string (list string)) :
  (forall sec wl, waitlists !! sec = Some wl -> NoDup wl) ->
  forall sec wl, drop_waitlists student_id section_id waitlists !! sec = Some wl -> NoDup wl.
Proof.
  intros H. unfold drop_waitlists.
  set (w3 := match waitlists !! section_id with Some wl => _ | None => _ end).
  assert (forall sec wl, w3 !! sec = Some wl -> NoDup wl) as H3.
  { unfold w3. destruct (waitlists !! section_id) as [wl0|] eqn:E; [|done].
    destruct (decide _); [|done]. intros sec wl.
    destruct (decide (section_id = sec)) as [<-|Hne].
    - rewrite lookup_insert_eq. intros [= <-]. apply remove_first_NoDup. by apply (H _ _ E).
    - rewrite lookup_insert_ne by done. apply H. }
  destruct (w3 !! section_id) as [[|next rest]|] eqn:E3; try done.
  intros sec wl. destruct (decide (section_id = sec)) as [<-|Hne].
  - rewrite lookup_insert_eq. intros [= <-]. apply H3 in E3. by apply NoDup_cons in E3 as [_ ?].
  - rewrite lookup_insert_ne by done. apply H3.
Qed.

Lemma waitlists_distinct_step o st : waitlists_distinct st -> waitlists_distinct (step o st).
Proof.
  intros H. destruct o as [w student section|w student_id section_id]; simpl.
  - destruct (enroll_student_waitlists w student section st) as [Hw|Hw];
      intros sec wl; rewrite Hw; [apply H|].
    by apply (waitlists_distinct_add _ _ _ H).
  - destruct (drop_student_waitlists w student_id section_id st) as [Hw|Hw];
      intros sec wl; rewrite Hw; [apply H|].
    by apply drop_waitlists_distinct.
Qed.

(** Whatever enrollments and drops the service has run from its initial
    state, no waitlist names a student twice. *)
Theorem waitlists_never_repeat_a_student (ops : list op) (section_id : string) :
  NoDup (waitlist section_id (run ops empty_service)).
Proof.
  assert (forall st, waitlists_distinct st -> waitlists_distinct (run ops st)) as Hrun.
  { induction ops as [|o ops IH]; intros st H; simpl; [done|].
    apply IH. by apply waitlists_distinct_step. }
  assert (waitlists_distinct empty_service) as H0.
  { intros sec wl. simpl. by rewrite lookup_empty. }
  specialize (Hrun _ H0). unfold waitlist.
  destruct (_waitlists (run ops empty_service) !! section_id) as [wl|] eqn:E; simpl.
  - by apply (Hrun _ _ E).
  - constructor.
Qed.

Lemma index_app_fresh x l : x ∉ l -> index x (l ++ [x]) = length l.
Proof.
  induction l as [|y l IH]; simpl; intros Hnin.
  - by rewrite decide_True.
  - rewrite decide_False by set_solver. f_equal. apply IH. set_solver.
Qed.

Lemma index_app_old y l l' : y ∈ l -> index y (l ++ l') = index y l.
Proof.
  induction l as [|z l IH]; simpl; intros Hin; [by apply elem_of_nil in Hin|].
  destruct (decide (z = y)); [done|]. f_equal. apply IH. set_solver.
Qed.

(** Enrolling in a section that reads full puts a new student at the end
    of the waitlist and reports the 1-based position, also in the event;
    a student already waiting keeps their place; the enrollment records
    and the positions of the students already waiting do not change. *)
Theorem enroll_waitlists_at_the_end (w : env) (student : Student.t)
        (section : Section.t) (st : t) :
  _is_enrolled (Student.id student) (Section.id section) st = false ->
  fst (_evaluate_policies student section st) = true ->
  Section.capacity section <= Section.enrolled_count section ->
  ConcurrencyManager._locks (_concurrency_manager st) !! lock_key (Section.id section) = None ->
  let wl := waitlist (Section.id section) st in
  let wl' := if decide (Student.id student ∈ wl) then wl else wl ++ [Student.id student] in
  let position := Z.of_nat (index (Student.id student) wl') + 1 in
  let run := enroll_student w student section st in
  fst run
  = (Ok {| success := true; status := WAITLISTED;
           message := "Student added to waitlist at position " +:+ pretty position;
           waitlist_position := Some position |},
     [ {| ev_student_id := Student.id student; ev_section_id := Section.id section;
          ev_status := "waitlisted"; ev_waitlist_position := Some position |} ]) /\
  waitlist (Section.id section) (snd run) = wl' /\
  _enrollments (snd run) = _enrollments st /\
  get_waitlist_position (Student.id student) (Section.id section) (snd run) = Some position /\
  (Student.id student ∉ wl -> position = Z.of_nat (length wl) + 1) /\
  (forall other, other ∈ wl ->
     get_waitlist_position other (Section.id section) (snd run)
     = get_waitlist_position other (Section.id section) st).
Proof.
  intros Hnot Hpol Hfull Hfree wl wl' position run. subst run.
  unfold enroll_student. rewrite Hnot.
  destruct (_evaluate_policies student section st) as [[] msg]; [|done].
  match goal with
  | |- context [ConcurrencyManager.lock _ _ _ _ _ _ _ _ ?f st] => set (body := f)
  end.
  destruct (lock_free_runs_body w (Section.id section) body st Hfree) as (cm1 & cm2 & ->).
  unfold body. rewrite (proj2 (Z.ltb_ge _ _) Hfull).
  unfold _add_to_waitlist. cbn [fst snd].
  change (default [] (_waitlists (with_cm cm1 st) !! Section.id section)) with wl.
  fold wl'. fold position.
  split; [done|].
  unfold waitlist, get_waitlist_position. cbn [_waitlists with_cm with_waitlists _enrollments].
  rewrite lookup_insert_eq. cbn [default].
  assert (Student.id student ∈ wl') as Hin.
  { unfold wl'. destruct (decide _); [done|]. set_solver. }
  split_and!; [done|done| | |].
  - by rewrite decide_True.
  - intros Hnin. unfold position, wl'. rewrite decide_False by done.
    by rewrite index_app_fresh.
  - intros other Hother.
    assert (other ∈ wl') as Hother'.
    { unfold wl'. destruct (decide _); [done|]. set_solver. }
    rewrite decide_True by done.
    assert (_waitlists st !! Section.id section = Some wl) as ->.
    { unfold wl, waitlist in *. destruct (_waitlists st !! Section.id section); [done|].
      by apply elem_of_nil in Hother. }
    rewrite decide_True by done. do 3 f_equal.
    unfold wl'. destruct (decide _); [done|]. by apply index_app_old.
Qed.

Lemma enroll_waitlists_at_the_end_witness :
  waitlist "S" (snd (enroll_student call_2 bob seminar_taken alice_waiting)) = ["A"; "B"] /\
  get_waitlist_position "B" "S" (snd (enroll_student call_2 bob seminar_taken alice_waiting))
  = Some 2.
Proof.
  pose proof (enroll_waitlists_at_the_end call_2 bob seminar_taken alice_waiting) as H.
  destruct H as (_ & Hw & _ & Hp & _).
  - vm_compute. reflexivity.
  - vm_compute. reflexivity.
  - vm_compute. discriminate.
  - vm_compute. reflexivity.
  - split; [exact Hw|exact Hp].
Defined.

Lemma default_policies_verdict student section :
  _evaluate_policies_from default_policies student section
  = match default_refusal section with
    | Some name => (false, "Policy violation: " +:+ name)
    | None => (true, "All policies satisfied")
    end.
Proof.
  unfold default_refusal, default_policies. cbn [_evaluate_policies_from].
  unfold PrerequisiteCheckPolicy at 1. cbn [can_enroll get_policy_name].
  destruct (bool_decide (Section.course_id section ∈ ["CS301"; "CS401"; "MATH301"])) eqn:Hg.
  - apply bool_decide_eq_true in Hg.
    assert (Section.course_id section = "CS301" \/ Section.course_id section = "CS401"
            \/ Section.course_id section = "MATH301") as [H|[H|H]] by set_solver;
      rewrite H; by vm_compute.
  - apply bool_decide_eq_false in Hg.
    rewrite !lookup_insert_ne by set_solver. rewrite lookup_empty.
    unfold QuotaPolicy at 1. cbn [can_enroll get_policy_name].
    destruct (30 <=? Section.enrolled_count section) eqn:Hq.
    + apply Z.leb_le in Hq. by rewrite (proj2 (Z.ltb_ge _ _) Hq).
    + apply Z.leb_gt in Hq. by rewrite (proj2 (Z.ltb_lt _ _) Hq).
Qed.

(** With the default policies a student who is not enrolled is rejected,
    and the service left unchanged, with the name of the first failing
    policy: the prerequisite policy for every section of CS301, CS401 or
    MATH301 (the completed courses it compares with are always empty),
    else the quota policy when the section holds 30 students or more. *)
Theorem default_policies_refuse (w : env) (student : Student.t) (section : Section.t)
        (st : t) (name : string) :
  _policies st = default_policies ->
  _is_enrolled (Student.id student) (Section.id section) st = false ->
  default_refusal section = Some name ->
  enroll_student w student section st
  = (Ok {| success := false; status := REJECTED;
           message := "Policy violation: " +:+ name; waitlist_position := None |},
     [], st).
Proof.
  intros Hpol Hnot Href. unfold enroll_student. rewrite Hnot.
  unfold _evaluate_policies. rewrite Hpol, default_policies_verdict, Href. done.
Qed.

Lemma default_policies_refuse_witness :
  enroll_student call_1 alice statistics_course empty_service
  = (Ok {| success := false; status := REJECTED;
           message := "Policy violation: PrerequisiteCheckPolicy";
           waitlist_position := None |},
     [], empty_service).
Proof.
  apply (default_policies_refuse call_1 alice statistics_course empty_service
           "PrerequisiteCheckPolicy"); reflexivity.
Defined.

Lemma write_refused_when_others_hold r h cm :
  ConcurrencyManager.holds_none r h cm = true ->
  ConcurrencyManager.others_hold r h cm = true ->
  ConcurrencyManager.compatible r ConcurrencyManager.WRITE h cm = false.
Proof.
  intros Hnone Hothers. unfold ConcurrencyManager.compatible. rewrite Hnone. simpl.
  apply not_true_is_false. intros Ht.
  apply andb_true_iff in Ht as [Ht H3]. apply andb_true_iff in Ht as [H1 H2].
  apply negb_true_iff in H1, H2, H3. rewrite type_held_false in H1, H2, H3.
  unfold ConcurrencyManager.others_hold in Hothers.
  apply existsb_exists in Hothers as ([l i] & Hin & Hp).
  apply list_elem_of_In, elem_of_map_to_list in Hin. simpl in Hp.
  apply andb_true_iff in Hp as [Hr%bool_decide_eq_true _].
  destruct (ConcurrencyManager.lock_type i) eqn:Hty;
    [by apply (H1 l i)|by apply (H2 l i)|by apply (H3 l i)].
Qed.

Lemma lock_refused_under_contention {A} w section_id
      (body : t -> result A * t) st :
  ConcurrencyManager.well_formed (_concurrency_manager st) ->
  ConcurrencyManager.holds_none (lock_key section_id) (holder_key w)
    (_concurrency_manager st) = true ->
  ConcurrencyManager.others_hold (lock_key section_id) (holder_key w)
    (_concurrency_manager st) = true ->
  ConcurrencyManager.lock _concurrency_manager with_cm
    (uuid w) (now w) (lock_key section_id) ConcurrencyManager.WRITE
    (holder_key w) None body st
  = (Raise (ConcurrencyManager.refusal (lock_key section_id) ConcurrencyManager.WRITE), st).
Proof.
  intros Hwf Hnone Hothers. unfold ConcurrencyManager.lock.
  pose proof (acquire_lock_decided (uuid w) (now w) (lock_key section_id)
                ConcurrencyManager.WRITE (holder_key w) None _ Hwf) as Hacq.
  rewrite write_refused_when_others_hold in Hacq by done.
  destruct (ConcurrencyManager.acquire_lock _ _ _ _ _ _ _) as [res cm'] eqn:E.
  simpl in Hacq. subst res.
  rewrite (acquire_lock_refused_same _ _ _ _ _ _ _ _ _ E). by rewrite with_cm_same.
Qed.

(** When another holder has a lock on the section's enrollment resource,
    [enroll_student] answers REJECTED and [drop_student] answers an
    unsuccessful DROPPED, both with the lock manager's message, no event,
    and the service unchanged. *)
Theorem contention_rejects_and_changes_nothing (w : env) (student : Student.t)
        (section : Section.t) (st : t) :
  ConcurrencyManager.well_formed (_concurrency_manager st) ->
  ConcurrencyManager.holds_none (lock_key (Section.id section)) (holder_key w)
    (_concurrency_manager st) = true ->
  ConcurrencyManager.others_hold (lock_key (Section.id section)) (holder_key w)
    (_concurrency_manager st) = true ->
  let answer status :=
    (Ok {| success := false; status := status;
           message := "Concurrency error: Cannot acquire write lock on "
                      +:+ lock_key (Section.id section);
           waitlist_position := None |}, [] : list Event, st) in
  (_is_enrolled (Student.id student) (Section.id section) st = false ->
   fst (_evaluate_policies student section st) = true ->
   enroll_student w student section st = answer REJECTED) /\
  (_is_enrolled (Student.id student) (Section.id section) st = true ->
   drop_student w (Student.id student) (Section.id section) st = answer DROPPED).
Proof.
  intros Hwf Hnone Hothers answer. split.
  - intros Hnot Hpol. unfold enroll_student. rewrite Hnot.
    destruct (_evaluate_policies student section st) as [[] msg]; [|done].
    by rewrite lock_refused_under_contention.
  - intros Henr. unfold drop_student. rewrite Henr. simpl negb. cbv iota.
    by rewrite lock_refused_under_contention.
Qed.

Lemma contention_rejects_and_changes_nothing_witness :
  drop_student call_3 "A" "S" contended
  = (Ok {| success := false; status := DROPPED;
           message := "Concurrency error: Cannot acquire write lock on enrollment_S";
           waitlist_position := None |}, [], contended).
Proof.
  refine (proj2 (contention_rejects_and_changes_nothing call_3 alice seminar contended
                   _ _ _) _).
  - apply well_formed_run; [apply well_formed_init|reflexivity].
  - reflexivity.
  - reflexivity.
  - reflexivity.
Defined.

Lemma lock_restores_manager {S A} (get : S -> ConcurrencyManager.t)
      (set : ConcurrencyManager.t -> S -> S)
      (Hgs : forall c s, get (set c s) = c)
      uuid now r ty h tm (body : S -> result A * S) st :
  ConcurrencyManager.well_formed (get st) -> ConcurrencyManager.unused_id uuid (get st) = true ->
  uuid <> "" ->
  (forall s, get (snd (body s)) = get s) ->
  get (snd (ConcurrencyManager.lock get set uuid now r ty h tm body st)) = get st.
Proof.
  intros Hwf Hunused Hne Hbody. unfold ConcurrencyManager.lock.
  destruct (ConcurrencyManager.acquire_lock uuid now r ty h tm (get st))
    as [[l|e] cm'] eqn:E.
  - destruct (acquire_lock_granted _ _ _ _ _ _ _ _ _ E) as (-> & _).
    pose proof (release_undoes_acquire_wf uuid now r ty h tm (get st) Hwf Hunused) as Hrt.
    rewrite E in Hrt. specialize (Hrt eq_refl). simpl in Hrt.
    pose proof (Hbody (set cm' st)) as Hb.
    destruct (body (set cm' st)) as [res st1]. simpl in *.
    rewrite decide_False by done. rewrite Hgs, Hb, Hgs. by rewrite Hrt.
  - simpl. rewrite Hgs. by apply (acquire_lock_refused_same _ _ _ _ _ _ _ _ _ E).
Qed.

(** Given a fresh, non-empty lock id, every call of [enroll_student] and
    of [drop_student] leaves the lock manager as it found it: the lock it takes is released on every path. *)
Theorem enrollment_calls_restore_the_lock_manager (w : env) (student : Student.t)
        (section : Section.t) (st : t) :
  ConcurrencyManager.well_formed (_concurrency_manager st) ->
  ConcurrencyManager.unused_id (uuid w) (_concurrency_manager st) = true ->
  uuid w <> "" ->
  _concurrency_manager (snd (enroll_student w student section st))
  = _concurrency_manager st /\
  _concurrency_manager (snd (drop_student w (Student.id student) (Section.id section) st))
  = _concurrency_manager st.
Proof.
  intros Hwf Hunused Hne. split.
  - unfold enroll_student.
    destruct (_is_enrolled _ _ st); [done|].
    destruct (_evaluate_policies student section st) as [[] msg]; [|done].
    match goal with
    | |- context [ConcurrencyManager.lock _ _ _ _ _ _ _ _ ?f st] => set (body := f)
    end.
    assert (forall s, _concurrency_manager (snd (body s)) = _concurrency_manager s) as Hbody.
    { intros s. unfold body.
      by destruct (Section.enrolled_count section <? Section.capacity section). }
    pose proof (lock_restores_manager _concurrency_manager with_cm (fun c s => eq_refl)
                  (uuid w) (now w) (lock_key (Section.id section))
                  ConcurrencyManager.WRITE (holder_key w) None body st
                  Hwf Hunused Hne Hbody) as Hlock.
    destruct (ConcurrencyManager.lock _ _ _ _ _ _ _ _ body st) as [[[r evs]|e] st'];
      [done|]. simpl in *. by destruct (is_ConcurrencyError e).
  - unfold drop_student.
    destruct (_is_enrolled _ _ st); simpl negb; cbv iota; [|done].
    match goal with
    | |- context [ConcurrencyManager.lock _ _ _ _ _ _ _ _ ?f st] => set (body := f)
    end.
    assert (forall s, _concurrency_manager (snd (body s)) = _concurrency_manager s) as Hbody.
    { intros s. unfold body.
      set (st2 := match _enrollments s !! Student.id student with
                  | Some sections => _ | None => _ end).
      assert (_concurrency_manager st2 = _concurrency_manager s) as H2.
      { unfold st2. destruct (_enrollments s !! Student.id student); [|done].
        by destruct (decide _). }
      set (st3 := match _waitlists st2 !! Section.id section with
                  | Some wl => _ | None => _ end).
      assert (_concurrency_manager st3 = _concurrency_manager s) as H3.
      { unfold st3. destruct (_waitlists st2 !! Section.id section); [|done].
        by destruct (decide _). }
      by destruct (_waitlists st3 !! Section.id section) as [[|next rest]|]. }
    pose proof (lock_restores_manager _concurrency_manager with_cm (fun c s => eq_refl)
                  (uuid w) (now w) (lock_key (Section.id section))
                  ConcurrencyManager.WRITE (holder_key w) None body st
                  Hwf Hunused Hne Hbody) as Hlock.
    destruct (ConcurrencyManager.lock _ _ _ _ _ _ _ _ body st) as [[[r evs]|e] st'];
      [done|]. simpl in *. by destruct (is_ConcurrencyError e).
Qed.

Lemma enrollment_calls_restore_the_lock_manager_witness :
  _concurrency_manager (snd (enroll_student call_3 carol seminar_taken bob_waiting))
  = _concurrency_manager bob_waiting.
Proof.
  refine (proj1 (enrollment_calls_restore_the_lock_manager call_3 carol seminar_taken
                   bob_waiting _ _ _)).
  - apply well_formed_init.
  - reflexivity.
  - discriminate.
Defined.

(** Dropping a confirmed student from a section nobody waits for removes
    that one record, leaves every other record and the waitlists as
    they were, and publishes one dropped event. *)
Theorem drop_without_waitlist (w : env) (student_id section_id : string) (st : t) :
  _is_enrolled student_id section_id st = true ->
  waitlist section_id st = [] ->
  ConcurrencyManager._locks (_concurrency_manager st) !! lock_key section_id = None ->
  let run := drop_student w student_id section_id st in
  fst run = (Ok {| success := true; status := DROPPED;
                   message := "Student dropped successfully";
                   waitlist_position := None |},
             [ {| ev_student_id := student_id; ev_section_id := section_id;
                  ev_status := "dropped"; ev_waitlist_position := None |} ]) /\
  (forall s c, recorded_status s c (snd run)
               = if decide (s = student_id /\ c = section_id) then None
                 else recorded_status s c st) /\
  _waitlists (snd run) = _waitlists st /\
  _is_enrolled student_id section_id (snd run) = false.
Proof.
  intros Henr Hwl Hfree run. subst run.
  unfold drop_student. rewrite Henr. simpl negb. cbv iota.
  match goal with
  | |- context [ConcurrencyManager.lock _ _ _ _ _ _ _ _ ?b st] => set (body := b)
  end.
  destruct (lock_free_runs_body w section_id body st Hfree) as (cm1 & cm2 & ->).
  assert (body (with_cm cm1 st)
          = (Ok ({| success := true; status := DROPPED;
                    message := "Student dropped successfully";
                    waitlist_position := None |},
                 [ {| ev_student_id := student_id; ev_section_id := section_id;
                      ev_status := "dropped"; ev_waitlist_position := None |} ]),
             with_enrollments (without_record student_id section_id (_enrollments st))
                              (with_cm cm1 st))) as ->.
  { unfold body. simpl.
    assert (match _enrollments st !! student_id with
            | Some sections =>
                if decide (delete section_id sections = ∅)
                then with_enrollments (delete student_id (_enrollments st)) (with_cm cm1 st)
                else with_enrollments (<[student_id := delete section_id sections]>
                                         (_enrollments st)) (with_cm cm1 st)
            | None => with_cm cm1 st
            end
            = with_enrollments (without_record student_id section_id (_enrollments st))
                               (with_cm cm1 st)) as ->.
    { unfold without_record. destruct (_enrollments st !! student_id) as [sections|] eqn:E.
      - by destruct (decide _).
      - done. }
    simpl. unfold waitlist in Hwl.
    destruct (_waitlists st !! section_id) as [wl|] eqn:Ew; simpl in Hwl.
    - subst wl. rewrite decide_False by apply not_elem_of_nil. simpl. by rewrite Ew.
    - simpl. by rewrite Ew. }
  cbn [fst snd]. split; [done|].
  assert (forall s c,
             recorded_status s c
               (with_cm cm2 (with_enrollments
                               (without_record student_id section_id (_enrollments st))
                               (with_cm cm1 st)))
             = if decide (s = student_id /\ c = section_id) then None
               else recorded_status s c st) as Hrec.
  { intros s c. unfold recorded_status. simpl. apply without_record_lookup. }
  split_and!; [done|done|].
  apply not_true_is_false. intros Ht. apply is_enrolled_spec in Ht.
  rewrite Hrec in Ht. by rewrite decide_True in Ht.
Qed.

Lemma drop_without_waitlist_witness :
  _is_enrolled "A" "W" (snd (drop_student call_4 "A" "W" after_carol)) = false.
Proof.
  refine (proj2 (proj2 (proj2 (drop_without_waitlist call_4 "A" "W" after_carol _ _ _))));
    vm_compute; reflexivity.
Defined.

End EnrollmentHistoryProofs.

(** ** Scheduling engine: overlap, room choice, cancellation *)

Section SchedulerHistoryProofs.
Import SchedulerService.

(** On slots that end after they start, [overlaps_with] holds exactly when
    the two slots are on the same day and share an instant of their
    half-open intervals; slots that meet end to start do not overlap; and
    the test is symmetric. *)
Theorem overlaps_with_half_open (a b : TimeSlot) :
  proper a = true -> proper b = true ->
  (overlaps_with a b = true <->
   day_of_week a = day_of_week b /\
   exists instant, start_time a <= instant < end_time a /\
                   start_time b <= instant < end_time b) /\
  (end_time a <= start_time b -> overlaps_with a b = false) /\
  overlaps_with a b = overlaps_with b a.
Proof.
  unfold overlaps_with, proper. rewrite !Z.gtb_ltb, !Z.ltb_lt. intros Ha Hb. split_and!.
  - rewrite !andb_true_iff, !Z.ltb_lt, Z.eqb_eq. split.
    + intros [[H1 H2] H3]. split; [done|].
      exists (Z.max (start_time a) (start_time b)). lia.
    + intros [H3 (instant & H1 & H2)]. lia.
  - intros Hadj. rewrite (proj2 (Z.ltb_ge (start_time b) (end_time a))) by done.
    by rewrite andb_false_r.
  - rewrite (Z.eqb_sym (day_of_week b)).
    by destruct (start_time a <? end_time b), (start_time b <? end_time a).
Qed.

Lemma overlaps_with_half_open_witness :
  overlaps_with monday_9 {| start_time := 600; end_time := 660; day_of_week := 0 |} = false.
Proof.
  refine (proj1 (proj2 (overlaps_with_half_open monday_9
                          {| start_time := 600; end_time := 660; day_of_week := 0 |}
                          _ _)) _).
  - reflexivity.
  - reflexivity.
  - simpl. lia.
Defined.

Lemma key_lt_true m a b : key_lt m a b = true -> distance m a <= distance m b.
Proof.
  unfold key_lt, distance. intros H. apply orb_true_iff in H as [H|H].
  - apply Z.ltb_lt in H. lia.
  - apply andb_true_iff in H as [H%Z.eqb_eq _]. lia.
Qed.

Lemma key_lt_false m a b : key_lt m a b = false -> distance m b <= distance m a.
Proof.
  unfold key_lt, distance. intros H. apply orb_false_iff in H as [H _].
  apply Z.ltb_ge in H. lia.
Qed.

Lemma insert_sorted_perm m x l : Permutation (insert_sorted m x l) (x :: l).
Proof.
  induction l as [|y l IH]; simpl; [done|].
  destruct (key_lt m x y); [done|]. rewrite IH. apply perm_swap.
Qed.

Lemma stable_sort_perm m l : Permutation (stable_sort m l) l.
Proof.
  unfold stable_sort.
  assert (forall acc, Permutation (fold_left (fun acc x => insert_sorted m x acc) l acc)
                                  (l ++ acc)) as H.
  { induction l as [|x l IH]; intros acc; simpl; [done|].
    rewrite IH, insert_sorted_perm. by rewrite Permutation_middle. }
  rewrite H. by rewrite app_nil_r.
Qed.

Lemma insert_sorted_by_distance m x l :
  by_distance m l -> by_distance m (insert_sorted m x l).
Proof.
  unfold by_distance. induction 1 as [|y l Hl IH Hy]; simpl.
  - constructor; [constructor|constructor].
  - destruct (key_lt m x y) eqn:Hk.
    + apply key_lt_true in Hk. constructor; [by constructor|].
      constructor; [done|]. eapply Forall_impl; [exact Hy|]. simpl. intros z Hz. lia.
    + apply key_lt_false in Hk. constructor; [done|].
      rewrite Forall_forall. intros z Hz.
      rewrite insert_sorted_perm in Hz.
      apply elem_of_cons in Hz as [->|Hz]; [done|].
      rewrite Forall_forall in Hy. by apply Hy.
Qed.

Lemma stable_sort_by_distance m l : by_distance m (stable_sort m l).
Proof.
  unfold stable_sort.
  assert (forall acc, by_distance m acc ->
                      by_distance m (fold_left (fun acc x => insert_sorted m x acc) l acc)) as H.
  { induction l as [|x l IH]; intros acc Hacc; simpl; [done|].
    apply IH. by apply insert_sorted_by_distance. }
  apply H. constructor.
Qed.

Lemma elem_of_find_suitable_rooms request st room :
  room ∈ _find_suitable_rooms request st <->
  room ∈ map snd (_rooms st) /\ room_suits (room_requirements request) room = true.
Proof.
  unfold _find_suitable_rooms. rewrite stable_sort_perm.
  rewrite !list_elem_of_In. apply filter_In.
Qed.

(** The room [schedule_section] tries is suitable for the request and is
    the smallest of the suitable rooms. *)
Theorem first_candidate_is_closest_fit (request : ScheduleRequest) (st : t)
        (best : Room.t) (others : list Room.t) :
  _find_suitable_rooms request st = best :: others ->
  let m := default 1 (min_capacity (room_requirements request)) in
  best ∈ map snd (_rooms st) /\
  room_suits (room_requirements request) best = true /\
  m <= Room.capacity best /\
  forall room, room ∈ map snd (_rooms st) ->
               room_suits (room_requirements request) room = true ->
               Room.capacity best <= Room.capacity room.
Proof.
  intros Hfind m.
  assert (best ∈ _find_suitable_rooms request st) as Hbest by (rewrite Hfind; set_solver).
  apply elem_of_find_suitable_rooms in Hbest as [Hin Hsuit].
  assert (forall room, room_suits (room_requirements request) room = true ->
                       m <= Room.capacity room) as Hcap.
  { intros room. unfold room_suits. fold m.
    destruct (Room.capacity room <? m) eqn:Hc; [done|]. apply Z.ltb_ge in Hc. done. }
  split_and!; [done|done|by apply Hcap|].
  intros room Hroom Hs.
  assert (room ∈ _find_suitable_rooms request st) as Hr
    by (by apply elem_of_find_suitable_rooms).
  assert (by_distance m (_find_suitable_rooms request st)) as Hsorted
    by apply stable_sort_by_distance.
  rewrite Hfind in Hsorted, Hr.
  apply StronglySorted_inv in Hsorted as [_ Hall].
  pose proof (Hcap best Hsuit) as Hcb. pose proof (Hcap room Hs) as Hcr.
  apply elem_of_cons in Hr as [->|Hr]; [lia|].
  rewrite Forall_forall in Hall. specialize (Hall room Hr).
  unfold distance in Hall. lia.
Qed.

Lemma first_candidate_is_closest_fit_witness :
  room_suits (room_requirements (ask "A")) hall = true.
Proof.
  refine (proj1 (proj2 (first_candidate_is_closest_fit (ask "A") campus hall [] _))).
  reflexivity.
Defined.

(** When no room meets the requirements, [schedule_section] reports the
    failure and neither records a schedule nor books a room. *)
Theorem no_suitable_room_is_reported (w : env) (request : ScheduleRequest) (st : t) :
  (forall room, room ∈ map snd (_rooms st) ->
                room_suits (room_requirements request) room = false) ->
  ConcurrencyManager._locks (_concurrency_manager st) !! lock_key (section_id request) = None ->
  fst (schedule_section w request st)
  = Ok {| success := false; schedule_id := None; assigned_room := None;
          assigned_times := []; conflicts := ["No suitable rooms available"];
          message := "No suitable rooms found for scheduling" |} /\
  _schedules (snd (schedule_section w request st)) = _schedules st /\
  _room_assignments (snd (schedule_section w request st)) = _room_assignments st.
Proof.
  intros Hnone Hfree.
  assert (_find_suitable_rooms request st = []) as Hfind.
  { destruct (_find_suitable_rooms request st) as [|room rest] eqn:E; [done|].
    assert (room ∈ _find_suitable_rooms request st) as Hin by (rewrite E; set_solver).
    apply elem_of_find_suitable_rooms in Hin as [Hin Hs].
    rewrite (Hnone room Hin) in Hs. done. }
  unfold schedule_section.
  match goal with
  | |- context [ConcurrencyManager.lock _ _ _ _ _ _ _ _ ?f st] => set (body := f)
  end.
  destruct (lock_on_free_resource _concurrency_manager with_cm scheduler_with_cm_same
              (lock_uuid w) (now w) (lock_key (section_id request))
              ConcurrencyManager.WRITE (holder_key w) None body st Hfree)
    as (cm1 & cm2 & ->).
  unfold body.
  change (_find_suitable_rooms request (with_cm cm1 st))
    with (_find_suitable_rooms request st).
  rewrite Hfind. done.
Qed.

Lemma no_suitable_room_is_reported_witness :
  fst (schedule_section (draw "lock-1" "sched-1") auditorium_request campus)
  = Ok {| success := false; schedule_id := None; assigned_room := None;
          assigned_times := []; conflicts := ["No suitable rooms available"];
          message := "No suitable rooms found for scheduling" |}.
Proof.
  refine (proj1 (no_suitable_room_is_reported (draw "lock-1" "sched-1")
                   auditorium_request campus _ _)).
  - intros room Hroom. apply list_elem_of_singleton in Hroom. subst room. reflexivity.
  - reflexivity.
Defined.

Lemma remove_slot_appended x ledger rest :
  x ∉ ledger -> remove_slot x (ledger ++ x :: rest) = ledger ++ rest.
Proof.
  induction ledger as [|y ledger IH]; simpl; intros Hnin.
  - by rewrite decide_True.
  - rewrite decide_False by set_solver. f_equal. apply IH. set_solver.
Qed.

Lemma remove_slots_appended room_id slots : forall ledger ledgers,
  (forall x, x ∈ slots -> x ∉ ledger) ->
  remove_slots room_id slots (<[room_id := ledger ++ slots]> ledgers)
  = Ok (<[room_id := ledger]> ledgers).
Proof.
  induction slots as [|x slots IH]; intros ledger ledgers Hnin; simpl.
  - by rewrite app_nil_r.
  - rewrite lookup_insert_eq. rewrite decide_True by set_solver.
    rewrite remove_slot_appended by (apply Hnin; set_solver).
    rewrite insert_insert_eq. apply IH. intros y Hy. apply Hnin. set_solver.
Qed.

Lemma no_room_conflict request room st x y :
  room_conflicts request room st = [] ->
  x ∈ time_slots request -> y ∈ get_room_schedule (Room.id room) st ->
  overlaps_with x y = false.
Proof.
  intros Hnil Hx Hy. apply not_true_is_false. intros Hov.
  by apply (room_conflicts_nonempty request room st x y).
Qed.

(** A request without conflicts whose slots end after they start is
    recorded as APPROVED and its slots are appended to the room's
    bookings; cancelling that schedule returns
    [True], restores the bookings of every room, and marks the record
    CANCELLED. *)
Theorem cancel_undoes_schedule (w : env) (request : ScheduleRequest) (st : t)
        (best : Room.t) (others : list Room.t) (ledger : list TimeSlot) :
  ConcurrencyManager._locks (_concurrency_manager st) !! lock_key (section_id request) = None ->
  _find_suitable_rooms request st = best :: others ->
  _check_scheduling_conflicts request best st = [] ->
  _room_assignments st !! Room.id best = Some ledger ->
  forallb proper (time_slots request) = true ->
  let scheduled := snd (schedule_section w request st) in
  fst (schedule_section w request st)
  = Ok {| success := true; schedule_id := Some (schedule_uuid w);
          assigned_room := Some (Room.id best); assigned_times := time_slots request;
          conflicts := []; message := "Section scheduled successfully" |} /\
  sd_status <$> get_schedule (schedule_uuid w) scheduled = Some APPROVED /\
  get_room_schedule (Room.id best) scheduled = ledger ++ time_slots request /\
  fst (cancel_schedule (schedule_uuid w) scheduled) = Ok true /\
  _room_assignments (snd (cancel_schedule (schedule_uuid w) scheduled))
  = _room_assignments st /\
  sd_status <$> get_schedule (schedule_uuid w)
                  (snd (cancel_schedule (schedule_uuid w) scheduled)) = Some CANCELLED.
Proof.
  intros Hfree Hbest Hok Hledger Hproper scheduled. subst scheduled.
  unfold schedule_section.
  match goal with
  | |- context [ConcurrencyManager.lock _ _ _ _ _ _ _ _ ?f st] => set (body := f)
  end.
  destruct (lock_on_free_resource _concurrency_manager with_cm scheduler_with_cm_same
              (lock_uuid w) (now w) (lock_key (section_id request))
              ConcurrencyManager.WRITE (holder_key w) None body st Hfree)
    as (cm1 & cm2 & ->).
  set (record := {| sd_schedule_id := schedule_uuid w; sd_section_id := section_id request;
                    sd_room := best; sd_time_slots := time_slots request;
                    sd_status := APPROVED; sd_created_at := now w;
                    sd_constraints := constraints request |}).
  assert (body (with_cm cm1 st)
          = (Ok {| success := true; schedule_id := Some (schedule_uuid w);
                   assigned_room := Some (Room.id best);
                   assigned_times := time_slots request; conflicts := [];
                   message := "Section scheduled successfully" |},
             {| _concurrency_manager := cm1;
                _schedules := <[schedule_uuid w := record]> (_schedules st);
                _room_assignments :=
                  <[Room.id best := ledger ++ time_slots request]> (_room_assignments st);
                _constraints := _constraints st; _rooms := _rooms st |})) as ->.
  { unfold body.
    change (_find_suitable_rooms request (with_cm cm1 st))
      with (_find_suitable_rooms request st). rewrite Hbest.
    change (_check_scheduling_conflicts request best (with_cm cm1 st))
      with (_check_scheduling_conflicts request best st). rewrite Hok.
    simpl. by rewrite Hledger. }
  cbn [fst snd]. split; [done|].
  unfold get_schedule, get_room_schedule, cancel_schedule.
  cbn [with_cm _schedules _room_assignments].
  rewrite !lookup_insert_eq. cbn [fmap option_fmap option_map default record sd_status
                                  sd_room sd_time_slots].
  split; [done|]. split; [done|].
  assert (forall x, x ∈ time_slots request -> x ∉ ledger) as Hnin.
  { intros x Hx Hin.
    assert (room_conflicts request best st = []) as Hrc.
    { unfold _check_scheduling_conflicts in Hok. by apply app_eq_nil in Hok as [? _]. }
    assert (overlaps_with x x = false) as Hself.
    { apply (no_room_conflict request best st x x Hrc Hx).
      unfold get_room_schedule. by rewrite Hledger. }
    rewrite forallb_forall in Hproper.
    specialize (Hproper x ltac:(by apply list_elem_of_In)).
    unfold overlaps_with, proper in *. rewrite Z.gtb_ltb, Hproper, Z.eqb_refl in Hself.
    done. }
  rewrite (remove_slots_appended _ _ _ _ Hnin).
  cbn [fst snd _room_assignments _schedules]. rewrite lookup_insert_eq.
  split_and!; [done| |done].
  by apply insert_id.
Qed.

Lemma cancel_undoes_schedule_witness :
  _room_assignments
    (snd (cancel_schedule "sched-1"
            (snd (schedule_section (draw "lock-1" "sched-1") (ask "A") campus))))
  = _room_assignments campus.
Proof.
  refine (proj1 (proj2 (proj2 (proj2 (proj2
            (cancel_undoes_schedule (draw "lock-1" "sched-1") (ask "A") campus hall [] []
               _ _ _ _ _))))));
    reflexivity.
Defined.

Lemma schedule_section_schedules w request st :
  _schedules (snd (schedule_section w request st)) = _schedules st \/
  exists d, sd_status d = APPROVED /\
            _schedules (snd (schedule_section w request st))
            = <[schedule_uuid w := d]> (_schedules st).
Proof.
  unfold schedule_section.
  match goal with
  | |- context [ConcurrencyManager.lock _ _ _ _ _ _ _ _ ?f st] => set (body := f)
  end.
  assert (forall cm1, _schedules (snd (body (with_cm cm1 st))) = _schedules st \/
                      exists d, sd_status d = APPROVED /\
                                _schedules (snd (body (with_cm cm1 st)))
                                = <[schedule_uuid w := d]> (_schedules st)) as Hbody.
  { intros cm1. unfold body.
    destruct (_find_suitable_rooms request (with_cm cm1 st)) as [|best rest]; [by left|].
    destruct (_check_scheduling_conflicts request best (with_cm cm1 st)); [|by left].
    right. eexists. split; [|by destruct (_room_assignments (with_cm cm1 st) !! Room.id best)].
    done. }
  destruct (lock_outcome _concurrency_manager with_cm (lock_uuid w) (now w)
              (lock_key (section_id request)) ConcurrencyManager.WRITE (holder_key w)
              None body st) as [(e & cm' & ->)|[(cm1 & ->)|(cm1 & cm2 & ->)]].
  - left. by destruct (is_ConcurrencyError e).
  - specialize (Hbody cm1). destruct (body (with_cm cm1 st)) as [[r|e] st'];
      [done|]. simpl in *. by destruct (is_ConcurrencyError e).
  - specialize (Hbody cm1). destruct (body (with_cm cm1 st)) as [[r|e] st'];
      [done|]. simpl in *. by destruct (is_ConcurrencyError e).
Qed.

Lemma none_active_step o st : none_active st -> none_active (step o st).
Proof.
  intros H. destruct o as [w request|sid]; simpl.
  - destruct (schedule_section_schedules w request st) as [Hs|(d & Hd & Hs)];
      intros sid' d'; rewrite Hs; [apply H|].
    destruct (decide (schedule_uuid w = sid')) as [<-|Hne].
    + rewrite lookup_insert_eq. intros [= <-]. by rewrite Hd.
    + rewrite lookup_insert_ne by done. apply H.
  - unfold cancel_schedule. destruct (_schedules st !! sid) as [d|] eqn:E; [|done].
    destruct (remove_slots _ _ _); [|done]. intros sid' d'. cbn [snd _schedules].
    destruct (decide (sid = sid')) as [<-|Hne].
    + rewrite lookup_insert_eq. by intros [= <-].
    + rewrite lookup_insert_ne by done. apply H.
Qed.

Lemma minimize_conflicts_idle st :
  none_active st ->
  _minimize_conflicts st
  = {| objective := "minimize_conflicts"; total_conflicts := 0;
       conflicts_resolved := 0; optimization_score := (0 / 1)%Q |}.
Proof.
  intros H. unfold _minimize_conflicts.
  assert (forall l acc,
             (forall kv, kv ∈ l -> sd_status (snd kv) <> ACTIVE) ->
             fold_left (fun acc (kv : string * ScheduleData) =>
                          if bool_decide (sd_status (snd kv) = ACTIVE)
                          then count_conflicts st (snd kv) acc
                          else acc) l acc = acc) as Hfold.
  { induction l as [|kv l IH]; intros acc Hl; simpl; [done|].
    rewrite bool_decide_eq_false_2 by (apply Hl; set_solver).
    apply IH. intros kv' Hkv'. apply Hl. set_solver. }
  rewrite Hfold; [done|]. intros [sid d] Hin. apply elem_of_map_to_list in Hin.
  by apply (H sid d).
Qed.

(** No operation of the service gives a schedule the status ACTIVE, so
    [_minimize_conflicts] reports no conflict and a score of zero after
    any history of scheduling and cancelling. *)
Theorem minimize_conflicts_never_finds_any (rooms : list Room.t) (ops : list op) :
  _minimize_conflicts (run ops (fold_right add_room (init ConcurrencyManager.init) rooms))
  = {| objective := "minimize_conflicts"; total_conflicts := 0;
       conflicts_resolved := 0; optimization_score := (0 / 1)%Q |}.
Proof.
  apply minimize_conflicts_idle.
  assert (forall st, none_active st -> none_active (run ops st)) as Hrun.
  { induction ops as [|o ops IH]; intros st H; simpl; [done|].
    apply IH. by apply none_active_step. }
  apply Hrun. induction rooms as [|room rooms IH]; simpl.
  - intros sid d. simpl. by rewrite lookup_empty.
  - exact IH.
Qed.
End SchedulerHistoryProofs.

(** ** Transaction coordinator: decision table and cleanup *)

Section TransactionProofs.
Import TwoPhaseCommit.

Lemma all_values_gather f c ps :
  all_values (gather f (tasks_for c ps))
  = forallb (fun pt => settle (f (snd pt))) (tasks_for c ps).
Proof.
  apply eq_true_iff_eq. rewrite phase_all_true, forallb_forall. split.
  - intros H [p obj] Hin. apply list_elem_of_In, elem_of_tasks_for in Hin as [Hp Hobj].
    by apply (H p obj).
  - intros H p obj Hp Hobj. apply (H (p, obj)).
    by apply list_elem_of_In, elem_of_tasks_for.
Qed.

(** The outcome of [execute_transaction] in full: the transaction
    succeeds exactly when every registered participant it names prepares
    and commits, the status is COMMITTED then and ABORTED otherwise, the
    same status is recorded for the operation, the calls go out phase by
    phase in list order, and the result carries the commit answers after
    a complete prepare phase and the prepare answers otherwise. *)
Theorem transaction_decision_table (now : Q) (request : CoordinationRequest) (c : t) :
  let run := execute_transaction now request c in
  let res := fst (fst run) in
  let everyone := named c request in
  success res = all_prepared c request && all_committed c request /\
  status res = (if success res then COMMITTED else ABORTED) /\
  get_operation_status (operation_id request) (snd run) = Some (status res) /\
  snd (fst run)
  = map PrepareCall everyone
    ++ (if all_prepared c request
        then map CommitCall everyone
             ++ (if all_committed c request then [] else map AbortCall everyone)
        else map AbortCall everyone) /\
  participants_results res
  = (if all_prepared c request
     then gather (fun obj => commit obj (operation_id request))
     else gather (fun obj => prepare obj (operation_id request) (data request)))
      (tasks_for c (participants request)).
Proof.
  intros run res everyone. subst res everyone run.
  unfold execute_transaction, all_prepared, all_committed, prepared, committed, named.
  set (c0 := {| _coordinator_id := _coordinator_id c;
                _operations := _ ; _participants := _participants c |}).
  unfold _prepare_phase, _commit_phase, _abort_phase.
  rewrite !all_values_gather.
  change (tasks_for c0 (participants request)) with (tasks_for c (participants request)).
  assert (forall s, get_operation_status (operation_id request)
                      (_update_operation_status (operation_id request) s c0) = Some s) as Hs.
  { intros s. eapply update_status_lookup. simpl. apply lookup_insert_eq. }
  destruct (forallb (fun pt => settle (prepare (snd pt) (operation_id request) (data request)))
                    (tasks_for c (participants request)));
    [destruct (forallb (fun pt => settle (commit (snd pt) (operation_id request)))
                       (tasks_for c (participants request)))|];
    cbn [fst snd success status participants_results andb];
    rewrite ?Hs, ?map_map_fst, ?app_nil_r; done.
Qed.

Lemma transaction_calls now request c k :
  k ∈ snd (fst (execute_transaction now request c)) -> target k ∈ named c request.
Proof.
  unfold execute_transaction, named.
  set (c0 := {| _coordinator_id := _coordinator_id c;
                _operations := _ ; _participants := _participants c |}).
  unfold _prepare_phase, _commit_phase, _abort_phase.
  change (tasks_for c0 (participants request)) with (tasks_for c (participants request)).
  assert (forall g : string -> call,
             (forall p, target (g p) = p) ->
             k ∈ map (fun pt : string * DistributedParticipant => g (fst pt))
                     (tasks_for c (participants request)) ->
             target k ∈ map fst (tasks_for c (participants request))) as Hmap.
  { intros g Hg Hin. apply list_elem_of_fmap in Hin as (pt & -> & Hpt).
    rewrite Hg. apply list_elem_of_fmap. by exists pt. }
  destruct (all_values _); [destruct (all_values _)|]; cbn [fst snd];
    rewrite ?elem_of_app; intros Hin;
    destruct_or?; (eapply Hmap; [|eassumption]); done.
Qed.

Lemma elem_of_named c request p :
  p ∈ named c request <-> p ∈ participants request /\ is_Some (_participants c !! p).
Proof.
  unfold named. rewrite list_elem_of_fmap. split.
  - intros ([q obj] & -> & Hin). apply elem_of_tasks_for in Hin as [Hq Hobj].
    split; [done|]. by exists obj.
  - intros [Hp [obj Hobj]]. exists (p, obj). split; [done|]. by apply elem_of_tasks_for.
Qed.

(** Every call of a transaction goes to a participant that the request
    names and that is registered; an unregistered participant receives
    no call. *)
Theorem calls_reach_named_registered_participants
        (now : Q) (request : CoordinationRequest) (c : t) (gone : string) :
  Forall (fun k => target k ∈ participants request /\ is_Some (_participants c !! target k))
         (snd (fst (execute_transaction now request c))) /\
  Forall (fun k => target k <> gone)
         (snd (fst (execute_transaction now request (unregister_participant gone c)))).
Proof.
  split; apply Forall_forall; intros k Hk; apply transaction_calls, elem_of_named in Hk.
  - done.
  - destruct Hk as [_ [obj Hobj]]. intros <-.
    unfold unregister_participant in Hobj. simpl in Hobj.
    by rewrite lookup_delete_eq in Hobj.
Qed.

(** A request that names no registered participant is committed without
    a single call, with an empty result dictionary. *)
Theorem transaction_without_registered_participants
        (now : Q) (request : CoordinationRequest) (c : t) :
  named c request = [] ->
  fst (execute_transaction now request c)
  = ({| success := true; status := COMMITTED;
        message := "Transaction committed successfully";
        participants_results := ∅; result_operation_id := operation_id request |}, []) /\
  get_operation_status (operation_id request) (snd (execute_transaction now request c))
  = Some COMMITTED.
Proof.
  unfold named. intros Hnone. apply map_eq_nil in Hnone.
  unfold execute_transaction.
  set (c0 := {| _coordinator_id := _coordinator_id c;
                _operations := _ ; _participants := _participants c |}).
  unfold _prepare_phase, _commit_phase, _abort_phase.
  change (tasks_for c0 (participants request)) with (tasks_for c (participants request)).
  rewrite Hnone. cbn. split; [done|].
  eapply update_status_lookup. simpl. apply lookup_insert_eq.
Qed.

Lemma transaction_without_registered_participants_witness :
  fst (execute_transaction 0 transfer (init "coordinator"))
  = ({| success := true; status := COMMITTED;
        message := "Transaction committed successfully";
        participants_results := ∅; result_operation_id := "op-1" |}, []).
Proof.
  refine (proj1 (transaction_without_registered_participants 0 transfer
                   (init "coordinator") _)).
  reflexivity.
Defined.

Lemma execute_transaction_records_one_operation
        (now : Q) (request : CoordinationRequest) (c : t) :
  let run := execute_transaction now request c in
  _operations (snd run)
  = <[operation_id request :=
        {| op_status := status (fst (fst run)); op_participants := participants request;
           op_data := data request; op_start_time := now;
           op_timeout := timeout request; op_phase := "prepare" |}]> (_operations c) /\
  _participants (snd run) = _participants c /\
  _coordinator_id (snd run) = _coordinator_id c.
Proof.
  intros run. subst run. unfold execute_transaction.
  set (c0 := {| _coordinator_id := _coordinator_id c;
                _operations := _ ; _participants := _participants c |}).
  unfold _prepare_phase, _commit_phase, _abort_phase, _update_operation_status.
  destruct (all_values _); [destruct (all_values _)|]; cbn [fst snd status];
    unfold c0; cbn [_operations _participants _coordinator_id];
    rewrite lookup_insert_eq; cbn [_operations _participants _coordinator_id op_participants
                                   op_data op_start_time op_timeout op_phase];
    by rewrite insert_insert_eq.
Qed.

Lemma lookup_fold_delete {A} (ks : list string) (m : gmap string A) k :
  fold_left (fun ops id => delete id ops) ks m !! k
  = if decide (k ∈ ks) then None else m !! k.
Proof.
  revert m. induction ks as [|x ks IH]; intros m; simpl; [done|].
  rewrite IH. destruct (decide (k ∈ ks)) as [Hin|Hnin].
  - rewrite decide_True by set_solver. done.
  - destruct (decide (k = x)) as [->|Hne].
    + rewrite decide_True by set_solver. apply lookup_delete_eq.
    + rewrite decide_False by set_solver. by apply lookup_delete_ne.
Qed.

Lemma size_fold_delete {A} (ks : list string) : forall (m : gmap string A),
  NoDup ks -> (forall k, k ∈ ks -> is_Some (m !! k)) ->
  (length ks + size (fold_left (fun ops id => delete id ops) ks m))%nat = size m.
Proof.
  induction ks as [|x ks IH]; intros m Hnd Hin; simpl; [done|].
  apply NoDup_cons in Hnd as [Hx Hnd].
  assert (forall k, k ∈ ks -> is_Some (delete x m !! k)) as Hin'.
  { intros k Hk. rewrite lookup_delete_ne by (intros ->; done). apply Hin. set_solver. }
  specialize (IH (delete x m) Hnd Hin').
  rewrite map_size_delete_Some in IH by (apply Hin; set_solver).
  assert (size m <> 0)%nat; [|lia].
  destruct (Hin x ltac:(set_solver)) as [v Hv]. by eapply map_size_ne_0_lookup_2.
Qed.

Lemma elem_of_to_remove now h (m : gmap string Operation) k :
  k ∈ map fst (List.filter (fun kv : string * Operation => outdated now h (snd kv))
                           (map_to_list m))
  <-> exists o, m !! k = Some o /\ outdated now h o = true.
Proof.
  rewrite list_elem_of_fmap. split.
  - intros ([k' o] & -> & Hin). apply list_elem_of_In, filter_In in Hin as [Hin Ho].
    apply list_elem_of_In, elem_of_map_to_list in Hin. by exists o.
  - intros (o & Hk & Ho). exists (k, o). split; [done|].
    apply list_elem_of_In, filter_In. split; [|done].
    by apply list_elem_of_In, elem_of_map_to_list.
Qed.

(** [cleanup_old_operations] removes exactly the operations that started
    before the cutoff, whatever their status, returns their number, and
    leaves the participants registered. *)
Theorem cleanup_removes_exactly_the_outdated (now : Q) (max_age_hours : Z) (c : t)
        (operation_id : string) :
  let cleaned := cleanup_old_operations now max_age_hours c in
  _operations (snd cleaned) !! operation_id
  = match _operations c !! operation_id with
    | Some o => if outdated now max_age_hours o then None else Some o
    | None => None
    end /\
  fst cleaned + Z.of_nat (size (_operations (snd cleaned))) = Z.of_nat (size (_operations c)) /\
  _participants (snd cleaned) = _participants c.
Proof.
  intros cleaned. subst cleaned. unfold cleanup_old_operations. cbn [fst snd _operations
                                                                     _participants].
  split_and!; [| |done].
  - rewrite lookup_fold_delete.
    destruct (decide (operation_id ∈ _)) as [Hin|Hnin].
    + apply elem_of_to_remove in Hin as (o & -> & ->). done.
    + destruct (_operations c !! operation_id) as [o|] eqn:E; [|done].
      destruct (outdated now max_age_hours o) eqn:Ho; [|done].
      exfalso. apply Hnin. apply elem_of_to_remove. by exists o.
  - rewrite <- Nat2Z.inj_add. f_equal. apply size_fold_delete.
    + eapply sublist_NoDup; [apply (NoDup_fst_map_to_list (_operations c))|].
      apply fmap_sublist. clear. induction (map_to_list (_operations c)) as [|x l IH]; simpl.
      * constructor.
      * destruct (outdated now max_age_hours (snd x)); by constructor.
    + intros k Hk. apply elem_of_to_remove in Hk as (o & Ho & _). by exists o.
Qed.
End TransactionProofs.

(** ** Coordination service *)

Section DistributedCoordinatorProofs.
Import DistributedCoordinator.

Lemma own_locks_init node_id cm : own_locks (init node_id cm).
Proof. intros r h. simpl. by rewrite lookup_empty. Qed.

(** Before [initialize_leader_election] the coordinator has no leader and
    [elect_leader] raises [RuntimeError]; after it, for every node set,
    [elect_leader] returns the coordinator's own node id and the
    coordinator is the leader. *)
Theorem coordinator_elects_itself (node_id : string) (cm : ConcurrencyManager.t)
        (all_nodes : list string) :
  let fresh := init node_id cm in
  let ready := initialize_leader_election all_nodes fresh in
  fst (elect_leader fresh) = Raise (mk_exn RuntimeError "Leader election not initialized") /\
  snd (elect_leader fresh) = fresh /\
  is_leader fresh = false /\ get_current_leader fresh = None /\
  is_leader ready = false /\ get_current_leader ready = None /\
  fst (elect_leader ready) = Ok node_id /\
  is_leader (snd (elect_leader ready)) = true /\
  get_current_leader (snd (elect_leader ready)) = Some node_id.
Proof.
  intros fresh ready. subst fresh ready.
  unfold elect_leader, initialize_leader_election, is_leader, get_current_leader.
  cbn [init with_election _leader_election _node_id].
  rewrite (start_election_idle (LeaderElection.init node_id all_nodes)) by done.
  cbn. unfold LeaderElection.is_leader. cbn.
  split_and!; try done. by apply bool_decide_eq_true.
Qed.

(** Every distributed lock a coordinator records is held by its own node,
    and acquiring and releasing keep it so; hence
    [acquire_distributed_lock] ends at its first loop test: it returns
    [True], with the lock recorded, when the timeout has not elapsed at
    that test, and [False] otherwise. *)
Theorem distributed_lock_never_waits (fuel : nat) (tick : nat -> Q)
        (resource_id : string) (timeout : Q) (dc : t) :
  own_locks dc ->
  let granted := within (tick 1%nat) (tick 0%nat) timeout in
  acquire_distributed_lock (S fuel) tick resource_id timeout dc
  = Some (granted,
          if granted
          then with_locks (<[resource_id := _node_id dc]> (_distributed_locks dc)) dc
          else dc) /\
  own_locks (with_locks (<[resource_id := _node_id dc]> (_distributed_locks dc)) dc) /\
  own_locks (snd (release_distributed_lock resource_id dc)).
Proof.
  intros Hown granted. subst granted. split_and!.
  - unfold acquire_distributed_lock. cbn [acquire_loop].
    destruct (within (tick 1%nat) (tick 0%nat) timeout); [|done].
    destruct (_distributed_locks dc !! resource_id) as [holder|] eqn:E; [|done].
    rewrite decide_True by by apply (Hown resource_id).
    f_equal. f_equal. destruct dc as [n cm tpc le locks]. unfold with_locks. cbn in *.
    f_equal. symmetry. apply insert_id. rewrite E. f_equal. by apply (Hown resource_id).
  - intros r h. cbn. destruct (decide (resource_id = r)) as [->|Hne].
    + rewrite lookup_insert_eq. by intros [= <-].
    + rewrite lookup_insert_ne by done. apply Hown.
  - unfold release_distributed_lock.
    destruct (_distributed_locks dc !! resource_id) as [holder|]; [|done].
    destruct (decide (holder = _node_id dc)); [|done].
    intros r h. cbn. intros Hr. apply lookup_delete_Some in Hr as [_ Hr]. by eapply Hown.
Qed.

Lemma distributed_lock_never_waits_witness :
  acquire_distributed_lock 1 seconds "ledger" 10 (init "node-1" ConcurrencyManager.init)
  = Some (true,
          with_locks {["ledger" := "node-1"]} (init "node-1" ConcurrencyManager.init)).
Proof.
  refine (proj1 (distributed_lock_never_waits 0 seconds "ledger" 10
                   (init "node-1" ConcurrencyManager.init) _)).
  apply own_locks_init.
Defined.

(** [release_distributed_lock] returns whether the resource was locked and
    removes it; a second release returns [False]; releasing right after
    acquiring returns [True] and leaves the resource free. *)
Theorem distributed_lock_release (resource_id : string) (dc : t) :
  own_locks dc ->
  fst (release_distributed_lock resource_id dc)
  = bool_decide (is_Some (_distributed_locks dc !! resource_id)) /\
  _distributed_locks (snd (release_distributed_lock resource_id dc))
  = delete resource_id (_distributed_locks dc) /\
  fst (release_distributed_lock resource_id (snd (release_distributed_lock resource_id dc)))
  = false /\
  release_distributed_lock resource_id
    (with_locks (<[resource_id := _node_id dc]> (_distributed_locks dc)) dc)
  = (true, with_locks (delete resource_id (_distributed_locks dc)) dc).
Proof.
  intros Hown.
  assert (fst (release_distributed_lock resource_id dc)
          = bool_decide (is_Some (_distributed_locks dc !! resource_id)) /\
          _distributed_locks (snd (release_distributed_lock resource_id dc))
          = delete resource_id (_distributed_locks dc)) as [H1 H2].
  { unfold release_distributed_lock.
    destruct (_distributed_locks dc !! resource_id) as [holder|] eqn:E.
    - rewrite decide_True by by apply (Hown resource_id). done.
    - cbn. split; [done|]. symmetry. by apply delete_id. }
  split_and!; [done|done| |].
  - unfold release_distributed_lock at 1. rewrite H2, lookup_delete_eq. done.
  - unfold release_distributed_lock. cbn.
    rewrite lookup_insert_eq, decide_True by done.
    unfold with_locks. cbn. by rewrite delete_insert_eq.
Qed.

Lemma distributed_lock_release_witness :
  fst (release_distributed_lock "ledger" (init "node-1" ConcurrencyManager.init)) = false.
Proof.
  refine (proj1 (distributed_lock_release "ledger"
                   (init "node-1" ConcurrencyManager.init) _)).
  apply own_locks_init.
Defined.
End DistributedCoordinatorProofs.

(** ** Section roster *)

Section RosterProofs.
Import SectionRoster.

Lemma orderly_opened id course_id capacity : orderly (opened id course_id capacity).
Proof.
  unfold opened, set_capacity, orderly, is_full, Section.enrolled_count, Section.capacity.
  destruct (capacity <? 0) eqn:E; cbn.
  - split_and!; [by rewrite size_empty|constructor|constructor|by left].
  - apply Z.ltb_ge in E. split_and!; [by rewrite size_empty|constructor|constructor|by left].
Qed.

Lemma remove_first_absent x l : x ∉ l -> EnrollmentService.remove_first x l = l.
Proof.
  induction l as [|y l IH]; simpl; [done|]. intros Hnin.
  rewrite decide_False by set_solver. f_equal. apply IH. set_solver.
Qed.

Lemma remove_first_appended x l : x ∉ l -> EnrollmentService.remove_first x (l ++ [x]) = l.
Proof.
  induction l as [|y l IH]; simpl; intros Hnin.
  - by rewrite decide_True.
  - rewrite decide_False by set_solver. f_equal. apply IH. set_solver.
Qed.

Lemma remove_first_length x l :
  x ∈ l -> S (length (EnrollmentService.remove_first x l)) = length l.
Proof.
  induction l as [|y l IH]; simpl; intros Hin; [by apply elem_of_nil in Hin|].
  destruct (decide (y = x)) as [->|Hne]; [done|]. simpl. f_equal. apply IH. set_solver.
Qed.

Lemma size_add (x : string) (e : gset string) : x ∉ e -> size ({[x]} ∪ e) = S (size e).
Proof. intros H. rewrite size_union by set_solver. by rewrite size_singleton. Qed.

Lemma size_remove (x : string) (e : gset string) : x ∈ e -> S (size (e ∖ {[x]})) = size e.
Proof.
  intros H. rewrite size_difference by set_solver. rewrite size_singleton.
  assert (size e <> 0)%nat; [|lia]. intros Hz. apply size_empty_inv in Hz. set_solver.
Qed.

Lemma orderly_enroll x s : orderly s -> orderly (snd (enroll_student x s)).
Proof.
  intros Hs. pose proof Hs as (Hcap & Hnd & Hdis & Hfull). unfold enroll_student.
  destruct (decide (x ∈ enrolled s)) as [Hin|Hnin]; [done|].
  destruct (is_full s) eqn:Ef; cbn [negb].
  - destruct (decide (x ∈ _waitlist s)) as [Hw|Hw]; [done|].
    unfold orderly, is_full in *. cbn in *. split_and!; [done| | |by right].
    + apply NoDup_app. split_and!; [done| |apply NoDup_singleton].
      intros y Hy Hy'. apply list_elem_of_singleton in Hy'. by subst.
    + apply Forall_app. split; [done|]. by apply Forall_singleton.
  - destruct Hfull as [Hempty|Hfull]; [|congruence].
    unfold orderly, is_full, Section.enrolled_count, Section.capacity, enrolled in *.
    cbn in *. rewrite Hempty. apply Z.leb_gt in Ef.
    rewrite size_add by done. split_and!; [lia|constructor|constructor|by left].
Qed.

Lemma orderly_drop x s : orderly s -> orderly (snd (drop_student x s)).
Proof.
  intros Hs. pose proof Hs as (Hcap & Hnd & Hdis & Hfull). unfold drop_student.
  destruct (decide (x ∈ enrolled s)) as [Hin|Hnin].
  - destruct (_waitlist s) as [|next rest] eqn:Ew.
    + unfold orderly, is_full, Section.enrolled_count, Section.capacity, enrolled in *.
      cbn in *. rewrite Ew. pose proof (size_remove x _ Hin).
      split_and!; [lia|constructor|constructor|by left].
    + destruct Hfull as [?|Hfull]; [done|].
      apply NoDup_cons in Hnd as [Hnext Hnd]. apply Forall_cons in Hdis as [Hn Hdis].
      unfold orderly, is_full, Section.enrolled_count, Section.capacity, enrolled in *.
      cbn in *.
      assert (size ({[next]} ∪ Section._enrolled (section s) ∖ {[x]})
              = size (Section._enrolled (section s))) as Hsize.
      { rewrite size_add by set_solver. by apply size_remove. }
      rewrite Hsize. split_and!; [done|done| |by right].
      apply Forall_forall. intros y Hy. rewrite Forall_forall in Hdis.
      specialize (Hdis y Hy). assert (y <> next) by (intros ->; done). set_solver.
  - destruct (decide (x ∈ _waitlist s)) as [Hw|Hw]; [|done].
    unfold orderly, is_full in *. cbn in *.
    split_and!; [done|by apply remove_first_NoDup| |].
    + apply Forall_forall. intros y Hy. rewrite Forall_forall in Hdis.
      apply Hdis. by eapply remove_first_sub.
    + destruct Hfull as [Hempty|Hfull]; [|by right]. rewrite Hempty in Hw.
      by apply elem_of_nil in Hw.
Qed.

Lemma orderly_run ops s : orderly s -> orderly (run ops s).
Proof.
  revert s. induction ops as [|o ops IH]; intros s H; simpl; [done|].
  apply IH. destruct o; simpl; [by apply orderly_enroll|by apply orderly_drop].
Qed.

(** Under a fixed capacity, whatever students enroll and drop, the section
    never holds more students than its capacity, its waitlist names no
    student twice and no enrolled student, and nobody waits while a place
    is free. *)
Theorem roster_stays_orderly (id course_id : string) (capacity : Z) (ops : list op) :
  let s := run ops (opened id course_id capacity) in
  Section.enrolled_count (section s) <= Section.capacity (section s) /\
  NoDup (_waitlist s) /\
  Forall (fun x => x ∉ enrolled s) (_waitlist s) /\
  (_waitlist s = [] \/ is_full s = true).
Proof. apply orderly_run, orderly_opened. Qed.

(** The section's version advances by one exactly when a call changes the
    roster, and [drop_student] returns [True] exactly then. *)
Theorem roster_version_counts_changes (student_id : string) (s : t) :
  _version (snd (enroll_student student_id s))
  = _version s + (if same_roster (snd (enroll_student student_id s)) s then 0 else 1) /\
  _version (snd (drop_student student_id s))
  = _version s + (if same_roster (snd (drop_student student_id s)) s then 0 else 1) /\
  fst (drop_student student_id s)
  = negb (same_roster (snd (drop_student student_id s)) s).
Proof.
  assert (forall a, same_roster a a = true) as Hrefl.
  { intros a. unfold same_roster. by rewrite !bool_decide_eq_true_2. }
  assert (forall a b, enrolled a <> enrolled b -> same_roster a b = false) as He.
  { intros a b H. unfold same_roster. by rewrite bool_decide_eq_false_2. }
  assert (forall a b, length (_waitlist a) <> length (_waitlist b) ->
                      same_roster a b = false) as Hw.
  { intros a b H. unfold same_roster.
    rewrite (bool_decide_eq_false_2 (_waitlist a = _waitlist b)) by congruence.
    apply andb_false_r. }
  unfold enroll_student, drop_student. split_and!.
  - destruct (decide (student_id ∈ enrolled s)) as [Hin|Hnin];
      [rewrite Hrefl; cbn; lia|].
    destruct (negb (is_full s)).
    + rewrite He; [done|]. unfold enrolled. cbn. set_solver.
    + destruct (decide (student_id ∈ _waitlist s)); [rewrite Hrefl; cbn; lia|].
      rewrite Hw; [done|]. cbn. rewrite length_app. simpl. lia.
  - destruct (decide (student_id ∈ enrolled s)) as [Hin|Hnin].
    + destruct (_waitlist s) as [|next rest] eqn:Ew.
      * rewrite He; [done|]. unfold enrolled. cbn. set_solver.
      * rewrite Hw; [done|]. cbn. rewrite Ew. simpl. lia.
    + destruct (decide (student_id ∈ _waitlist s)) as [Hl|Hl]; [|rewrite Hrefl; cbn; lia].
      rewrite Hw; [done|]. cbn. pose proof (remove_first_length _ _ Hl). lia.
  - destruct (decide (student_id ∈ enrolled s)) as [Hin|Hnin].
    + destruct (_waitlist s) as [|next rest] eqn:Ew.
      * rewrite He; [done|]. unfold enrolled. cbn. set_solver.
      * rewrite Hw; [done|]. cbn. rewrite Ew. simpl. lia.
    + destruct (decide (student_id ∈ _waitlist s)) as [Hl|Hl]; [|by rewrite Hrefl].
      rewrite Hw; [done|]. cbn. pose proof (remove_first_length _ _ Hl). lia.
Qed.

(** For a student the section does not know, [enroll_student] returns
    whether a place was free, and dropping that student again restores
    the enrolled set and the waitlist; the version has advanced by two. *)
Theorem roster_drop_undoes_enroll (id course_id : string) (capacity : Z) (ops : list op)
        (student_id : string) :
  let s := run ops (opened id course_id capacity) in
  unknown student_id s = true ->
  fst (enroll_student student_id s) = negb (is_full s) /\
  fst (drop_student student_id (snd (enroll_student student_id s))) = true /\
  enrolled (snd (drop_student student_id (snd (enroll_student student_id s)))) = enrolled s /\
  _waitlist (snd (drop_student student_id (snd (enroll_student student_id s))))
  = _waitlist s /\
  _version (snd (drop_student student_id (snd (enroll_student student_id s))))
  = _version s + 2.
Proof.
  intros s Hnew. assert (orderly s) as (_ & _ & _ & Hfull)
    by apply orderly_run, orderly_opened.
  unfold unknown in Hnew. apply andb_true_iff in Hnew as [He Hw].
  apply negb_true_iff, bool_decide_eq_false in He, Hw.
  unfold enroll_student. rewrite decide_False by done.
  destruct (is_full s) eqn:Ef; cbn [negb].
  - rewrite decide_False by done. cbn [fst snd]. unfold drop_student.
    cbn [enrolled update with_waitlist section _waitlist]. fold (enrolled s).
    rewrite decide_False by done. rewrite decide_True by set_solver.
    cbn. rewrite remove_first_appended by done. split_and!; [done..|lia].
  - destruct Hfull as [Hempty|?]; [|congruence]. cbn [fst snd]. unfold drop_student.
    cbn [enrolled update with_enrolled section _waitlist Section._enrolled].
    rewrite decide_True by set_solver. rewrite Hempty. cbn.
    split_and!; [done|done| |done|lia]. unfold enrolled. set_solver.
Qed.

Lemma roster_drop_undoes_enroll_witness :
  _waitlist (snd (drop_student "carol"
                    (snd (enroll_student "carol"
                            (run [Enroll "alice"; Enroll "bob"] (opened "S" "MATH301" 1))))))
  = ["bob"].
Proof.
  refine (proj1 (proj2 (proj2 (proj2
            (roster_drop_undoes_enroll "S" "MATH301" 1 [Enroll "alice"; Enroll "bob"]
               "carol" _))))).
  vm_compute. reflexivity.
Defined.
End RosterProofs.
